(** * Metal print simulator: material synthesis and material parameters

    A shallow embedding of the texture-map synthesizer
    ([processTextureMaps], utils/textureUtils) and of the two places that
    decide the parameters of the physical material: the interactive viewer
    ([PrintMesh], components/PrintSimulator.tsx) and the static export
    ([generateStandaloneHtml], utils/exportUtils).

    JavaScript numbers are IEEE 754 binary64 values and are modelled by
    Rocq's primitive floats.  Samples of a [Uint8ClampedArray] are integers
    of [0, 255] and are modelled in [Z]; integer arithmetic on such small
    values is exact on binary64, so it is written in [Z]. *)

From Stdlib Require Import ZArith Bool Lia String Uint63 Floats.
From stdpp Require Import base list.

Set Warnings "-inexact-float".
Local Open Scope Z_scope.

(** ** JavaScript values *)

Module Js.

(** The values a numeric configuration field can hold when it is read. *)
Inductive value :=
| Undefined
| Null
| Number (x : float).

(** [ToBoolean] on a number: [0], [-0] and [NaN] are falsy. *)
Definition truthy_number (x : float) : bool :=
  negb (PrimFloat.is_zero x || PrimFloat.is_nan x).

Definition truthy (v : value) : bool :=
  match v with
  | Undefined | Null => false
  | Number x => truthy_number x
  end.

(** [ToBoolean] on [string | null]: [null] and the empty string are
    falsy. *)
Definition truthy_string (s : option string) : bool :=
  match s with
  | None => false
  | Some EmptyString => false
  | Some (String _ _) => true
  end.

(** An optional field: a missing field reads as [undefined]. *)
Definition of_optional (o : option float) : value :=
  match o with
  | None => Undefined
  | Some x => Number x
  end.

(** A number interpolated into a template literal and read back as source
    text.  [Number::toString] prints the shortest decimal that reads back
    as the same binary64 value, [NaN] and [Infinity] print as the
    identifiers of these values, and [-0] prints as ["0"]. *)
Definition template_number (x : float) : float :=
  if PrimFloat.is_zero x then PrimFloat.zero else x.

(** A field after [JSON.stringify] and evaluation of the text as an object
    literal: an [undefined] field is left out, a number that is not finite
    is written [null], [-0] is written ["0"]. *)
Definition json_roundtrip (v : value) : value :=
  match v with
  | Undefined => Undefined
  | Null => Null
  | Number x =>
      if PrimFloat.is_finite x then Number (template_number x) else Null
  end.

(** *** Numbers *)

(** The number with a given integer value (exact below [2^53]). *)
Definition of_Z (z : Z) : float :=
  if z <? 0 then (- PrimFloat.of_uint63 (Uint63.of_Z (- z)))%float
  else PrimFloat.of_uint63 (Uint63.of_Z z).

(** The largest integer not above a finite number [(-1)^s * m * 2^e]; a
    shift to the left by a negative amount is a shift to the right, which
    rounds down. *)
Definition floorZ (x : float) : Z :=
  match Prim2SF x with
  | S754_finite s m e => Z.shiftl (if s then Zneg m else Zpos m) e
  | _ => 0
  end.

(** [Math.floor]: [NaN], the infinities and the zeros are returned as they
    are, and so is a number with no fractional bits. *)
Definition Math_floor (x : float) : float :=
  match Prim2SF x with
  | S754_finite _ _ e => if 0 <=? e then x else of_Z (floorZ x)
  | _ => x
  end.

(** [Math.max] and [Math.min] of two arguments: [NaN] if either is, and
    [+0] counts as larger than [-0]. *)
Definition Math_max (a b : float) : float :=
  if PrimFloat.is_nan a || PrimFloat.is_nan b then PrimFloat.nan
  else if (a <? b)%float then b
  else if (b <? a)%float then a
  else if PrimFloat.get_sign a then b else a.

Definition Math_min (a b : float) : float :=
  if PrimFloat.is_nan a || PrimFloat.is_nan b then PrimFloat.nan
  else if (a <? b)%float then a
  else if (b <? a)%float then b
  else if PrimFloat.get_sign a then a else b.

(** [ToUint8Clamp], the conversion applied by a store into a
    [Uint8ClampedArray]: [NaN] gives 0, the number is clamped to
    [0, 255] and rounded to the nearest integer, a tie going to the even
    one. *)
Definition ToUint8Clamp (x : float) : Z :=
  if PrimFloat.is_nan x then 0
  else if (x <=? 0)%float then 0
  else if (255 <=? x)%float then 255
  else
    let f := floorZ x in
    if (x <? of_Z f + 0.5)%float then f
    else if (of_Z f + 0.5 <? x)%float then f + 1
    else if Z.even f then f else f + 1.

End Js.

(** ** types.ts *)

Record PrintConfig := {
  metalness : float;
  roughness : float;
  metalRoughness : float;
  paperRoughness : float;
  inkGlossiness : float;
  exposure : float;
  toneMappingExposure : option float;
  backgroundColor : string;
  varnishBump : option float
}.

(** [DEFAULT_CONFIG] of App.tsx. *)
Definition DEFAULT_CONFIG : PrintConfig := {|
  metalness := 1.0;
  roughness := 0.2;
  metalRoughness := 0.2;
  paperRoughness := 1.0;
  inkGlossiness := 0.0;
  exposure := 1.0;
  toneMappingExposure := Some 0.9%float;
  backgroundColor := "#0d1117";
  varnishBump := Some 0.02%float
|}.

(** ** The properties handed to [MeshPhysicalMaterial]

    A texture property is modelled by whether a texture is bound to it. *)

Module Material.

Record t := {
  metalnessMap : bool;
  roughnessMap : bool;
  clearcoatMap : bool;
  bumpMap : bool;
  bumpScale : float;
  metalness : float;
  roughness : float;
  clearcoat : float;
  envMapIntensity : float
}.

End Material.

(** ** components/PrintSimulator.tsx: the interactive viewer *)

Module PrintSimulator.

Section PrintMesh.
Variable clearcoatMapUrl : option string.
Variable config : PrintConfig.
Variable isPaperPreview : bool.

Definition hasVarnish : bool := Js.truthy_string clearcoatMapUrl.

Definition useMaps : bool := negb isPaperPreview || hasVarnish.

Definition clearcoatValue : float :=
  if hasVarnish then 1.0%float
  else if negb isPaperPreview then inkGlossiness config
  else 0.0%float.

(** [config.varnishBump || 0.02] *)
Definition varnishBump_or_default : float :=
  match varnishBump config with
  | Some x => if Js.truthy_number x then x else 0.02%float
  | None => 0.02%float
  end.

(** [metalMap], [roughMap] and [coatMap] are always textures
    ([useTexture(url || cmykUrl)]), so a map property is bound exactly
    when its condition holds; the component reads neither
    [metalnessMapUrl] nor [roughnessMapUrl] in any other place. *)
Definition PrintMesh : Material.t := {|
  Material.metalnessMap := useMaps;
  Material.roughnessMap := useMaps;
  Material.clearcoatMap := hasVarnish;
  Material.bumpMap := hasVarnish;
  Material.bumpScale :=
    if hasVarnish then varnishBump_or_default else 0%float;
  Material.metalness :=
    if negb isPaperPreview && useMaps then 1.0%float else 0.0%float;
  Material.roughness :=
    if useMaps then 1.0%float else paperRoughness config;
  Material.clearcoat := clearcoatValue;
  (* set in [useFrame] *)
  Material.envMapIntensity :=
    if isPaperPreview then (exposure config * 0.2)%float
    else exposure config
|}.
End PrintMesh.

End PrintSimulator.

(** ** utils/exportUtils: the static export

    [generateStandaloneHtml] writes a script; the record below holds the
    properties that script gives to its material.  [urlToBase64] is taken to
    succeed, and returns a data URL, which is a truthy string. *)

Module exportUtils.

Section generateStandaloneHtml.
Variables (metalnessMapUrl roughnessMapUrl clearcoatMapUrl : option string).
Variable config : PrintConfig.
Variable isPaperPreview : bool.

Definition hasVarnish : bool := Js.truthy_string clearcoatMapUrl.

Definition shouldLoadMaps : bool := negb isPaperPreview || hasVarnish.

Definition metalBase64 : bool :=
  shouldLoadMaps && Js.truthy_string metalnessMapUrl.
Definition roughBase64 : bool :=
  shouldLoadMaps && Js.truthy_string roughnessMapUrl.
Definition coatBase64 : bool :=
  hasVarnish && Js.truthy_string clearcoatMapUrl.

(** The text [clearcoatValStr], read back by the script. *)
Definition clearcoatValStr : float :=
  if hasVarnish then 1.0%float
  else if negb isPaperPreview then Js.template_number (inkGlossiness config)
  else 0.0%float.

(** [config.varnishBump] as the script reads it from the embedded
    [JSON.stringify(config)]. *)
Definition script_varnishBump : Js.value :=
  Js.json_roundtrip (Js.of_optional (varnishBump config)).

(** [(coatTex && config.varnishBump) ? config.varnishBump : 0] *)
Definition script_bumpScale : float :=
  if coatBase64 && Js.truthy script_varnishBump then
    match script_varnishBump with
    | Js.Number x => x
    | _ => 0%float
    end
  else 0%float.

Definition generateStandaloneHtml : Material.t := {|
  Material.metalnessMap := metalBase64;
  Material.roughnessMap := roughBase64;
  Material.clearcoatMap := coatBase64;
  Material.bumpMap := coatBase64;
  Material.bumpScale := script_bumpScale;
  Material.metalness :=
    if negb isPaperPreview && Js.truthy_string metalnessMapUrl
    then 1.0%float else 0.0%float;
  Material.roughness :=
    if shouldLoadMaps && Js.truthy_string roughnessMapUrl then 1.0%float
    else Js.template_number (paperRoughness config);
  Material.clearcoat := clearcoatValStr;
  Material.envMapIntensity :=
    Js.template_number
      (if isPaperPreview then (exposure config * 0.2)%float
       else exposure config)
|}.
End generateStandaloneHtml.

End exportUtils.


(** ** utils/textureUtils: the map synthesizer *)

Module textureUtils.

Abbreviation Uint8ClampedArray := (list Z).

(** A store of an integer-valued number into a [Uint8ClampedArray]. *)
Definition clamp8 (z : Z) : Z := Z.max 0 (Z.min 255 z).

(** [a[i] = v]: a store past the end of a typed array is ignored, which is
    what the list insertion does. *)
Definition store (a : Uint8ClampedArray) (i : nat) (v : Z) : Uint8ClampedArray :=
  <[i := v]> a.

(** [255 - a[i]] as it is stored back: a read past the end gives
    [undefined], the difference is then [NaN], stored as 0. *)
Definition inverted (a : Uint8ClampedArray) (i : nat) : Z :=
  match a !! i with
  | Some v => clamp8 (255 - v)
  | None => 0
  end.

(** The values [0, 4, 8, ...] below [len] that the variable of
    [for (let i = 0; i < len; i += 4)] takes, in order. *)
Definition loop_indices (len : nat) : list nat :=
  (fun k => 4 * k)%nat <$> seq 0 (Nat.div (len + 3) 4).

Definition for_step4 {S : Type} (len : nat) (body : nat -> S -> S) (s : S) : S :=
  fold_left (fun s i => body i s) (loop_indices len) s.

(** The body of the two inversion loops. *)
Definition invert_pixel (i : nat) (d : Uint8ClampedArray) : Uint8ClampedArray :=
  let d := store d i (inverted d i) in
  let d := store d (i + 1) (inverted d (i + 1)) in
  store d (i + 2) (inverted d (i + 2)).

Definition invert (d : Uint8ClampedArray) : Uint8ClampedArray :=
  for_step4 (length d) invert_pixel d.

(** A decoded image.  [rasterize w h] is what [getImageData(0, 0, w, h)]
    returns after [drawImage(img, 0, 0, w, h)] on a canvas of [w] by [h]
    pixels: the image scaled to the canvas, four samples of [0, 255] per
    pixel. *)
Record HTMLImageElement := {
  width : nat;
  height : nat;
  rasterize : nat -> nat -> Uint8ClampedArray;
  rasterize_length : forall w h, length (rasterize w h) = (4 * (w * h))%nat;
  rasterize_range : forall w h, Forall (fun v => 0 <= v <= 255) (rasterize w h)
}.

(** What [new ImageData(pixelData, width, height)] put on a canvas
    holds; [toDataURL] encodes it without loss. *)
Record ImageData := {
  data : Uint8ClampedArray;
  data_width : nat;
  data_height : nat
}.

Record TextureMaps := {
  metalnessMap : ImageData;
  roughnessMap : ImageData;
  clearcoatMap : option ImageData
}.

Inductive error :=
| CouldNotGetCanvasContext
| ImageError
| FailedToLoadVarnish
| NoTexturesToProcess.

(** How the promise ends.  [getImageData] and [new ImageData] throw on an
    empty rectangle; the exception leaves the [onload] handler and the
    promise is never settled. *)
Inductive outcome :=
| Resolved (maps : TextureMaps)
| Rejected (e : error)
| Unsettled.

(** The arrays the pixel loop writes. *)
Record buffers := {
  metalnessData : Uint8ClampedArray;
  roughnessData : Uint8ClampedArray;
  clearcoatData : option Uint8ClampedArray
}.

Definition store_pixel (a : Uint8ClampedArray) (i : nat) (v : Z) : Uint8ClampedArray :=
  store (store (store (store a i v) (i + 1) v) (i + 2) v) (i + 3) 255.

Section processTextureMaps.
(** The browser: what loading a source ends in ([None] for [onerror]),
    and whether [getContext('2d')] gives a context. *)
Variable load : string -> option HTMLImageElement.
Variable canvas_context : bool.

Variables (metalRoughness paperRoughness : float).
Variables (targetWidth targetHeight : nat).

Definition metalRoughVal : float :=
  Js.Math_floor (Js.Math_min 1 (Js.Math_max 0 metalRoughness) * 255).
Definition paperRoughVal : float :=
  Js.Math_floor (Js.Math_min 255 (paperRoughness * 255)).
Definition varnishRoughVal : Z := 5.

(** [metalRoughVal + normalizedMask * (paperRoughVal - metalRoughVal)]
    for the sample [r]; [undefined / 255] is [NaN]. *)
Definition roughVal (r : option Z) : float :=
  let normalizedMask :=
    match r with
    | Some r => (Js.of_Z r / 255)%float
    | None => PrimFloat.nan
    end in
  (metalRoughVal + normalizedMask * (paperRoughVal - metalRoughVal))%float.

(** [255 - r] as it is stored. *)
Definition metalVal (r : option Z) : Z :=
  match r with
  | Some r => clamp8 (255 - r)
  | None => 0
  end.

(** [varnishData[i] > 100]; [undefined > 100] is false. *)
Definition above_threshold (v : option Z) : bool :=
  match v with
  | Some v => 100 <? v
  | None => false
  end.

Section pixel_loop.
Variable whiteInkData : Uint8ClampedArray.
Variable varnishData : option Uint8ClampedArray.

(** One turn of the loop over the pixels. *)
Definition pixel (i : nat) (b : buffers) : buffers :=
  let r := whiteInkData !! i in
  let metal := store_pixel (metalnessData b) i (metalVal r) in
  let '(isVarnished, coat) :=
    match varnishData, clearcoatData b with
    | Some vd, Some cd =>
        if above_threshold (vd !! i)
        then (true, Some (store_pixel cd i 255))
        else (false, Some (store_pixel cd i 0))
    | _, cd => (false, cd)
    end in
  let rough :=
    if isVarnished
    then store_pixel (roughnessData b) i varnishRoughVal
    else store_pixel (roughnessData b) i (Js.ToUint8Clamp (roughVal r)) in
  {| metalnessData := metal; roughnessData := rough; clearcoatData := coat |}.

Definition pixel_loop (b : buffers) : buffers :=
  for_step4 (length whiteInkData) pixel b.
End pixel_loop.

(** Step 1 of [runProcessing]: the white-ink samples, inverted, or 255
    everywhere without a white-ink mask. *)
Definition whiteInkData_of (whiteImg : option HTMLImageElement) (w h : nat)
  : Uint8ClampedArray :=
  match whiteImg with
  | Some img => invert (rasterize img w h)
  | None => replicate (w * h * 4) 255
  end.

(** Step 2: the varnish samples, inverted. *)
Definition varnishData_of (varnishImg : option HTMLImageElement) (w h : nat)
  : option Uint8ClampedArray :=
  match varnishImg with
  | Some img => Some (invert (rasterize img w h))
  | None => None
  end.

Definition canvas_width (whiteImg varnishImg : option HTMLImageElement) : nat :=
  match whiteImg, varnishImg with
  | Some img, _ => width img
  | None, Some img => width img
  | None, None => targetWidth
  end.

Definition canvas_height (whiteImg varnishImg : option HTMLImageElement) : nat :=
  match whiteImg, varnishImg with
  | Some img, _ => height img
  | None, Some img => height img
  | None, None => targetHeight
  end.

Definition initial_buffers (whiteInkData : Uint8ClampedArray)
    (varnishImg : option HTMLImageElement) : buffers :=
  {| metalnessData := replicate (length whiteInkData) 0;
     roughnessData := replicate (length whiteInkData) 0;
     clearcoatData :=
       match varnishImg with
       | Some _ => Some (replicate (length whiteInkData) 0)
       | None => None
       end |}.

Definition runProcessing (whiteImg varnishImg : option HTMLImageElement)
  : outcome :=
  let w := canvas_width whiteImg varnishImg in
  let h := canvas_height whiteImg varnishImg in
  if negb canvas_context then Rejected CouldNotGetCanvasContext
  else if ((w =? 0) || (h =? 0))%nat then Unsettled
  else
    let whiteInkData := whiteInkData_of whiteImg w h in
    let varnishData := varnishData_of varnishImg w h in
    let b := pixel_loop whiteInkData varnishData
               (initial_buffers whiteInkData varnishImg) in
    let createMapUrl pixelData :=
      {| data := pixelData; data_width := w; data_height := h |} in
    Resolved {|
      metalnessMap := createMapUrl (metalnessData b);
      roughnessMap := createMapUrl (roughnessData b);
      clearcoatMap := createMapUrl <$> clearcoatData b
    |}.

Definition processTextureMaps (imgSrc varnishSrc : option string) : outcome :=
  if Js.truthy_string imgSrc then
    match load (default EmptyString imgSrc) with
    | Some img =>
        if Js.truthy_string varnishSrc then
          match load (default EmptyString varnishSrc) with
          | Some vImg => runProcessing (Some img) (Some vImg)
          | None => runProcessing (Some img) None
          end
        else runProcessing (Some img) None
    | None => Rejected ImageError
    end
  else if Js.truthy_string varnishSrc then
    match load (default EmptyString varnishSrc) with
    | Some vImg => runProcessing None (Some vImg)
    | None => Rejected FailedToLoadVarnish
    end
  else Rejected NoTexturesToProcess.

End processTextureMaps.

End textureUtils.

(** ** utils/textureUtils, with checked array accesses

    The loops of [runProcessing] once more, with every read and every
    store of a typed array checked against the length of the array: an
    access past the end, which JavaScript answers with [undefined] or
    ignores, ends the run with a fault ([None]). *)

Module Checked.
Import textureUtils.

(** [a[i]] *)
Definition read (a : Uint8ClampedArray) (i : nat) : option Z := a !! i.

(** [a[i] = v] *)
Definition write (a : Uint8ClampedArray) (i : nat) (v : Z)
  : option Uint8ClampedArray :=
  if (i <? length a)%nat then Some (<[i := v]> a) else None.

(** [for (let i = 0; i < len; i += 4) body] *)
Fixpoint for_each {S : Type} (l : list nat) (body : nat -> S -> option S) (s : S)
  : option S :=
  match l with
  | [] => Some s
  | i :: l => s ← body i s; for_each l body s
  end.

Definition for_step4 {S : Type} (len : nat) (body : nat -> S -> option S) (s : S)
  : option S :=
  for_each (loop_indices len) body s.

(** [d[i] = 255 - d[i]] *)
Definition invert_sample (d : Uint8ClampedArray) (i : nat)
  : option Uint8ClampedArray :=
  v ← read d i; write d i (clamp8 (255 - v)).

Definition invert_pixel (i : nat) (d : Uint8ClampedArray)
  : option Uint8ClampedArray :=
  d ← invert_sample d i;
  d ← invert_sample d (i + 1);
  invert_sample d (i + 2).

Definition invert (d : Uint8ClampedArray) : option Uint8ClampedArray :=
  for_step4 (length d) invert_pixel d.

Definition store_pixel (a : Uint8ClampedArray) (i : nat) (v : Z)
  : option Uint8ClampedArray :=
  a ← write a i v;
  a ← write a (i + 1) v;
  a ← write a (i + 2) v;
  write a (i + 3) 255.

Section runProcessing.
Variable canvas_context : bool.
Variables (metalRoughness paperRoughness : float).
Variables (targetWidth targetHeight : nat).

Section pixel_loop.
Variable whiteInkData : Uint8ClampedArray.
Variable varnishData : option Uint8ClampedArray.

(** One turn of the loop over the pixels. *)
Definition pixel (i : nat) (b : buffers) : option buffers :=
  r ← read whiteInkData i;
  metal ← store_pixel (metalnessData b) i (metalVal (Some r));
  '(isVarnished, coat) ←
    match varnishData, clearcoatData b with
    | Some vd, Some cd =>
        v ← read vd i;
        if 100 <? v
        then cd ← store_pixel cd i 255; Some (true, Some cd)
        else cd ← store_pixel cd i 0; Some (false, Some cd)
    | _, cd => Some (false, cd)
    end;
  rough ←
    (if isVarnished : bool
     then store_pixel (roughnessData b) i varnishRoughVal
     else store_pixel (roughnessData b) i
            (Js.ToUint8Clamp (roughVal metalRoughness paperRoughness (Some r))));
  Some {| metalnessData := metal; roughnessData := rough; clearcoatData := coat |}.

Definition pixel_loop (b : buffers) : option buffers :=
  for_step4 (length whiteInkData) pixel b.
End pixel_loop.

(** Steps 1 and 2: the two sample arrays, each drawn on the canvas of [w]
    by [h] pixels, read back and inverted. *)
Definition whiteInkData_of (whiteImg : option HTMLImageElement) (w h : nat)
  : option Uint8ClampedArray :=
  match whiteImg with
  | Some img => invert (rasterize img w h)
  | None => Some (replicate (w * h * 4) 255)
  end.

Definition varnishData_of (varnishImg : option HTMLImageElement) (w h : nat)
  : option (option Uint8ClampedArray) :=
  match varnishImg with
  | Some img => d ← invert (rasterize img w h); Some (Some d)
  | None => Some None
  end.

Definition runProcessing (whiteImg varnishImg : option HTMLImageElement)
  : option outcome :=
  let w := canvas_width targetWidth whiteImg varnishImg in
  let h := canvas_height targetHeight whiteImg varnishImg in
  if negb canvas_context then Some (Rejected CouldNotGetCanvasContext)
  else if ((w =? 0) || (h =? 0))%nat then Some Unsettled
  else
    whiteInkData ← whiteInkData_of whiteImg w h;
    varnishData ← varnishData_of varnishImg w h;
    b ← pixel_loop whiteInkData varnishData
          (initial_buffers whiteInkData varnishImg);
    let createMapUrl pixelData :=
      {| data := pixelData; data_width := w; data_height := h |} in
    Some (Resolved {|
      metalnessMap := createMapUrl (metalnessData b);
      roughnessMap := createMapUrl (roughnessData b);
      clearcoatMap := createMapUrl <$> clearcoatData b
    |}).

End runProcessing.

End Checked.

(** ** App.tsx: the state of the component

    The part of the state that the maps, the preview mode and the busy flag
    live in.  Events are handled one at a time, each asynchronous handler
    running to its end, or for ever when the promise it waits for is never
    settled. *)

Module App.

Record File := { name : string }.

Record state := {
  config : PrintConfig;
  whiteFile : option File;
  whiteUrl : option string;
  varnishUrl : option string;
  metalnessMapUrl : option string;
  roughnessMapUrl : option string;
  clearcoatMapUrl : option string;
  isProcessing : bool;
  isPaperPreview : bool
}.

Definition initial : state := {|
  config := DEFAULT_CONFIG;
  whiteFile := None;
  whiteUrl := None;
  varnishUrl := None;
  metalnessMapUrl := None;
  roughnessMapUrl := None;
  clearcoatMapUrl := None;
  isProcessing := false;
  isPaperPreview := false
|}.

Definition setConfig (c : PrintConfig) (st : state) : state := {|
  config := c;
  whiteFile := whiteFile st;
  whiteUrl := whiteUrl st;
  varnishUrl := varnishUrl st;
  metalnessMapUrl := metalnessMapUrl st;
  roughnessMapUrl := roughnessMapUrl st;
  clearcoatMapUrl := clearcoatMapUrl st;
  isProcessing := isProcessing st;
  isPaperPreview := isPaperPreview st
|}.

(** [setWhiteFile(file); setWhiteUrl(url)] *)
Definition setWhite (file : File) (url : string) (st : state) : state := {|
  config := config st;
  whiteFile := Some file;
  whiteUrl := Some url;
  varnishUrl := varnishUrl st;
  metalnessMapUrl := metalnessMapUrl st;
  roughnessMapUrl := roughnessMapUrl st;
  clearcoatMapUrl := clearcoatMapUrl st;
  isProcessing := isProcessing st;
  isPaperPreview := isPaperPreview st
|}.

Definition setVarnishUrl (url : string) (st : state) : state := {|
  config := config st;
  whiteFile := whiteFile st;
  whiteUrl := whiteUrl st;
  varnishUrl := Some url;
  metalnessMapUrl := metalnessMapUrl st;
  roughnessMapUrl := roughnessMapUrl st;
  clearcoatMapUrl := clearcoatMapUrl st;
  isProcessing := isProcessing st;
  isPaperPreview := isPaperPreview st
|}.

(** [setMetalnessMapUrl(m); setRoughnessMapUrl(r); setClearcoatMapUrl(c)] *)
Definition setMaps (m r c : option string) (st : state) : state := {|
  config := config st;
  whiteFile := whiteFile st;
  whiteUrl := whiteUrl st;
  varnishUrl := varnishUrl st;
  metalnessMapUrl := m;
  roughnessMapUrl := r;
  clearcoatMapUrl := c;
  isProcessing := isProcessing st;
  isPaperPreview := isPaperPreview st
|}.

Definition setIsProcessing (b : bool) (st : state) : state := {|
  config := config st;
  whiteFile := whiteFile st;
  whiteUrl := whiteUrl st;
  varnishUrl := varnishUrl st;
  metalnessMapUrl := metalnessMapUrl st;
  roughnessMapUrl := roughnessMapUrl st;
  clearcoatMapUrl := clearcoatMapUrl st;
  isProcessing := b;
  isPaperPreview := isPaperPreview st
|}.

Definition setIsPaperPreview (b : bool) (st : state) : state := {|
  config := config st;
  whiteFile := whiteFile st;
  whiteUrl := whiteUrl st;
  varnishUrl := varnishUrl st;
  metalnessMapUrl := metalnessMapUrl st;
  roughnessMapUrl := roughnessMapUrl st;
  clearcoatMapUrl := clearcoatMapUrl st;
  isProcessing := isProcessing st;
  isPaperPreview := b
|}.

(** What the user and the timer of the debounced effect do. *)
Inductive event :=
| UploadWhite (file : File)
| UploadVarnish (file : File)
| SetConfig (c : PrintConfig)
| Regenerate
| ClickMetal
| ClickPaper.

Section App.
(** The browser: image loading and the canvas as in [processTextureMaps],
    the URL [URL.createObjectURL] gives a file, and the data URL
    [canvas.toDataURL] gives the pixels put on a canvas. *)
Variable load : string -> option textureUtils.HTMLImageElement.
Variable canvas_context : bool.
Variable createObjectURL : File -> string.
Variable toDataURL : textureUtils.ImageData -> string.

(** The effect that enforces paper mode: [if (!whiteUrl)
    setIsPaperPreview(true)], run after the first render and after each
    render in which [whiteUrl] has changed. *)
Definition enforcePaperMode (st : state) : state :=
  if Js.truthy_string (whiteUrl st) then st else setIsPaperPreview true st.

(** [processTextures]: without a source the three maps are cleared; with
    one, the busy flag is raised, the maps are set when the promise
    resolves and left as they are when it is rejected, and the flag is
    lowered in both cases. *)
Definition processTextures (wUrl vUrl : option string) (st : state) : state :=
  if negb (Js.truthy_string wUrl) && negb (Js.truthy_string vUrl) then
    setMaps None None None st
  else
    let st := setIsProcessing true st in
    match
      textureUtils.processTextureMaps load canvas_context
        (metalRoughness (config st)) (paperRoughness (config st))
        1024 1024 wUrl vUrl
    with
    | textureUtils.Resolved maps =>
        setIsProcessing false
          (setMaps (Some (toDataURL (textureUtils.metalnessMap maps)))
                   (Some (toDataURL (textureUtils.roughnessMap maps)))
                   (toDataURL <$> textureUtils.clearcoatMap maps) st)
    | textureUtils.Rejected _ => setIsProcessing false st
    | textureUtils.Unsettled => st
    end.

Definition handleUploadWhite (file : File) (st : state) : state :=
  let url := createObjectURL file in
  enforcePaperMode (processTextures (Some url) (varnishUrl st) (setWhite file url st)).

Definition handleUploadVarnish (file : File) (st : state) : state :=
  let url := createObjectURL file in
  processTextures (whiteUrl st) (Some url) (setVarnishUrl url st).

(** The debounced effect, when its timer fires. *)
Definition regenerate (st : state) : state :=
  if negb (Js.truthy_string (whiteUrl st)) && negb (Js.truthy_string (varnishUrl st))
  then st
  else processTextures (whiteUrl st) (varnishUrl st) st.

(** [hasWhiteInk] of the controls: [!!(whiteFile?.name || null)]. *)
Definition hasWhiteInk (st : state) : bool :=
  Js.truthy_string (name <$> whiteFile st).

Definition handle (e : event) (st : state) : state :=
  match e with
  | UploadWhite file => handleUploadWhite file st
  | UploadVarnish file => handleUploadVarnish file st
  | SetConfig c => setConfig c st
  | Regenerate => regenerate st
  | ClickMetal => if hasWhiteInk st then setIsPaperPreview false st else st
  | ClickPaper => setIsPaperPreview true st
  end.

(** The state after the first render and a sequence of events. *)
Definition run (events : list event) : state :=
  fold_left (fun st e => handle e st) events (enforcePaperMode initial).

End App.

End App.

(** ** services/geminiService: the image data of the request *)

Module geminiService.

Definition comma : Ascii.ascii := Eval cbv in Ascii.ascii_of_nat 44.

(** [s.split(',')]: the pieces of [s] between its commas; there is always
    at least one piece. *)
Fixpoint split (s : string) : list string :=
  match s with
  | EmptyString => [EmptyString]
  | String c t =>
      if Ascii.eqb c comma then EmptyString :: split t
      else match split t with
           | piece :: pieces => String c piece :: pieces
           | [] => [String c EmptyString]
           end
  end.

(** [base64.split(',')[1]], the [data] of an [inlineData] part; an index
    past the end gives [undefined]. *)
Definition inlineData (base64 : string) : option string :=
  split base64 !! 1%nat.

End geminiService.

(** ** A concrete decoder, for the examples

    An opaque grayscale picture of [iw] by [ih] pixels, scaled to a canvas by
    taking the nearest source pixel. *)

Module Grayscale.
Import textureUtils.

Section picture.
Variables (iw ih : nat) (samples : list Z).

Definition pixel_at (w h k : nat) : Uint8ClampedArray :=
  let x := (k mod w)%nat in
  let y := (k / w)%nat in
  let v := clamp8 (nth ((y * ih / h) * iw + x * iw / w)%nat samples 0) in
  [v; v; v; 255].

Definition pixels (w h : nat) : Uint8ClampedArray :=
  flat_map (pixel_at w h) (seq 0 (w * h)).

Lemma pixels_of_length w h (l : list nat) :
  length (flat_map (pixel_at w h) l) = (4 * length l)%nat.
Proof. induction l as [|k l IH]; simpl; [reflexivity | rewrite IH; lia]. Qed.

Lemma pixels_length w h : length (pixels w h) = (4 * (w * h))%nat.
Proof. unfold pixels. now rewrite pixels_of_length, length_seq. Qed.

Lemma clamp8_range z : 0 <= clamp8 z <= 255.
Proof. unfold clamp8. lia. Qed.

Lemma pixels_range w h : Forall (fun v => 0 <= v <= 255) (pixels w h).
Proof.
  unfold pixels. induction (seq 0 (w * h)) as [|k l IH]; simpl.
  - constructor.
  - pose proof (clamp8_range
      (nth ((k / w * ih / h) * iw + k mod w * iw / w)%nat samples 0)).
    repeat (constructor; [lia |]). exact IH.
Qed.

Definition image : HTMLImageElement := {|
  width := iw;
  height := ih;
  rasterize := pixels;
  rasterize_length := pixels_length;
  rasterize_range := pixels_range
|}.

End picture.
End Grayscale.

(** * Material parameters: viewer and export *)

Section MaterialParameters.

(** The three ways a material record can set its clearcoat. *)
Definition clearcoat_by_map (m : Material.t) : Prop :=
  Material.clearcoatMap m = true /\ Material.clearcoat m = 1.0%float.
Definition clearcoat_by_scalar (m : Material.t) : Prop :=
  Material.clearcoatMap m = false /\ PrimFloat.is_zero (Material.clearcoat m) = false.
Definition clearcoat_zero (m : Material.t) : Prop :=
  Material.clearcoatMap m = false /\ PrimFloat.is_zero (Material.clearcoat m) = true.

Definition exactly_one (P Q R : Prop) : Prop :=
  (P /\ ~ Q /\ ~ R) \/ (~ P /\ Q /\ ~ R) \/ (~ P /\ ~ Q /\ R).

Definition clearcoat_invariant (m : Material.t) : Prop :=
  exactly_one (clearcoat_by_map m) (clearcoat_by_scalar m) (clearcoat_zero m)
  /\ (Material.clearcoatMap m = true -> Material.clearcoat m = 1.0%float).

Lemma clearcoat_invariant_intro (m : Material.t) :
  (Material.clearcoatMap m = true -> Material.clearcoat m = 1.0%float) ->
  clearcoat_invariant m.
Proof.
  intros H. split; [| exact H].
  unfold exactly_one, clearcoat_by_map, clearcoat_by_scalar, clearcoat_zero.
  destruct (Material.clearcoatMap m) eqn:Hmap.
  - left. rewrite (H eq_refl). repeat split; intros [? ?]; discriminate.
  - destruct (PrimFloat.is_zero (Material.clearcoat m)) eqn:Hz.
    + right; right. repeat split; intros [? ?]; discriminate.
    + right; left. repeat split; intros [? ?]; discriminate.
Qed.

(** A configuration whose [varnishBump] field is missing. *)
Definition config_without_varnishBump : PrintConfig := {|
  metalness := 1.0;
  roughness := 0.2;
  metalRoughness := 0.2;
  paperRoughness := 1.0;
  inkGlossiness := 0.0;
  exposure := 1.0;
  toneMappingExposure := Some 0.9%float;
  backgroundColor := "#0d1117";
  varnishBump := None
|}.

(** The slider of the varnish height at its minimum. *)
Definition config_varnishBump_0 : PrintConfig := {|
  metalness := 1.0;
  roughness := 0.2;
  metalRoughness := 0.2;
  paperRoughness := 1.0;
  inkGlossiness := 0.0;
  exposure := 1.0;
  toneMappingExposure := Some 0.9%float;
  backgroundColor := "#0d1117";
  varnishBump := Some 0%float
|}.

Definition some_url : option string := Some "data:image/png;base64,AAAA"%string.

End MaterialParameters.

(** C1, at the failing input.  With a clearcoat map and a configuration
    whose [varnishBump] is missing or 0, the viewer gives the material the
    bump scale 0.02 and the exported scene gives it 0, in either preview
    mode; with the default configuration and no metalness map in metal mode
    the two also disagree on the metalness factor. *)
Theorem C1_viewer_export_diverge :
  (forall paper,
     Material.bumpScale
       (PrintSimulator.PrintMesh some_url config_without_varnishBump paper)
     = 0.02%float
     /\ Material.bumpScale
          (exportUtils.generateStandaloneHtml some_url some_url some_url
             config_without_varnishBump paper)
        = 0%float
     /\ Material.bumpScale
          (PrintSimulator.PrintMesh some_url config_varnishBump_0 paper)
        = 0.02%float
     /\ Material.bumpScale
          (exportUtils.generateStandaloneHtml some_url some_url some_url
             config_varnishBump_0 paper)
        = 0%float)
  /\ Material.metalness (PrintSimulator.PrintMesh None DEFAULT_CONFIG false)
     = 1.0%float
  /\ Material.metalness
       (exportUtils.generateStandaloneHtml None None None DEFAULT_CONFIG false)
     = 0.0%float.
Proof.
  split; [intros [|]; repeat split; vm_compute; reflexivity|].
  split; vm_compute; reflexivity.
Qed.

(** C4.  With a varnish (clearcoat) map, in paper preview and for every
    configuration, the metalness factor is 0 while the clearcoat map is
    bound and the metalness and roughness maps stay bound: always in the
    viewer, and in the export for each of the two maps that exists. *)
Theorem C4_paper_with_varnish (cfg : PrintConfig)
    (metalnessMapUrl roughnessMapUrl clearcoatMapUrl : option string) :
  Js.truthy_string clearcoatMapUrl = true ->
  let viewer := PrintSimulator.PrintMesh clearcoatMapUrl cfg true in
  let export :=
    exportUtils.generateStandaloneHtml
      metalnessMapUrl roughnessMapUrl clearcoatMapUrl cfg true in
  (Material.metalness viewer = 0.0%float
   /\ Material.clearcoatMap viewer = true
   /\ Material.metalnessMap viewer = true
   /\ Material.roughnessMap viewer = true)
  /\ (Material.metalness export = 0.0%float
      /\ Material.clearcoatMap export = true
      /\ Material.metalnessMap export = Js.truthy_string metalnessMapUrl
      /\ Material.roughnessMap export = Js.truthy_string roughnessMapUrl).
Proof.
  intros Hcoat. cbn.
  unfold PrintSimulator.useMaps, PrintSimulator.hasVarnish,
    exportUtils.coatBase64, exportUtils.metalBase64, exportUtils.roughBase64,
    exportUtils.shouldLoadMaps, exportUtils.hasVarnish.
  rewrite Hcoat. cbn. repeat split.
Qed.

Lemma C4_paper_with_varnish_witness :
  Js.truthy_string some_url = true
  /\ Material.metalness (PrintSimulator.PrintMesh some_url DEFAULT_CONFIG true)
     = 0.0%float.
Proof.
  split; [reflexivity|].
  exact (proj1 (proj1
    (C4_paper_with_varnish DEFAULT_CONFIG some_url some_url some_url eq_refl))).
Defined.

(** C5.  Every material record of the viewer and of the export sets its
    clearcoat in exactly one of three ways: by the bound clearcoat map with
    the factor 1.0, by a nonzero factor with no map, or not at all (factor
    zero, no map); the map is never bound together with a factor other than
    1.0. *)
Theorem C5_clearcoat_invariant (cfg : PrintConfig)
    (metalnessMapUrl roughnessMapUrl clearcoatMapUrl : option string)
    (isPaperPreview : bool) :
  clearcoat_invariant
    (PrintSimulator.PrintMesh clearcoatMapUrl cfg isPaperPreview)
  /\ clearcoat_invariant
       (exportUtils.generateStandaloneHtml
          metalnessMapUrl roughnessMapUrl clearcoatMapUrl cfg isPaperPreview).
Proof.
  split; apply clearcoat_invariant_intro; cbn.
  - unfold PrintSimulator.clearcoatValue. now intros ->.
  - unfold exportUtils.coatBase64, exportUtils.clearcoatValStr.
    destruct (exportUtils.hasVarnish clearcoatMapUrl); [reflexivity | discriminate].
Qed.

(** * The loops of the synthesizer *)

Section Loops.
Import textureUtils.
Local Open Scope nat_scope.

Lemma loop_indices_pixels n :
  loop_indices (4 * n) = (fun k => 4 * k) <$> seq 0 n.
Proof.
  unfold loop_indices. f_equal. f_equal.
  replace (4 * n + 3) with (3 + n * 4) by lia.
  rewrite Nat.div_add by lia. reflexivity.
Qed.

(** The loop variable takes exactly the multiples of 4 below the bound. *)
Lemma elem_of_loop_indices i len :
  i ∈ loop_indices len <-> i < len /\ i mod 4 = 0.
Proof.
  unfold loop_indices. rewrite list_elem_of_fmap. split.
  - intros (k & -> & Hk). apply elem_of_seq in Hk.
    split.
    + assert (k <= (len + 3) / 4 - 1) by lia.
      pose proof (Nat.div_mod_eq (len + 3) 4).
      pose proof (Nat.mod_upper_bound (len + 3) 4 ltac:(lia)). lia.
    + rewrite Nat.mul_comm. apply Nat.Div0.mod_mul.
  - intros [Hlt Hmod]. exists (i / 4). split.
    + pose proof (Nat.div_mod_eq i 4). lia.
    + apply elem_of_seq.
      pose proof (Nat.div_mod_eq i 4).
      pose proof (Nat.div_mod_eq (len + 3) 4).
      pose proof (Nat.mod_upper_bound (len + 3) 4 ltac:(lia)). lia.
Qed.

(** A loop body that touches the four samples of its pixel only, each new
    sample being a function of the old one. *)
Section pointwise.
Variable step : nat -> Uint8ClampedArray -> Uint8ClampedArray.
Variable val : nat -> nat -> option Z -> Z.
Hypothesis step_length : forall i a, length (step i a) = length a.
Hypothesis step_other :
  forall i a j, j < i \/ i + 4 <= j -> step i a !! j = a !! j.
Hypothesis step_at :
  forall i a c, c < 4 -> i + c < length a ->
    step i a !! (i + c) = Some (val i c (a !! (i + c))).

Lemma fold_pointwise n (a : Uint8ClampedArray) :
  4 * n <= length a ->
  let r := fold_left (fun a i => step i a) ((fun k => 4 * k) <$> seq 0 n) a in
  length r = length a
  /\ (forall j, 4 * n <= j -> r !! j = a !! j)
  /\ (forall k c, k < n -> c < 4 ->
        r !! (4 * k + c) = Some (val (4 * k) c (a !! (4 * k + c)))).
Proof.
  induction n as [|n IH]; intros Hlen; cbn zeta.
  - simpl. split; [reflexivity|]. split; [reflexivity | intros; lia].
  - rewrite seq_S, fmap_app, fold_left_app. simpl.
    destruct IH as (IHlen & IHrest & IHdone); [lia|].
    set (r := fold_left _ _ a) in *.
    split; [now rewrite step_length|].
    split.
    + intros j Hj. rewrite step_other by lia. apply IHrest. lia.
    + intros k c Hk Hc.
      destruct (decide (k = n)) as [->|Hne].
      * rewrite step_at by lia. now rewrite IHrest by lia.
      * rewrite step_other by lia. apply IHdone; lia.
Qed.

Lemma for_step4_pointwise n (a : Uint8ClampedArray) :
  length a = 4 * n ->
  let r := for_step4 (length a) step a in
  length r = 4 * n
  /\ (forall k c, k < n -> c < 4 ->
        r !! (4 * k + c) = Some (val (4 * k) c (a !! (4 * k + c)))).
Proof.
  intros Hlen. unfold for_step4. rewrite Hlen, loop_indices_pixels.
  destruct (fold_pointwise n a) as (H1 & _ & H3); [lia|].
  split; [now rewrite H1 | exact H3].
Qed.
End pointwise.

(** *** Storing a pixel *)

Lemma store_pixel_length a i v : length (store_pixel a i v) = length a.
Proof. unfold store_pixel, store. now rewrite !length_insert. Qed.

Lemma store_pixel_other a i v j :
  j < i \/ i + 4 <= j -> store_pixel a i v !! j = a !! j.
Proof.
  intros H. unfold store_pixel, store.
  rewrite !list_lookup_insert_ne by lia. reflexivity.
Qed.

Lemma store_pixel_at a i v c :
  c < 4 -> i + c < length a ->
  store_pixel a i v !! (i + c) = Some (if c <? 3 then v else 255%Z).
Proof.
  intros Hc Hlen. unfold store_pixel, store.
  destruct c as [|[|[|[|c]]]]; [..|lia]; cbn [Nat.ltb Nat.leb];
    rewrite ?Nat.add_0_r.
  - rewrite !list_lookup_insert_ne by lia.
    apply list_lookup_insert_eq. lia.
  - rewrite !list_lookup_insert_ne by lia.
    apply list_lookup_insert_eq. rewrite length_insert. lia.
  - rewrite !list_lookup_insert_ne by lia.
    apply list_lookup_insert_eq. rewrite !length_insert. lia.
  - apply list_lookup_insert_eq. rewrite !length_insert. lia.
Qed.

(** *** The inversion loop *)

Definition inverted_sample (c : nat) (old : option Z) : Z :=
  if c <? 3 then
    match old with Some v => clamp8 (255 - v) | None => 0%Z end
  else default 0%Z old.

Lemma invert_pixel_length i d : length (invert_pixel i d) = length d.
Proof. unfold invert_pixel, store. now rewrite !length_insert. Qed.

Lemma invert_pixel_other i d j :
  j < i \/ i + 4 <= j -> invert_pixel i d !! j = d !! j.
Proof.
  intros H. unfold invert_pixel, store.
  rewrite !list_lookup_insert_ne by lia. reflexivity.
Qed.

Lemma invert_pixel_at i d c :
  c < 4 -> i + c < length d ->
  invert_pixel i d !! (i + c) = Some (inverted_sample c (d !! (i + c))).
Proof.
  intros Hc Hlen. unfold invert_pixel, store, inverted_sample, inverted.
  destruct c as [|[|[|[|c]]]]; [..|lia]; cbn [Nat.ltb Nat.leb];
    rewrite ?Nat.add_0_r.
  - rewrite !list_lookup_insert_ne by lia.
    apply list_lookup_insert_eq. lia.
  - rewrite !list_lookup_insert_ne by lia.
    rewrite list_lookup_insert_eq by (rewrite length_insert; lia).
    now rewrite list_lookup_insert_ne by lia.
  - rewrite list_lookup_insert_eq by (rewrite !length_insert; lia).
    now rewrite !list_lookup_insert_ne by lia.
  - rewrite !list_lookup_insert_ne by lia.
    destruct (lookup_lt_is_Some_2 d (i + 3) Hlen) as [v ->]. reflexivity.
Qed.

Lemma invert_spec n (d : Uint8ClampedArray) :
  length d = 4 * n ->
  length (invert d) = 4 * n
  /\ (forall k c, k < n -> c < 4 ->
        invert d !! (4 * k + c)
        = Some (inverted_sample c (d !! (4 * k + c)))).
Proof.
  intros Hlen.
  exact (for_step4_pointwise invert_pixel (fun _ => inverted_sample)
           invert_pixel_length invert_pixel_other invert_pixel_at n d Hlen).
Qed.

End Loops.

(** * The pixel loop, array by array *)

Section PixelLoop.
Import textureUtils.
Local Open Scope nat_scope.

Variables (metalRoughness paperRoughness : float).
Variable whiteInkData : Uint8ClampedArray.
Variable varnishData : option Uint8ClampedArray.

Local Abbreviation pixel :=
  (textureUtils.pixel metalRoughness paperRoughness whiteInkData varnishData).

(** Whether the pixel at [i] passes the varnish test. *)
Definition varnished (i : nat) : bool :=
  match varnishData with
  | Some vd => above_threshold (vd !! i)
  | None => false
  end.

Definition roughness_sample (r : option Z) (isVarnished : bool) : Z :=
  if isVarnished then varnishRoughVal
  else Js.ToUint8Clamp (roughVal metalRoughness paperRoughness r).

Definition clearcoat_sample (isVarnished : bool) : Z :=
  if isVarnished then 255%Z else 0%Z.

(** The clearcoat array exists whenever the varnish samples do. *)
Definition coherent (b : buffers) : Prop :=
  is_Some varnishData -> is_Some (clearcoatData b).

Lemma pixel_metalnessData i b :
  metalnessData (pixel i b)
  = store_pixel (metalnessData b) i (metalVal (whiteInkData !! i)).
Proof.
  unfold textureUtils.pixel.
  destruct varnishData, (clearcoatData b); try reflexivity.
  now destruct (above_threshold _).
Qed.

Lemma pixel_roughnessData i b :
  coherent b ->
  roughnessData (pixel i b)
  = store_pixel (roughnessData b) i
      (roughness_sample (whiteInkData !! i) (varnished i)).
Proof.
  unfold coherent, textureUtils.pixel, varnished, roughness_sample.
  intros Hc. destruct varnishData as [vd|].
  - destruct Hc as [cd ->]; [eauto|].
    now destruct (above_threshold _).
  - now destruct (clearcoatData b).
Qed.

Lemma pixel_clearcoatData i b :
  clearcoatData (pixel i b)
  = match varnishData with
    | Some _ =>
        (fun cd => store_pixel cd i (clearcoat_sample (varnished i)))
          <$> clearcoatData b
    | None => clearcoatData b
    end.
Proof.
  unfold textureUtils.pixel, varnished, clearcoat_sample.
  destruct varnishData as [vd|], (clearcoatData b); try reflexivity.
  now destruct (above_threshold _).
Qed.

Lemma pixel_coherent i b : coherent b -> coherent (pixel i b).
Proof.
  unfold coherent. intros Hc Hv. rewrite pixel_clearcoatData.
  destruct varnishData; [| now destruct Hv].
  destruct (Hc Hv) as [cd ->]. simpl. eauto.
Qed.

Lemma fold_pixel_metalnessData (l : list nat) b :
  metalnessData (fold_left (fun b i => pixel i b) l b)
  = fold_left (fun a i => store_pixel a i (metalVal (whiteInkData !! i)))
      l (metalnessData b).
Proof.
  revert b. induction l as [|i l IH]; intros b; simpl; [reflexivity|].
  now rewrite IH, pixel_metalnessData.
Qed.

Lemma fold_pixel_roughnessData (l : list nat) b :
  coherent b ->
  roughnessData (fold_left (fun b i => pixel i b) l b)
  = fold_left
      (fun a i => store_pixel a i
                    (roughness_sample (whiteInkData !! i) (varnished i)))
      l (roughnessData b).
Proof.
  revert b. induction l as [|i l IH]; intros b Hc; simpl; [reflexivity|].
  rewrite IH by now apply pixel_coherent.
  now rewrite pixel_roughnessData.
Qed.

Lemma fold_pixel_clearcoatData (l : list nat) b vd cd :
  varnishData = Some vd ->
  clearcoatData b = Some cd ->
  clearcoatData (fold_left (fun b i => pixel i b) l b)
  = Some (fold_left
            (fun a i => store_pixel a i (clearcoat_sample (varnished i)))
            l cd).
Proof.
  intros Hvd. revert b cd.
  induction l as [|i l IH]; intros b cd Hcd; simpl; [exact Hcd|].
  apply IH. rewrite pixel_clearcoatData, Hvd, Hcd. reflexivity.
Qed.

Lemma fold_pixel_no_clearcoat (l : list nat) b :
  varnishData = None ->
  clearcoatData (fold_left (fun b i => pixel i b) l b) = clearcoatData b.
Proof.
  intros Hvd. revert b.
  induction l as [|i l IH]; intros b; simpl; [reflexivity|].
  rewrite IH, pixel_clearcoatData, Hvd. reflexivity.
Qed.

(** A loop that stores one pixel per turn. *)
Lemma fold_store_pixel (f : nat -> Z) n (a : Uint8ClampedArray) :
  length a = 4 * n ->
  let r := fold_left (fun a i => store_pixel a i (f i)) (loop_indices (4 * n)) a in
  length r = 4 * n
  /\ (forall k c, k < n -> c < 4 ->
        r !! (4 * k + c) = Some (if c <? 3 then f (4 * k) else 255%Z)).
Proof.
  intros Hlen. rewrite loop_indices_pixels.
  destruct (fold_pointwise
              (fun i a => store_pixel a i (f i))
              (fun i c _ => if c <? 3 then f i else 255%Z)
              (fun i a => store_pixel_length a i (f i))
              (fun i a j => store_pixel_other a i (f i) j)
              (fun i a c => store_pixel_at a i (f i) c)
              n a) as (H1 & _ & H3); [lia|].
  split; [now rewrite H1 | exact H3].
Qed.

End PixelLoop.

(** * What [runProcessing] resolves with *)

Section RunProcessing.
Import textureUtils.
Local Open Scope nat_scope.

Variables (metalRoughness paperRoughness : float).
Variables (targetWidth targetHeight : nat).
Variables (whiteImg varnishImg : option HTMLImageElement).

Let w := canvas_width targetWidth whiteImg varnishImg.
Let h := canvas_height targetHeight whiteImg varnishImg.
Let ink := whiteInkData_of whiteImg w h.
Let vd := varnishData_of varnishImg w h.

Lemma whiteInkData_length : length ink = 4 * (w * h).
Proof.
  subst ink. unfold whiteInkData_of. destruct whiteImg as [img|].
  - apply (invert_spec (w * h)), rasterize_length.
  - rewrite length_replicate. lia.
Qed.

Lemma varnishData_length (v : Uint8ClampedArray) :
  vd = Some v -> length v = 4 * (w * h).
Proof.
  subst vd. unfold varnishData_of. destruct varnishImg as [img|]; [|discriminate].
  intros [= <-]. apply (invert_spec (w * h)), rasterize_length.
Qed.

(** The arrays after the pixel loop. *)
Definition final_buffers : buffers :=
  pixel_loop metalRoughness paperRoughness ink vd (initial_buffers ink varnishImg).

Lemma initial_coherent : coherent vd (initial_buffers ink varnishImg).
Proof.
  subst vd. unfold coherent, initial_buffers, varnishData_of. simpl.
  destruct varnishImg; [eauto | intros [? [=]]].
Qed.

Lemma final_metalnessData :
  length (metalnessData final_buffers) = 4 * (w * h)
  /\ (forall k c, k < w * h -> c < 4 ->
        metalnessData final_buffers !! (4 * k + c)
        = Some (if c <? 3 then metalVal (ink !! (4 * k)) else 255%Z)).
Proof.
  unfold final_buffers, pixel_loop, for_step4.
  rewrite fold_pixel_metalnessData, whiteInkData_length.
  apply fold_store_pixel. unfold initial_buffers. cbn [metalnessData].
  rewrite length_replicate. apply whiteInkData_length.
Qed.

Lemma final_roughnessData :
  length (roughnessData final_buffers) = 4 * (w * h)
  /\ (forall k c, k < w * h -> c < 4 ->
        roughnessData final_buffers !! (4 * k + c)
        = Some (if c <? 3
                then roughness_sample metalRoughness paperRoughness
                       (ink !! (4 * k)) (varnished vd (4 * k))
                else 255%Z)).
Proof.
  unfold final_buffers, pixel_loop, for_step4.
  rewrite fold_pixel_roughnessData by apply initial_coherent.
  rewrite whiteInkData_length.
  apply (fold_store_pixel
           (fun i => roughness_sample metalRoughness paperRoughness
                       (ink !! i) (varnished vd i))).
  unfold initial_buffers. cbn [roughnessData].
  rewrite length_replicate. apply whiteInkData_length.
Qed.

Lemma final_clearcoatData_Some (img : HTMLImageElement) :
  varnishImg = Some img ->
  exists cd,
    clearcoatData final_buffers = Some cd
    /\ length cd = 4 * (w * h)
    /\ (forall k c, k < w * h -> c < 4 ->
          cd !! (4 * k + c)
          = Some (if c <? 3 then clearcoat_sample (varnished vd (4 * k))
                  else 255%Z)).
Proof.
  intros Himg. unfold final_buffers, pixel_loop, for_step4.
  assert (Hvd : vd = Some (invert (rasterize img w h))).
  { subst vd. now rewrite Himg. }
  erewrite fold_pixel_clearcoatData; [| exact Hvd |].
  2:{ unfold initial_buffers. simpl. rewrite Himg. reflexivity. }
  eexists. split; [reflexivity|].
  rewrite whiteInkData_length.
  apply (fold_store_pixel (fun i => clearcoat_sample (varnished vd i))).
  now rewrite length_replicate.
Qed.

Lemma final_clearcoatData_None :
  varnishImg = None -> clearcoatData final_buffers = None.
Proof.
  intros Himg. unfold final_buffers, pixel_loop, for_step4.
  rewrite fold_pixel_no_clearcoat.
  - unfold initial_buffers. simpl. now rewrite Himg.
  - subst vd. now rewrite Himg.
Qed.

(** The promise resolves when there is a canvas context and the canvas is
    not empty. *)
Lemma runProcessing_Resolved :
  w <> 0 -> h <> 0 ->
  runProcessing true metalRoughness paperRoughness targetWidth targetHeight
    whiteImg varnishImg
  = Resolved {|
      metalnessMap :=
        {| data := metalnessData final_buffers;
           data_width := w; data_height := h |};
      roughnessMap :=
        {| data := roughnessData final_buffers;
           data_width := w; data_height := h |};
      clearcoatMap :=
        (fun d => {| data := d; data_width := w; data_height := h |})
          <$> clearcoatData final_buffers
    |}.
Proof.
  intros Hw Hh. unfold runProcessing. simpl.
  fold w h. destruct (Nat.eqb_spec w 0) as [?|_]; [contradiction|].
  destruct (Nat.eqb_spec h 0) as [?|_]; [contradiction|].
  reflexivity.
Qed.

End RunProcessing.

(** * Synthesis: failure, and the end-to-end example *)

Section Synthesis.
Import textureUtils.

(** A source that is given: not [null] and not the empty string. *)
Definition supplied (src : option string) : bool := Js.truthy_string src.

(** A source that is given and that does not load. *)
Definition decode_fails (load : string -> option HTMLImageElement)
    (src : option string) : Prop :=
  supplied src = true /\ load (default EmptyString src) = None.

Definition rejected (o : outcome) : Prop := exists e, o = Rejected e.

(** The red samples of the pixels of an array, in row-major order. *)
Definition samples (a : Uint8ClampedArray) : list Z :=
  (fun i => default 0 (a !! i)) <$> loop_indices (length a).

(** Equal up to one unit of the 0-255 scale. *)
Definition approx (a b : list Z) : Prop :=
  Forall2 (fun x y => Z.abs (x - y) <= 1) a b.

Lemma runProcessing_rejected ctx mr pr tw th wi vi :
  rejected (runProcessing ctx mr pr tw th wi vi) <-> ctx = false.
Proof.
  unfold runProcessing, rejected. destruct ctx; simpl.
  - split; [|discriminate]. intros [e He]. now destruct (_ || _)%nat.
  - split; eauto.
Qed.

Lemma rejected_Rejected e : rejected (Rejected e) <-> True.
Proof. split; [trivial | intros _; now exists e]. Qed.

(** A browser in which the source ["white"] is a 2 by 2 picture whose red
    samples are 0, 0, 255, 255, ["varnish3"] is a 1 by 3 picture, and no
    other source loads. *)
Definition example_load (s : string) : option HTMLImageElement :=
  if String.eqb s "white" then Some (Grayscale.image 2 2 [0; 0; 255; 255])
  else if String.eqb s "varnish3" then Some (Grayscale.image 1 3 [0; 200; 255])
  else None.

End Synthesis.

(** C2, as stated, fails: the white-ink mask loads, the varnish mask that is
    supplied does not, and the call is not rejected. *)
Lemma C2_varnish_failure_not_rejected :
  let load := example_load in
  let img := Some "white"%string in
  let varnish := Some "broken"%string in
  ~ (rejected
       (textureUtils.processTextureMaps load true 0.2 1.0 1024 1024 img varnish)
     <-> (supplied img = false /\ supplied varnish = false)
         \/ decode_fails load img \/ decode_fails load varnish).
Proof.
  intros load img varnish [_ H].
  destruct H as [e He].
  - right; right. split; reflexivity.
  - vm_compute in He. discriminate.
Qed.

(** C2, amended.  The call is rejected exactly when no mask is supplied, the
    white-ink mask is supplied and does not load, the varnish mask is the
    only one supplied and does not load, or there is no canvas context.
    When the white-ink mask loads and the supplied varnish mask does not,
    the call ends as it does without a varnish mask. *)
Theorem C2_rejected_iff (load : string -> option textureUtils.HTMLImageElement)
    (ctx : bool) (mr pr : float) (tw th : nat) (img varnish : option string) :
  (rejected (textureUtils.processTextureMaps load ctx mr pr tw th img varnish)
   <-> (supplied img = false /\ supplied varnish = false)
       \/ decode_fails load img
       \/ (supplied img = false /\ decode_fails load varnish)
       \/ ctx = false)
  /\ (supplied img = true ->
      load (default EmptyString img) <> None ->
      decode_fails load varnish ->
      textureUtils.processTextureMaps load ctx mr pr tw th img varnish
      = textureUtils.processTextureMaps load ctx mr pr tw th img None).
Proof.
  unfold textureUtils.processTextureMaps, decode_fails, supplied. split.
  - destruct (Js.truthy_string img) eqn:Himg;
      [ destruct (load (default EmptyString img)) as [wi|] eqn:Hload;
        [ destruct (Js.truthy_string varnish) eqn:Hv;
          [ destruct (load (default EmptyString varnish)) as [vi|] eqn:Hlv |]
        |]
      | destruct (Js.truthy_string varnish) eqn:Hv;
        [ destruct (load (default EmptyString varnish)) as [vi|] eqn:Hlv |] ];
      rewrite ?runProcessing_rejected, ?rejected_Rejected;
      intuition (discriminate || congruence).
  - intros -> Hload [-> Hv]. rewrite Hv.
    destruct (load (default EmptyString img)); [reflexivity | contradiction].
Qed.

Lemma C2_rejected_iff_witness :
  let run v :=
    textureUtils.processTextureMaps example_load true 0.2 1.0 1024 1024
      (Some "white"%string) v in
  decode_fails example_load (Some "broken"%string)
  /\ run (Some "broken"%string) = run None.
Proof.
  assert (Hfail : decode_fails example_load (Some "broken"%string))
    by (split; reflexivity).
  split; [exact Hfail|].
  apply (proj2 (C2_rejected_iff example_load true 0.2 1.0 1024 1024
                  (Some "white"%string) (Some "broken"%string)));
    [reflexivity | discriminate | exact Hfail].
Defined.

(** C3, as stated, fails: for that mask the roughness samples are
    255, 255, 51, 51, which is not within a unit of 51, 51, 255, 255. *)
Lemma C3_roughness_not_as_stated :
  ~ (exists maps,
       textureUtils.processTextureMaps example_load true 0.2 1.0 1024 1024
         (Some "white"%string) None
       = textureUtils.Resolved maps
       /\ samples (textureUtils.data (textureUtils.metalnessMap maps))
          = [0; 0; 255; 255]
       /\ approx (samples (textureUtils.data (textureUtils.roughnessMap maps)))
            [51; 51; 255; 255]).
Proof.
  intros (maps & Hrun & _ & Happrox).
  vm_compute in Hrun. injection Hrun as <-.
  vm_compute in Happrox. inversion Happrox as [|? ? ? ? Hhead _]; subst.
  apply Hhead. reflexivity.
Qed.

(** C3, amended.  For a white-ink mask of 2 by 2 pixels whose raw red
    samples are 0, 0, 255, 255 in row-major order, without a varnish mask
    and with [metalRoughness = 0.2] and [paperRoughness = 1.0], synthesis
    resolves with the metalness samples 0, 0, 255, 255 and the roughness
    samples 255, 255, 51, 51. *)
Theorem C3_end_to_end (load : string -> option textureUtils.HTMLImageElement)
    (tw th : nat) (src : string) (img : textureUtils.HTMLImageElement) :
  supplied (Some src) = true ->
  load src = Some img ->
  textureUtils.width img = 2%nat ->
  textureUtils.height img = 2%nat ->
  samples (textureUtils.rasterize img 2 2) = [0; 0; 255; 255] ->
  exists maps,
    textureUtils.processTextureMaps load true 0.2 1.0 tw th (Some src) None
    = textureUtils.Resolved maps
    /\ samples (textureUtils.data (textureUtils.metalnessMap maps))
       = [0; 0; 255; 255]
    /\ samples (textureUtils.data (textureUtils.roughnessMap maps))
       = [255; 255; 51; 51].
Proof.
  intros Hsrc Hload Hw Hh Hraw.
  unfold textureUtils.processTextureMaps. unfold supplied in Hsrc.
  rewrite Hsrc. simpl default. rewrite Hload. simpl.
  unfold textureUtils.runProcessing. simpl. rewrite Hw, Hh. simpl.
  pose proof (textureUtils.rasterize_length img 2 2) as Hlen.
  destruct (textureUtils.rasterize img 2 2) as [|r0 l]; [discriminate|].
  do 15 (destruct l as [|? l]; [discriminate|]).
  destruct l; [|discriminate].
  vm_compute in Hraw. injection Hraw as -> -> -> ->.
  eexists. split; [reflexivity|]. split; vm_compute; reflexivity.
Qed.

Lemma C3_end_to_end_witness :
  exists maps,
    textureUtils.processTextureMaps example_load true 0.2 1.0 1024 1024
      (Some "white"%string) None
    = textureUtils.Resolved maps
    /\ samples (textureUtils.data (textureUtils.metalnessMap maps))
       = [0; 0; 255; 255]
    /\ samples (textureUtils.data (textureUtils.roughnessMap maps))
       = [255; 255; 51; 51].
Proof.
  apply (C3_end_to_end example_load 1024 1024 "white"
           (Grayscale.image 2 2 [0; 0; 255; 255]));
    reflexivity.
Defined.

(** * Pixel-level properties of the maps *)

Section Maps.
Import textureUtils.
Local Open Scope nat_scope.

(** The image a source ends as: none when the source is not supplied or
    does not load. *)
Definition loaded (load : string -> option HTMLImageElement)
    (src : option string) : option HTMLImageElement :=
  if supplied src then load (default EmptyString src) else None.

(** A call that resolves has run [runProcessing] on the images that
    loaded. *)
Lemma processTextureMaps_Resolved load ctx mr pr tw th img varnish maps :
  processTextureMaps load ctx mr pr tw th img varnish = Resolved maps ->
  runProcessing ctx mr pr tw th (loaded load img) (loaded load varnish)
  = Resolved maps.
Proof.
  unfold processTextureMaps, loaded, supplied.
  destruct (Js.truthy_string img);
    [destruct (load (default EmptyString img)); [|discriminate]|];
    (destruct (Js.truthy_string varnish);
     [destruct (load (default EmptyString varnish))|]);
    solve [trivial | discriminate].
Qed.

(** A run that resolves returns the arrays of the pixel loop. *)
Lemma runProcessing_inv ctx mr pr tw th wi vi maps :
  runProcessing ctx mr pr tw th wi vi = Resolved maps ->
  let w := canvas_width tw wi vi in
  let h := canvas_height th wi vi in
  let b := final_buffers mr pr tw th wi vi in
  data (metalnessMap maps) = metalnessData b
  /\ data (roughnessMap maps) = roughnessData b
  /\ (data <$> clearcoatMap maps) = clearcoatData b
  /\ data_width (metalnessMap maps) = w
  /\ data_height (metalnessMap maps) = h.
Proof.
  unfold runProcessing. destruct ctx; [|discriminate]. simpl.
  destruct (_ || _)%nat; [discriminate|].
  intros [= <-]. simpl. repeat split.
  unfold final_buffers. now destruct (clearcoatData _).
Qed.

Lemma clamp8_id z : (0 <= z <= 255)%Z -> clamp8 z = z.
Proof. unfold clamp8. lia. Qed.

(** The inverted samples of an image: [255 - v] on the colour channels. *)
Lemma invert_rasterize (img : HTMLImageElement) w h k c :
  k < w * h -> c < 3 ->
  exists v,
    rasterize img w h !! (4 * k + c) = Some v
    /\ (0 <= v <= 255)%Z
    /\ invert (rasterize img w h) !! (4 * k + c) = Some (255 - v)%Z.
Proof.
  intros Hk Hc.
  destruct (invert_spec (w * h) (rasterize img w h) (rasterize_length img w h))
    as [_ Hinv].
  destruct (lookup_lt_is_Some_2 (rasterize img w h) (4 * k + c)) as [v Hv].
  { rewrite rasterize_length. lia. }
  assert (Hrange : (0 <= v <= 255)%Z).
  { pose proof (rasterize_range img w h) as HF.
    rewrite Forall_lookup in HF. exact (HF _ _ Hv). }
  exists v. split; [exact Hv|]. split; [exact Hrange|].
  rewrite Hinv by lia. rewrite Hv. unfold inverted_sample.
  destruct (Nat.ltb_spec c 3); [|lia].
  now rewrite clamp8_id by lia.
Qed.

(** The red sample of the (inverted) white-ink data lies in [0, 255]. *)
Lemma whiteInkData_red tw th wi vi k :
  let w := canvas_width tw wi vi in
  let h := canvas_height th wi vi in
  k < w * h ->
  exists r, whiteInkData_of wi w h !! (4 * k) = Some r /\ (0 <= r <= 255)%Z.
Proof.
  intros w h Hk. unfold whiteInkData_of. destruct wi as [img|].
  - destruct (invert_rasterize img w h k 0 Hk) as (v & _ & Hv & Hinv); [lia|].
    rewrite Nat.add_0_r in Hinv. exists (255 - v)%Z. split; [exact Hinv | lia].
  - exists 255%Z. split; [|lia]. apply lookup_replicate_2. lia.
Qed.

End Maps.

(** C6.  When a varnish mask exists, the clearcoat map exists and, at every
    pixel, its three colour samples are 255 if the inverted varnish sample
    is above 100 and 0 otherwise (its alpha sample is 255); no value other
    than 0 and 255 occurs in the map. *)
Theorem C6_clearcoat_threshold
    (load : string -> option textureUtils.HTMLImageElement) (ctx : bool)
    (mr pr : float) (tw th : nat) (img varnish : option string)
    (vImg : textureUtils.HTMLImageElement) (maps : textureUtils.TextureMaps) :
  textureUtils.processTextureMaps load ctx mr pr tw th img varnish
  = textureUtils.Resolved maps ->
  loaded load varnish = Some vImg ->
  let w := textureUtils.canvas_width tw (loaded load img) (Some vImg) in
  let h := textureUtils.canvas_height th (loaded load img) (Some vImg) in
  let varnishData := textureUtils.invert (textureUtils.rasterize vImg w h) in
  exists coat,
    textureUtils.clearcoatMap maps = Some coat
    /\ length (textureUtils.data coat) = (4 * (w * h))%nat
    /\ (forall k, (k < w * h)%nat ->
          exists v,
            varnishData !! (4 * k)%nat = Some v
            /\ (forall c, (c < 3)%nat ->
                  textureUtils.data coat !! (4 * k + c)%nat
                  = Some (if 100 <? v then 255 else 0))
            /\ textureUtils.data coat !! (4 * k + 3)%nat = Some 255)
    /\ Forall (fun x => x = 0 \/ x = 255) (textureUtils.data coat).
Proof.
  intros Hres Hv w h varnishData.
  apply processTextureMaps_Resolved in Hres. rewrite Hv in Hres.
  apply runProcessing_inv in Hres. destruct Hres as (_ & _ & Hcoat & _).
  destruct (final_clearcoatData_Some mr pr tw th (loaded load img) (Some vImg)
              vImg eq_refl) as (cd & Hcd & Hlen & Hat).
  rewrite Hcd in Hcoat.
  destruct (textureUtils.clearcoatMap maps) as [coat|]; [|discriminate].
  injection Hcoat as Hcoat. exists coat. rewrite Hcoat.
  fold w h in Hlen, Hat. simpl textureUtils.varnishData_of in Hat.
  fold varnishData in Hat.
  split; [reflexivity|]. split; [exact Hlen|]. split.
  - intros k Hk.
    destruct (invert_rasterize vImg w h k 0 Hk) as (v0 & _ & _ & Hv0); [lia|].
    rewrite Nat.add_0_r in Hv0. fold varnishData in Hv0.
    exists (255 - v0). split; [exact Hv0|].
    assert (Hsample : clearcoat_sample (varnished (Some varnishData) (4 * k))
                      = if 100 <? 255 - v0 then 255 else 0).
    { unfold varnished, clearcoat_sample, textureUtils.above_threshold.
      now rewrite Hv0. }
    split.
    + intros c Hc. rewrite Hat by lia.
      destruct (Nat.ltb_spec c 3); [|lia]. now rewrite Hsample.
    + rewrite Hat by lia. reflexivity.
  - apply Forall_lookup. intros j x Hj.
    assert (Hlt : (j < 4 * (w * h))%nat).
    { rewrite <- Hlen. eapply lookup_lt_Some, Hj. }
    pose proof (Nat.div_mod_eq j 4) as Hdm.
    pose proof (Nat.mod_upper_bound j 4 ltac:(lia)) as Hm.
    remember (j / 4)%nat as q eqn:Hq. remember (j mod 4)%nat as c eqn:Hc.
    rewrite Hdm, Hat in Hj by lia.
    assert (Hx : x = if (c <? 3)%nat
                     then clearcoat_sample (varnished (Some varnishData) (4 * q))
                     else 255) by congruence.
    rewrite Hx. destruct (c <? 3)%nat; [|now right].
    unfold clearcoat_sample. destruct (varnished _ _); [now right | now left].
Qed.

Lemma C6_clearcoat_threshold_witness :
  exists maps coat,
    textureUtils.processTextureMaps example_load true 0.2 1.0 1024 1024
      (Some "white"%string) (Some "varnish3"%string)
    = textureUtils.Resolved maps
    /\ textureUtils.clearcoatMap maps = Some coat
    /\ Forall (fun x => x = 0 \/ x = 255) (textureUtils.data coat).
Proof.
  eexists.
  destruct (C6_clearcoat_threshold example_load true 0.2 1.0 1024 1024
              (Some "white"%string) (Some "varnish3"%string)
              (Grayscale.image 1 3 [0; 200; 255]) _ eq_refl eq_refl)
    as (coat & Hcoat & _ & _ & Hall).
  exists coat. split; [reflexivity|]. split; [exact Hcoat | exact Hall].
Defined.

(** C7.  Whatever the masks and the roughness scalars, at every pixel of a
    resolved run the metalness sample and the white-ink sample after the
    inversion (255 everywhere without a white-ink mask) add up to 255, on
    each colour channel of the metalness map. *)
Theorem C7_metalness_complement
    (load : string -> option textureUtils.HTMLImageElement) (ctx : bool)
    (mr pr : float) (tw th : nat) (img varnish : option string)
    (maps : textureUtils.TextureMaps) :
  textureUtils.processTextureMaps load ctx mr pr tw th img varnish
  = textureUtils.Resolved maps ->
  let w := textureUtils.canvas_width tw (loaded load img) (loaded load varnish) in
  let h := textureUtils.canvas_height th (loaded load img) (loaded load varnish) in
  let whiteInkData := textureUtils.whiteInkData_of (loaded load img) w h in
  length (textureUtils.data (textureUtils.metalnessMap maps)) = (4 * (w * h))%nat
  /\ forall k, (k < w * h)%nat ->
       exists inkSample metalnessSample,
         whiteInkData !! (4 * k)%nat = Some inkSample
         /\ (forall c, (c < 3)%nat ->
               textureUtils.data (textureUtils.metalnessMap maps) !! (4 * k + c)%nat
               = Some metalnessSample)
         /\ metalnessSample + inkSample = 255.
Proof.
  intros Hres w h ink.
  apply processTextureMaps_Resolved, runProcessing_inv in Hres.
  destruct Hres as (Hmetal & _). rewrite Hmetal.
  destruct (final_metalnessData mr pr tw th (loaded load img) (loaded load varnish))
    as [Hlen Hat].
  fold w h in Hlen, Hat. fold ink in Hat.
  split; [exact Hlen|].
  intros k Hk.
  destruct (whiteInkData_red tw th (loaded load img) (loaded load varnish) k Hk)
    as (r & Hr & Hrange).
  fold w h ink in Hr.
  exists r, (255 - r). split; [exact Hr|]. split; [|lia].
  intros c Hc. rewrite Hat by lia. rewrite Hr.
  destruct (Nat.ltb_spec c 3); [|lia].
  simpl. now rewrite clamp8_id by lia.
Qed.

Lemma C7_metalness_complement_witness :
  exists maps,
    textureUtils.processTextureMaps example_load true 0.2 1.0 1024 1024
      (Some "white"%string) (Some "varnish3"%string)
    = textureUtils.Resolved maps
    /\ length (textureUtils.data (textureUtils.metalnessMap maps)) = 16%nat.
Proof.
  eexists. split; [reflexivity|].
  exact (proj1 (C7_metalness_complement example_load true 0.2 1.0 1024 1024
                  (Some "white"%string) (Some "varnish3"%string) _ eq_refl)).
Defined.

(** * A run with checked accesses never faults *)

Section CheckedAccesses.
Import textureUtils.
Local Open Scope nat_scope.

Lemma write_in_range (a : Uint8ClampedArray) i v :
  i < length a -> Checked.write a i v = Some (store a i v).
Proof.
  intros Hi. unfold Checked.write, store.
  destruct (Nat.ltb_spec i (length a)); [reflexivity | lia].
Qed.

Lemma write_out_of_range (a : Uint8ClampedArray) i v :
  length a <= i -> Checked.write a i v = None.
Proof.
  intros Hi. unfold Checked.write.
  destruct (Nat.ltb_spec i (length a)); [lia | reflexivity].
Qed.

Lemma invert_sample_in_range (d : Uint8ClampedArray) i :
  i < length d -> Checked.invert_sample d i = Some (store d i (inverted d i)).
Proof.
  intros Hi. unfold Checked.invert_sample, Checked.read, inverted.
  destruct (lookup_lt_is_Some_2 d i Hi) as [v ->]. simpl.
  now apply write_in_range.
Qed.

Lemma invert_pixel_in_range (d : Uint8ClampedArray) i :
  i + 2 < length d -> Checked.invert_pixel i d = Some (invert_pixel i d).
Proof.
  intros Hi. unfold Checked.invert_pixel, invert_pixel.
  rewrite invert_sample_in_range by lia. simpl.
  rewrite invert_sample_in_range by (unfold store; rewrite length_insert; lia).
  simpl.
  rewrite invert_sample_in_range by (unfold store; rewrite !length_insert; lia).
  reflexivity.
Qed.

Lemma store_pixel_in_range (a : Uint8ClampedArray) i v :
  i + 3 < length a -> Checked.store_pixel a i v = Some (store_pixel a i v).
Proof.
  intros Hi. unfold Checked.store_pixel, store_pixel.
  rewrite write_in_range by lia. simpl.
  rewrite write_in_range by (unfold store; rewrite length_insert; lia). simpl.
  rewrite write_in_range by (unfold store; rewrite !length_insert; lia). simpl.
  rewrite write_in_range by (unfold store; rewrite !length_insert; lia).
  reflexivity.
Qed.

(** A checked loop whose turns never fault, on states that satisfy an
    invariant, is the loop. *)
Lemma for_each_in_range {S : Type} (I : S -> Prop)
    (bodyM : nat -> S -> option S) (body : nat -> S -> S) (l : list nat) :
  (forall i s, i ∈ l -> I s -> bodyM i s = Some (body i s) /\ I (body i s)) ->
  forall s, I s ->
    Checked.for_each l bodyM s = Some (fold_left (fun s i => body i s) l s)
    /\ I (fold_left (fun s i => body i s) l s).
Proof.
  induction l as [|i l IH]; intros Hstep s Hs; [now split|].
  destruct (Hstep i s ltac:(left) Hs) as [Hi HI].
  cbn [Checked.for_each fold_left]. rewrite Hi. simpl.
  apply IH; [|exact HI].
  intros j s' Hj. apply Hstep. now right.
Qed.

Lemma loop_index_in_range n i :
  i ∈ loop_indices (4 * n) -> i + 3 < 4 * n.
Proof.
  intros Hi. apply elem_of_loop_indices in Hi. destruct Hi as [Hlt Hmod].
  pose proof (Nat.div_mod_eq i 4). lia.
Qed.

Lemma invert_in_range n (d : Uint8ClampedArray) :
  length d = 4 * n -> Checked.invert d = Some (invert d).
Proof.
  intros Hlen. unfold Checked.invert, Checked.for_step4, invert, for_step4.
  rewrite Hlen.
  apply (for_each_in_range (fun d => length d = 4 * n)); [|exact Hlen].
  intros i s Hi Hs. apply loop_index_in_range in Hi. split.
  - apply invert_pixel_in_range. lia.
  - now rewrite invert_pixel_length.
Qed.

(** What the pixel loop keeps: every array has four samples per pixel. *)
Definition sized (n : nat) (varnishData : option Uint8ClampedArray) (b : buffers)
  : Prop :=
  length (metalnessData b) = 4 * n
  /\ length (roughnessData b) = 4 * n
  /\ match varnishData with
     | Some vd =>
         length vd = 4 * n
         /\ exists cd, clearcoatData b = Some cd /\ length cd = 4 * n
     | None => True
     end.

Lemma pixel_in_range mr pr n (whiteInkData : Uint8ClampedArray) varnishData i b :
  length whiteInkData = 4 * n ->
  i + 3 < 4 * n ->
  sized n varnishData b ->
  Checked.pixel mr pr whiteInkData varnishData i b
  = Some (pixel mr pr whiteInkData varnishData i b)
  /\ sized n varnishData (pixel mr pr whiteInkData varnishData i b).
Proof.
  intros Hink Hi (Hm & Hr & Hv). split.
  - unfold Checked.pixel, pixel, Checked.read.
    destruct (lookup_lt_is_Some_2 whiteInkData i ltac:(lia)) as [r ->]. simpl.
    destruct varnishData as [vd|].
    + destruct Hv as (Hvd & cd & Hcd & Hcdlen). rewrite Hcd.
      destruct (lookup_lt_is_Some_2 vd i ltac:(lia)) as [v Hv]. rewrite Hv. simpl.
      destruct (100 <? v)%Z; simpl;
        repeat (rewrite store_pixel_in_range by lia; simpl); reflexivity.
    + simpl. destruct (clearcoatData b); simpl;
        repeat (rewrite store_pixel_in_range by lia; simpl); reflexivity.
  - unfold sized, pixel. destruct varnishData as [vd|].
    + destruct Hv as (Hvd & cd & Hcd & Hcdlen). rewrite Hcd.
      destruct (above_threshold (vd !! i));
        cbn [metalnessData roughnessData clearcoatData];
        rewrite !store_pixel_length;
        (split; [exact Hm|]); (split; [exact Hr|]); (split; [exact Hvd|]);
        eexists; (split; [reflexivity|]); now rewrite store_pixel_length.
    + cbn [metalnessData roughnessData clearcoatData].
      rewrite !store_pixel_length. auto.
Qed.

Lemma pixel_loop_in_range mr pr n (whiteInkData : Uint8ClampedArray) varnishData b :
  length whiteInkData = 4 * n ->
  sized n varnishData b ->
  Checked.pixel_loop mr pr whiteInkData varnishData b
  = Some (pixel_loop mr pr whiteInkData varnishData b).
Proof.
  intros Hink Hb.
  unfold Checked.pixel_loop, Checked.for_step4, pixel_loop, for_step4.
  rewrite Hink.
  apply (for_each_in_range (sized n varnishData)); [|exact Hb].
  intros i s Hi Hs. apply loop_index_in_range in Hi.
  now apply (pixel_in_range mr pr n).
Qed.

(** With checked accesses a run ends as [runProcessing] does, whatever the
    images and their sizes. *)
Lemma runProcessing_in_range ctx mr pr tw th wi vi :
  Checked.runProcessing ctx mr pr tw th wi vi
  = Some (runProcessing ctx mr pr tw th wi vi).
Proof.
  unfold Checked.runProcessing, runProcessing.
  destruct (negb ctx); [reflexivity|].
  set (w := canvas_width tw wi vi). set (h := canvas_height th wi vi).
  destruct ((w =? 0) || (h =? 0)); [reflexivity|].
  assert (Hwhite : Checked.whiteInkData_of wi w h = Some (whiteInkData_of wi w h)).
  { unfold Checked.whiteInkData_of, whiteInkData_of. destruct wi as [img|];
      [|reflexivity].
    apply (invert_in_range (w * h)), rasterize_length. }
  assert (Hvarnish : Checked.varnishData_of vi w h = Some (varnishData_of vi w h)).
  { unfold Checked.varnishData_of, varnishData_of. destruct vi as [img|];
      [|reflexivity].
    now rewrite (invert_in_range (w * h)) by apply rasterize_length. }
  rewrite Hwhite, Hvarnish. simpl.
  pose proof (whiteInkData_length tw th wi vi) as Hink. fold w h in Hink.
  rewrite (pixel_loop_in_range mr pr (w * h)); [reflexivity | exact Hink |].
  unfold sized, initial_buffers. cbn [metalnessData roughnessData clearcoatData].
  rewrite !length_replicate, Hink. split; [reflexivity|]. split; [reflexivity|].
  destruct (varnishData_of vi w h) as [vd|] eqn:Hvd; [|exact I].
  split; [exact (varnishData_length tw th wi vi vd Hvd)|].
  destruct vi as [img|]; [|discriminate].
  eexists. split; [reflexivity|]. now rewrite length_replicate.
Qed.

End CheckedAccesses.

Section BothMasks.
Import textureUtils.

(** With both masks loaded, the call is the run on the two images. *)
Lemma processTextureMaps_both load ctx mr pr tw th img varnish whiteImg varnishImg :
  loaded load img = Some whiteImg ->
  loaded load varnish = Some varnishImg ->
  processTextureMaps load ctx mr pr tw th img varnish
  = runProcessing ctx mr pr tw th (Some whiteImg) (Some varnishImg).
Proof.
  unfold loaded, supplied, processTextureMaps.
  destruct (Js.truthy_string img); [|discriminate]. intros ->.
  destruct (Js.truthy_string varnish); [|discriminate]. now intros ->.
Qed.

End BothMasks.

(** C9.  With a white-ink mask and a varnish mask of any two sizes, both
    loaded, the run with every array access checked does not fault and ends
    as the call does: no read and no store of the inversion loops and of
    the pixel loop is out of range.  The two sample arrays are drawn at the
    size of the white-ink image and have four samples per pixel of that
    size, so every index of the loops is within both.  When the call
    resolves, the three maps have that size too, and pixel [k] of the
    metalness map and of the clearcoat map come from pixel [k] of the
    white-ink image and of the varnish image as drawn at that one size. *)
Theorem C9_no_out_of_bounds
    (load : string -> option textureUtils.HTMLImageElement) (ctx : bool)
    (mr pr : float) (tw th : nat) (img varnish : option string)
    (whiteImg varnishImg : textureUtils.HTMLImageElement) :
  loaded load img = Some whiteImg ->
  loaded load varnish = Some varnishImg ->
  let w := textureUtils.width whiteImg in
  let h := textureUtils.height whiteImg in
  let out := textureUtils.processTextureMaps load ctx mr pr tw th img varnish in
  Checked.runProcessing ctx mr pr tw th (Some whiteImg) (Some varnishImg)
  = Some out
  /\ (exists whiteInkData varnishData,
        Checked.whiteInkData_of (Some whiteImg) w h = Some whiteInkData
        /\ Checked.varnishData_of (Some varnishImg) w h = Some (Some varnishData)
        /\ length whiteInkData = (4 * (w * h))%nat
        /\ length varnishData = length whiteInkData
        /\ forall i, i ∈ textureUtils.loop_indices (length whiteInkData) ->
             (i + 3 < length whiteInkData)%nat
             /\ (i + 3 < length varnishData)%nat)
  /\ forall maps, out = textureUtils.Resolved maps ->
       exists coat,
         textureUtils.clearcoatMap maps = Some coat
         /\ length (textureUtils.data (textureUtils.metalnessMap maps))
            = (4 * (w * h))%nat
         /\ length (textureUtils.data (textureUtils.roughnessMap maps))
            = (4 * (w * h))%nat
         /\ length (textureUtils.data coat) = (4 * (w * h))%nat
         /\ forall k, (k < w * h)%nat ->
              exists whiteSample varnishSample,
                textureUtils.rasterize whiteImg w h !! (4 * k)%nat
                = Some whiteSample
                /\ textureUtils.rasterize varnishImg w h !! (4 * k)%nat
                   = Some varnishSample
                /\ textureUtils.data (textureUtils.metalnessMap maps) !! (4 * k)%nat
                   = Some whiteSample
                /\ textureUtils.data coat !! (4 * k)%nat
                   = Some (if 100 <? 255 - varnishSample then 255 else 0).
Proof.
  intros Hwhite Hvarnish w h out.
  assert (Hout : out = textureUtils.runProcessing ctx mr pr tw th
                         (Some whiteImg) (Some varnishImg))
    by (apply processTextureMaps_both; assumption).
  split; [rewrite Hout; apply runProcessing_in_range|]. split.
  - pose proof (textureUtils.rasterize_length whiteImg w h) as Hwl.
    pose proof (textureUtils.rasterize_length varnishImg w h) as Hvl.
    destruct (invert_spec (w * h) _ Hwl) as [Hwi _].
    destruct (invert_spec (w * h) _ Hvl) as [Hvi _].
    exists (textureUtils.invert (textureUtils.rasterize whiteImg w h)),
           (textureUtils.invert (textureUtils.rasterize varnishImg w h)).
    split; [exact (invert_in_range (w * h) _ Hwl)|].
    split.
    { cbn [Checked.varnishData_of].
      now rewrite (invert_in_range (w * h) _ Hvl). }
    split; [exact Hwi|]. split; [congruence|].
    intros i Hi. rewrite Hwi in Hi. apply loop_index_in_range in Hi. lia.
  - intros maps Hres. rewrite Hout in Hres. apply runProcessing_inv in Hres.
    destruct Hres as (Hm & Hr & Hc & _).
    destruct (final_metalnessData mr pr tw th (Some whiteImg) (Some varnishImg))
      as [Hml Hmat].
    destruct (final_roughnessData mr pr tw th (Some whiteImg) (Some varnishImg))
      as [Hrl _].
    destruct (final_clearcoatData_Some mr pr tw th (Some whiteImg) (Some varnishImg)
                varnishImg eq_refl) as (cd & Hcd & Hcl & Hcat).
    cbn [textureUtils.canvas_width textureUtils.canvas_height] in Hml, Hmat, Hrl, Hcl, Hcat.
    fold w h in Hml, Hmat, Hrl, Hcl, Hcat.
    rewrite Hcd in Hc.
    destruct (textureUtils.clearcoatMap maps) as [coat|]; [|discriminate].
    injection Hc as Hc. exists coat. rewrite Hm, Hr, Hc.
    split; [reflexivity|]. split; [exact Hml|]. split; [exact Hrl|].
    split; [exact Hcl|].
    intros k Hk.
    destruct (invert_rasterize whiteImg w h k 0 Hk ltac:(lia))
      as (ws & Hws & Hwr & Hwinv).
    destruct (invert_rasterize varnishImg w h k 0 Hk ltac:(lia))
      as (vs & Hvs & Hvr & Hvinv).
    rewrite Nat.add_0_r in Hws, Hwinv, Hvs, Hvinv.
    exists ws, vs. split; [exact Hws|]. split; [exact Hvs|].
    pose proof (Hmat k 0%nat Hk ltac:(lia)) as Hm0.
    pose proof (Hcat k 0%nat Hk ltac:(lia)) as Hc0.
    rewrite Nat.add_0_r in Hm0, Hc0. cbn [Nat.ltb Nat.leb] in Hm0, Hc0.
    cbn [textureUtils.whiteInkData_of] in Hm0.
    cbn [textureUtils.varnishData_of] in Hc0.
    rewrite Hwinv in Hm0. unfold varnished in Hc0. rewrite Hvinv in Hc0.
    split.
    + rewrite Hm0. cbn [textureUtils.metalVal].
      rewrite clamp8_id by lia. f_equal. lia.
    + rewrite Hc0. reflexivity.
Qed.

Lemma C9_no_out_of_bounds_witness :
  let whiteImg := Grayscale.image 2 2 [0; 0; 255; 255] in
  let varnishImg := Grayscale.image 1 3 [0; 200; 255] in
  let out :=
    textureUtils.processTextureMaps example_load true 0.2 1.0 1024 1024
      (Some "white"%string) (Some "varnish3"%string) in
  let whiteInkData :=
    textureUtils.invert (textureUtils.rasterize whiteImg 2 2) in
  Checked.runProcessing true 0.2 1.0 1024 1024 (Some whiteImg) (Some varnishImg)
  = Some out
  /\ (exists maps, out = textureUtils.Resolved maps)
  /\ Checked.pixel_loop 0.2 1.0 whiteInkData
       (Some (textureUtils.invert (textureUtils.rasterize varnishImg 1 3)))
       (textureUtils.initial_buffers whiteInkData (Some varnishImg))
     = None.
Proof.
  split.
  - exact (proj1 (C9_no_out_of_bounds example_load true 0.2 1.0 1024 1024
                    (Some "white"%string) (Some "varnish3"%string)
                    (Grayscale.image 2 2 [0; 0; 255; 255])
                    (Grayscale.image 1 3 [0; 200; 255]) eq_refl eq_refl)).
  - split; [eexists; reflexivity | reflexivity].
Defined.

(** * The metalness map and the other inputs *)

Section Metalness.
Import textureUtils.

(** The metalness map of a call, if it resolves. *)
Definition metalness_of (o : outcome) : option ImageData :=
  match o with
  | Resolved maps => Some (metalnessMap maps)
  | _ => None
  end.

(** The metalness array is written from the white-ink samples alone. *)
Lemma final_metalnessData_independent mr pr tw th mr' pr' tw' th' wi vi vi' :
  metalnessData (final_buffers mr pr tw th (Some wi) vi)
  = metalnessData (final_buffers mr' pr' tw' th' (Some wi) vi').
Proof.
  unfold final_buffers, pixel_loop, for_step4.
  rewrite !fold_pixel_metalnessData. reflexivity.
Qed.

Lemma runProcessing_metalness ctx mr pr tw th mr' pr' tw' th' wi vi vi' :
  metalness_of (runProcessing ctx mr pr tw th (Some wi) vi)
  = metalness_of (runProcessing ctx mr' pr' tw' th' (Some wi) vi').
Proof.
  unfold runProcessing. destruct ctx; [|reflexivity]. simpl.
  destruct (_ || _)%nat; [reflexivity|]. simpl. f_equal. f_equal.
  exact (final_metalnessData_independent mr pr tw th mr' pr' tw' th' wi vi vi').
Qed.

End Metalness.

(** C10.  With a white-ink mask supplied, two calls in the same browser that
    differ in the roughness scalars, the varnish mask or the default size
    either both fail to resolve or resolve with the same metalness map,
    sample by sample and in size. *)
Theorem C10_metalness_depends_on_white_only
    (load : string -> option textureUtils.HTMLImageElement) (ctx : bool)
    (img : option string)
    (mr pr : float) (tw th : nat) (varnish : option string)
    (mr' pr' : float) (tw' th' : nat) (varnish' : option string) :
  supplied img = true ->
  metalness_of
    (textureUtils.processTextureMaps load ctx mr pr tw th img varnish)
  = metalness_of
      (textureUtils.processTextureMaps load ctx mr' pr' tw' th' img varnish').
Proof.
  unfold supplied, textureUtils.processTextureMaps. intros ->.
  destruct (load (default EmptyString img)) as [wi|]; [|reflexivity].
  destruct (Js.truthy_string varnish);
    [destruct (load (default EmptyString varnish))|];
    (destruct (Js.truthy_string varnish');
     [destruct (load (default EmptyString varnish'))|]);
    apply runProcessing_metalness.
Qed.

Lemma C10_metalness_depends_on_white_only_witness :
  metalness_of
    (textureUtils.processTextureMaps example_load true 0.2 1.0 1024 1024
       (Some "white"%string) None)
  = metalness_of
      (textureUtils.processTextureMaps example_load true 0.9 0.1 16 16
         (Some "white"%string) (Some "varnish3"%string))
  /\ is_Some
       (metalness_of
          (textureUtils.processTextureMaps example_load true 0.2 1.0 1024 1024
             (Some "white"%string) None)).
Proof.
  split.
  - apply (C10_metalness_depends_on_white_only example_load true
             (Some "white"%string)). reflexivity.
  - eexists. reflexivity.
Defined.

(** * The order of binary64 numbers *)

Section FloatOrder.

(** Comparison of two spec floats by cases; a comparison of two finite
    numbers of one sign is the lexicographic comparison of exponent and
    mantissa. *)
Ltac sf_cases :=
  repeat match goal with
         | x : spec_float |- _ => destruct x as [[|]|[|]| |[|] ? ?]
         end;
  cbn [SFleb SFltb SFeqb SFcompare]; try reflexivity; try discriminate;
  change (Pos.compare_cont Eq) with Pos.compare;
  repeat match goal with
         | |- context [Z.compare ?a ?b] => destruct (Z.compare_spec a b)
         | |- context [Pos.compare ?a ?b] => destruct (Pos.compare_spec a b)
         end;
  cbn [CompOpp]; try reflexivity; try discriminate; try lia.

Lemma SFleb_trans (a b c : spec_float) :
  SFleb a b = true -> SFleb b c = true -> SFleb a c = true.
Proof. sf_cases. Qed.

Lemma SFleb_ltb_trans (a b c : spec_float) :
  SFleb a b = true -> SFltb b c = true -> SFltb a c = true.
Proof. sf_cases. Qed.

Lemma SFltb_leb_trans (a b c : spec_float) :
  SFltb a b = true -> SFleb b c = true -> SFltb a c = true.
Proof. sf_cases. Qed.

Lemma SFleb_not_ltb (a b : spec_float) :
  SFleb a b = true -> SFltb b a = false.
Proof. sf_cases. Qed.

End FloatOrder.

(** * Values of binary64 numbers *)

Section FloatValue.

(** A mantissa of [d] binary digits lies in [[2^(d-1), 2^d)]. *)
Lemma digits2_pos_bounds (p : positive) :
  2 ^ (Zpos (digits2_pos p) - 1) <= Zpos p < 2 ^ Zpos (digits2_pos p).
Proof.
  induction p as [p IH|p IH|]; cbn [digits2_pos].
  - rewrite Pos2Z.inj_succ.
    replace (Z.succ (Zpos (digits2_pos p)) - 1) with (Z.succ (Zpos (digits2_pos p) - 1)) by lia.
    rewrite !Z.pow_succ_r by lia. lia.
  - rewrite Pos2Z.inj_succ.
    replace (Z.succ (Zpos (digits2_pos p)) - 1) with (Z.succ (Zpos (digits2_pos p) - 1)) by lia.
    rewrite !Z.pow_succ_r by lia. lia.
  - simpl. lia.
Qed.

Lemma digits2_pos_le (p : positive) (k : Z) :
  Zpos p < 2 ^ k -> Zpos (digits2_pos p) <= k.
Proof.
  intros H. pose proof (digits2_pos_bounds p) as [Hlo _].
  destruct (Z.le_gt_cases (Zpos (digits2_pos p)) k) as [|Hgt]; [assumption|].
  assert (2 ^ k <= 2 ^ (Zpos (digits2_pos p) - 1)).
  { apply Z.pow_le_mono_r; lia. }
  lia.
Qed.

(** The value of a positive finite number, in units of [2^-1074]. *)
Definition scaled (m : positive) (e : Z) : Z := Zpos m * 2 ^ (e + 1074).

(** What [bounded] says of a mantissa and an exponent of binary64. *)
Lemma bounded_inv (m : positive) (e : Z) :
  bounded prec emax m e = true ->
  -1074 <= e <= 971
  /\ Zpos m < 2 ^ 53
  /\ (-1074 < e -> 2 ^ 52 <= Zpos m).
Proof.
  unfold bounded, canonical_mantissa, fexp, SpecFloat.emin, prec, emax.
  rewrite andb_true_iff, Z.eqb_eq, Z.leb_le. intros [Hc He].
  pose proof (digits2_pos_bounds m) as [Hlo Hhi].
  assert (Hd : Zpos (digits2_pos m) <= 53) by lia.
  split; [lia|]. split.
  - eapply Z.lt_le_trans; [exact Hhi|]. apply Z.pow_le_mono_r; lia.
  - intros Hn. assert (Zpos (digits2_pos m) = 53) as Hd53 by lia.
    rewrite Hd53 in Hlo. exact Hlo.
Qed.

Lemma scaled_lt (m1 m2 : positive) (e1 e2 : Z) :
  bounded prec emax m1 e1 = true ->
  bounded prec emax m2 e2 = true ->
  e1 < e2 -> scaled m1 e1 < scaled m2 e2.
Proof.
  intros H1 H2 Hlt.
  apply bounded_inv in H1, H2.
  destruct H1 as (He1 & Hm1 & _), H2 as (He2 & _ & Hm2).
  specialize (Hm2 ltac:(lia)). unfold scaled.
  assert (Hpow : 2 * 2 ^ (e1 + 1074) <= 2 ^ (e2 + 1074)).
  { rewrite <- Z.pow_succ_r by lia. apply Z.pow_le_mono_r; lia. }
  assert (0 < 2 ^ (e1 + 1074)) by (apply Z.pow_pos_nonneg; lia).
  change (2 ^ 53) with (2 * 2 ^ 52) in Hm1.
  nia.
Qed.

(** On valid positive finite numbers the comparison is that of the
    values. *)
Lemma SFcompare_scaled (m1 m2 : positive) (e1 e2 : Z) :
  bounded prec emax m1 e1 = true ->
  bounded prec emax m2 e2 = true ->
  SFcompare (S754_finite false m1 e1) (S754_finite false m2 e2)
  = Some (scaled m1 e1 ?= scaled m2 e2).
Proof.
  intros H1 H2. cbn [SFcompare]. f_equal.
  destruct (Z.compare_spec e1 e2) as [->|Hlt|Hgt].
  - change (Pos.compare_cont Eq m1 m2) with (Zpos m1 ?= Zpos m2).
    unfold scaled. apply Zmult_compare_compat_r. apply Z.lt_gt.
    apply Z.pow_pos_nonneg; [lia|]. apply bounded_inv in H2. lia.
  - symmetry. apply Z.compare_lt_iff. now apply scaled_lt.
  - symmetry. apply Z.compare_gt_iff. now apply scaled_lt.
Qed.

End FloatValue.

(** * Rounding a number to a [Uint8ClampedArray] sample *)

Section Uint8Clamp.

Ltac case_if :=
  match goal with
  | |- context [if ?c then _ else _] => destruct c eqn:?
  end.

Lemma Prim2SF_0 : Prim2SF 0 = S754_zero false.
Proof. reflexivity. Qed.

Lemma Prim2SF_255 : Prim2SF 255 = S754_finite false 8972014882652160 (-45).
Proof. reflexivity. Qed.

Lemma scaled_255 : scaled 8972014882652160 (-45) = 255 * 2 ^ 1074.
Proof. reflexivity. Qed.

Lemma bounded_255 : bounded prec emax 8972014882652160 (-45) = true.
Proof. reflexivity. Qed.

(** The floor of a positive finite number, from its value. *)
Lemma floorZ_scaled (x : float) (m : positive) (e : Z) :
  Prim2SF x = S754_finite false m e ->
  -1074 <= e ->
  Js.floorZ x = scaled m e / 2 ^ 1074.
Proof.
  intros Hx He. unfold Js.floorZ, scaled. rewrite Hx.
  destruct (Z.le_gt_cases 0 e) as [Hpos|Hneg].
  - rewrite Z.shiftl_mul_pow2 by lia.
    rewrite Z.pow_add_r by lia. rewrite Z.mul_assoc.
    symmetry. apply Z.div_mul. apply Z.pow_nonzero; lia.
  - rewrite Z.shiftl_div_pow2 by lia.
    replace (2 ^ 1074) with (2 ^ (- e) * 2 ^ (e + 1074)).
    + symmetry. apply Z.div_mul_cancel_r; apply Z.pow_nonzero; lia.
    + rewrite <- Z.pow_add_r by lia. f_equal. lia.
Qed.

(** A number strictly between 0 and 255. *)
Definition in_range (x : float) (m : positive) (e : Z) : Prop :=
  Prim2SF x = S754_finite false m e
  /\ bounded prec emax m e = true
  /\ scaled m e < 255 * 2 ^ 1074.

Lemma in_range_intro (x : float) :
  PrimFloat.is_nan x = false ->
  (x <=? 0)%float = false ->
  (255 <=? x)%float = false ->
  exists m e, in_range x m e.
Proof.
  unfold PrimFloat.is_nan. intros Hnan H0 H255.
  rewrite FloatAxioms.eqb_spec in Hnan. rewrite FloatAxioms.leb_spec, Prim2SF_0 in H0.
  rewrite FloatAxioms.leb_spec, Prim2SF_255 in H255.
  pose proof (Prim2SF_valid x) as Hvalid.
  destruct (Prim2SF x) as [[|]|[|]| |[|] m e] eqn:Hx; try discriminate.
  exists m, e. split; [exact Hx|]. split; [exact Hvalid|].
  unfold SFleb in H255.
  rewrite (SFcompare_scaled _ _ _ _ bounded_255 Hvalid), scaled_255 in H255.
  destruct (Z.compare_spec (255 * 2 ^ 1074) (scaled m e)); try discriminate.
  lia.
Qed.

Lemma in_range_floorZ (x : float) (m : positive) (e : Z) :
  in_range x m e ->
  Js.floorZ x = scaled m e / 2 ^ 1074 /\ 0 <= Js.floorZ x <= 254.
Proof.
  intros (Hx & Hb & Hlt).
  pose proof (bounded_inv m e Hb) as (He & _).
  rewrite (floorZ_scaled x m e Hx) by lia.
  split; [reflexivity|].
  assert (0 < 2 ^ 1074) by (apply Z.pow_pos_nonneg; lia).
  assert (0 <= scaled m e).
  { unfold scaled. apply Z.mul_nonneg_nonneg; [lia|]. apply Z.pow_nonneg. lia. }
  split.
  - apply Z.div_pos; lia.
  - assert (scaled m e / 2 ^ 1074 < 255); [|lia].
    apply Z.div_lt_upper_bound; lia.
Qed.

Lemma leb_trans (a b c : float) :
  (a <=? b)%float = true -> (b <=? c)%float = true -> (a <=? c)%float = true.
Proof. rewrite !FloatAxioms.leb_spec. apply SFleb_trans. Qed.

Lemma leb_not_nan_l (a b : float) :
  (a <=? b)%float = true -> PrimFloat.is_nan a = false.
Proof.
  unfold PrimFloat.is_nan. rewrite FloatAxioms.leb_spec, FloatAxioms.eqb_spec. intros H.
  destruct (Prim2SF a) as [[|]|[|]| |[|] m e]; cbn; try reflexivity; try discriminate;
    rewrite Z.compare_refl, Pos.compare_cont_refl; reflexivity.
Qed.

Lemma leb_not_nan_r (a b : float) :
  (a <=? b)%float = true -> PrimFloat.is_nan b = false.
Proof.
  unfold PrimFloat.is_nan. rewrite FloatAxioms.leb_spec, FloatAxioms.eqb_spec. intros H.
  destruct (Prim2SF a) as [[|]|[|]| |[|] ma ea], (Prim2SF b) as [[|]|[|]| |[|] m e];
    cbn; try reflexivity; try discriminate;
    rewrite Z.compare_refl, Pos.compare_cont_refl; reflexivity.
Qed.

(** The sample of a number is within the range of a byte. *)
Lemma ToUint8Clamp_range (x : float) : 0 <= Js.ToUint8Clamp x <= 255.
Proof.
  unfold Js.ToUint8Clamp.
  destruct (PrimFloat.is_nan x) eqn:Hnan; [lia|].
  destruct (x <=? 0)%float eqn:H0; [lia|].
  destruct (255 <=? x)%float eqn:H255; [lia|].
  destruct (in_range_intro x Hnan H0 H255) as (m & e & Hr).
  destruct (in_range_floorZ x m e Hr) as [_ Hf].
  cbv zeta. repeat case_if; lia.
Qed.

(** [ToUint8Clamp] is monotone. *)
Lemma ToUint8Clamp_mono (a b : float) :
  (a <=? b)%float = true -> Js.ToUint8Clamp a <= Js.ToUint8Clamp b.
Proof.
  intros Hab.
  pose proof (ToUint8Clamp_range a) as Ha.
  pose proof (ToUint8Clamp_range b) as Hb.
  pose proof (leb_not_nan_l a b Hab) as Hna.
  pose proof (leb_not_nan_r a b Hab) as Hnb.
  unfold Js.ToUint8Clamp in *. rewrite Hna, Hnb in *.
  destruct (a <=? 0)%float eqn:Ha0; [lia|].
  destruct (b <=? 0)%float eqn:Hb0.
  { rewrite (leb_trans a b 0 Hab Hb0) in Ha0. discriminate. }
  destruct (255 <=? b)%float eqn:Hb255; [lia|].
  destruct (255 <=? a)%float eqn:Ha255.
  { rewrite (leb_trans 255 a b Ha255 Hab) in Hb255. discriminate. }
  destruct (in_range_intro a Hna Ha0 Ha255) as (ma & ea & Hra).
  destruct (in_range_intro b Hnb Hb0 Hb255) as (mb & eb & Hrb).
  destruct (in_range_floorZ a ma ea Hra) as [Hfa _].
  destruct (in_range_floorZ b mb eb Hrb) as [Hfb _].
  assert (Hle : Js.floorZ a <= Js.floorZ b).
  { rewrite Hfa, Hfb. apply Z.div_le_mono; [apply Z.pow_pos_nonneg; lia|].
    destruct Hra as (HA & HbA & _), Hrb as (HB & HbB & _).
    rewrite FloatAxioms.leb_spec, HA, HB in Hab. unfold SFleb in Hab.
    rewrite (SFcompare_scaled _ _ _ _ HbA HbB) in Hab.
    destruct (Z.compare_spec (scaled ma ea) (scaled mb eb)); try discriminate; lia. }
  cbv zeta in *.
  destruct (Z.eq_dec (Js.floorZ a) (Js.floorZ b)) as [Heq|Hne].
  - rewrite <- Heq in *. clear Hfb Hle Heq.
    set (h := (Js.of_Z (Js.floorZ a) + 0.5)%float) in *.
    destruct (a <? h)%float eqn:Hah.
    + repeat case_if; lia.
    + destruct (b <? h)%float eqn:Hbh.
      { rewrite FloatAxioms.leb_spec in Hab. rewrite FloatAxioms.ltb_spec in Hah, Hbh.
        rewrite (SFleb_ltb_trans _ _ _ Hab Hbh) in Hah. discriminate. }
      destruct (h <? a)%float eqn:Hha.
      * rewrite FloatAxioms.leb_spec in Hab. rewrite FloatAxioms.ltb_spec in Hha.
        pose proof (SFltb_leb_trans _ _ _ Hha Hab) as Hhb.
        rewrite <- FloatAxioms.ltb_spec in Hhb. rewrite Hhb. lia.
      * destruct (h <? b)%float; destruct (Z.even (Js.floorZ a)); lia.
  - assert (Js.floorZ a + 1 <= Js.floorZ b) by lia.
    repeat case_if; lia.
Qed.

End Uint8Clamp.

(** * Rounding to nearest, ties to even *)

Section Rounding.

(** [q] is the integer nearest to [W / U], the even one on a tie. *)
Definition is_rne (W U q : Z) : Prop :=
  exists m rem,
    W = m * U + rem /\ 0 <= rem < U /\ 0 <= m
    /\ ((2 * rem < U /\ q = m)
        \/ (U < 2 * rem /\ q = m + 1)
        \/ (2 * rem = U /\ q = if Z.even m then m else m + 1)).

Lemma is_rne_nonneg W U q : is_rne W U q -> 0 <= q.
Proof.
  intros (m & rem & _ & _ & Hm & [[_ ->]|[[_ ->]|[_ ->]]]); try lia.
  destruct (Z.even m); lia.
Qed.

Lemma is_rne_scale W U q c : 0 < c -> is_rne W U q -> is_rne (W * c) (U * c) q.
Proof.
  intros Hc (m & rem & HW & Hrem & Hm & Hq).
  exists m, (rem * c). split; [subst W; ring|].
  split; [nia|]. split; [exact Hm|].
  destruct Hq as [[H ->]|[[H ->]|[H ->]]]; [left|right;left|right;right];
    (split; [nia | reflexivity]).
Qed.

(** Rounding at one unit is monotone. *)
Lemma is_rne_mono W1 W2 U q1 q2 :
  is_rne W1 U q1 -> is_rne W2 U q2 -> W1 <= W2 -> q1 <= q2.
Proof.
  intros (m1 & r1 & HW1 & Hr1 & Hm1 & Hq1) (m2 & r2 & HW2 & Hr2 & Hm2 & Hq2) Hle.
  assert (Hm : m1 <= m2) by nia.
  destruct (Z.eq_dec m1 m2) as [->|Hne].
  - assert (r1 <= r2) by lia.
    destruct Hq1 as [[? ->]|[[? ->]|[? ->]]], Hq2 as [[? ->]|[[? ->]|[? ->]]];
      try destruct (Z.even m2); lia.
  - assert (q1 <= m1 + 1).
    { destruct Hq1 as [[? ->]|[[? ->]|[? ->]]]; try destruct (Z.even m1); lia. }
    assert (m2 <= q2).
    { destruct Hq2 as [[? ->]|[[? ->]|[? ->]]]; try destruct (Z.even m2); lia. }
    lia.
Qed.

(** Rounding does not cross a multiple of the unit. *)
Lemma is_rne_ge W U q K : is_rne W U q -> K * U <= W -> K * U <= q * U.
Proof.
  intros (m & rem & HW & Hrem & Hm & Hq) HK.
  assert (K <= m) by nia.
  assert (m <= q).
  { destruct Hq as [[? ->]|[[? ->]|[? ->]]]; try destruct (Z.even m); lia. }
  nia.
Qed.

Lemma is_rne_le W U q K : is_rne W U q -> W <= K * U -> q * U <= K * U.
Proof.
  intros (m & rem & HW & Hrem & Hm & Hq) HK.
  assert (Hle : m <= K) by nia.
  assert (q <= K); [|nia].
  destruct (Z.eq_dec m K) as [->|Hne].
  - assert (rem = 0) by nia.
    destruct Hq as [[? ->]|[[? ->]|[? ->]]]; lia.
  - destruct Hq as [[? ->]|[[? ->]|[? ->]]]; try destruct (Z.even m); lia.
Qed.

(** ** The right shift of [SpecFloat] *)

(** [mrs] is [P] shifted right by [log2 K] places, with its round and
    sticky bits. *)
Definition shr_inv (P K : Z) (mrs : shr_record) : Prop :=
  exists rem,
    0 <= shr_m mrs /\ P = shr_m mrs * K + rem /\ 0 <= rem < K
    /\ (shr_r mrs = true <-> K <= 2 * rem)
    /\ (shr_s mrs = true <-> rem <> 0 /\ 2 * rem <> K).

Lemma shr_inv_init P : 0 <= P -> shr_inv P 1 (shr_record_of_loc P loc_Exact).
Proof.
  intros HP. exists 0. cbn. repeat split; try lia; try discriminate.
Qed.

Lemma shr_inv_step P K mrs :
  0 < K -> shr_inv P K mrs -> shr_inv P (2 * K) (shr_1 mrs).
Proof.
  intros HK (rem & Hm & HP & Hrem & Hr & Hs).
  destruct mrs as [m r s]. cbn [shr_m shr_r shr_s] in *.
  assert (Hrs : r || s = true <-> rem <> 0).
  { rewrite orb_true_iff. destruct r, s; intuition lia. }
  destruct m as [|[p|p|]|p]; cbn [shr_1 shr_m shr_r shr_s]; try lia.
  - exists rem. cbn [shr_m shr_r shr_s].
    intuition (discriminate || lia).
  - exists (K + rem). cbn [shr_m shr_r shr_s].
    intuition (discriminate || lia).
  - exists rem. cbn [shr_m shr_r shr_s].
    intuition (discriminate || lia).
  - exists (K + rem). cbn [shr_m shr_r shr_s].
    intuition (discriminate || lia).
Qed.

Lemma shr_inv_iter (p : positive) : forall P K mrs,
  0 < K -> shr_inv P K mrs ->
  shr_inv P (K * 2 ^ Zpos p) (SpecFloat.iter_pos shr_1 p mrs).
Proof.
  induction p as [p IH|p IH|]; intros P K mrs HK Hinv; cbn [SpecFloat.iter_pos].
  - replace (K * 2 ^ Zpos p~1) with (2 * K * 2 ^ Zpos p * 2 ^ Zpos p).
    + assert (0 < 2 ^ Zpos p) by (apply Z.pow_pos_nonneg; lia).
      apply IH; [nia|]. apply IH; [lia|]. now apply shr_inv_step.
    + replace (Zpos p~1) with (Zpos p + Zpos p + 1) by lia.
      rewrite !Z.pow_add_r, Z.pow_1_r by lia. ring.
  - replace (K * 2 ^ Zpos p~0) with (K * 2 ^ Zpos p * 2 ^ Zpos p).
    + assert (0 < 2 ^ Zpos p) by (apply Z.pow_pos_nonneg; lia).
      apply IH; [nia|]. now apply IH.
    + replace (Zpos p~0) with (Zpos p + Zpos p) by lia.
      rewrite Z.pow_add_r by lia. ring.
  - change (2 ^ 1) with 2. rewrite Z.mul_comm. now apply shr_inv_step.
Qed.

(** Rounding the shifted mantissa gives the nearest integer. *)
Lemma shr_inv_rne P K mrs :
  shr_inv P K mrs ->
  is_rne P K (round_nearest_even (shr_m mrs) (loc_of_shr_record mrs)).
Proof.
  intros (rem & Hm & HP & Hrem & Hr & Hs).
  destruct mrs as [m r s]. cbn [shr_m shr_r shr_s] in *.
  exists m, rem. split; [exact HP|]. split; [exact Hrem|]. split; [exact Hm|].
  destruct r, s; cbn [loc_of_shr_record round_nearest_even].
  - right; left. intuition lia.
  - right; right. intuition lia.
  - left. intuition lia.
  - left. intuition lia.
Qed.

Lemma fexp_binary64 z : fexp prec emax z = Z.max (z - 53) (-1074).
Proof. reflexivity. Qed.

(** A shift by a positive amount. *)
Lemma shr_fexp_shift (P e0 : Z) :
  0 <= P ->
  let E := Z.max (Zdigits2 P + e0 - 53) (-1074) in
  e0 < E ->
  exists mrs,
    shr_fexp prec emax P e0 loc_Exact = (mrs, E)
    /\ shr_inv P (2 ^ (E - e0)) mrs.
Proof.
  intros HP E Hlt. unfold shr_fexp. rewrite fexp_binary64. fold E.
  destruct (E - e0) as [|sp|sp] eqn:Hn; try lia.
  cbn [shr]. eexists. split.
  - f_equal. lia.
  - replace (2 ^ Zpos sp) with (1 * 2 ^ Zpos sp) by lia.
    apply shr_inv_iter; [lia|]. now apply shr_inv_init.
Qed.

(** No shift when the mantissa already fits. *)
Lemma shr_fexp_fits (q E : Z) :
  -1074 <= E -> Zdigits2 q <= 53 ->
  shr_fexp prec emax q E loc_Exact = (shr_record_of_loc q loc_Exact, E).
Proof.
  intros HE Hd. unfold shr_fexp. rewrite fexp_binary64.
  destruct (Z.max (Zdigits2 q + E - 53) (-1074) - E) as [|sp|sp] eqn:Hn;
    try lia; reflexivity.
Qed.

Lemma shr_fexp_carry (E : Z) :
  -1074 <= E ->
  shr_fexp prec emax (2 ^ 53) E loc_Exact
  = (shr_record_of_loc (2 ^ 52) loc_Exact, E + 1).
Proof.
  intros HE. unfold shr_fexp. rewrite fexp_binary64.
  change (Zdigits2 (2 ^ 53)) with 54.
  replace (Z.max (54 + E - 53) (-1074) - E) with 1 by lia.
  reflexivity.
Qed.

(** The result of rounding a positive mantissa that has to be shifted, well
    below the overflow threshold. *)
Lemma binary_round_aux_shift (p : positive) (e0 : Z) :
  let E := Z.max (Zpos (digits2_pos p) + e0 - 53) (-1074) in
  e0 < E -> E < 0 ->
  exists q,
    is_rne (Zpos p) (2 ^ (E - e0)) q
    /\ ((q = 0
         /\ binary_round_aux prec emax false (Zpos p) e0 loc_Exact
            = S754_zero false)
        \/ (exists q', q = Zpos q' /\ q < 2 ^ 53
             /\ binary_round_aux prec emax false (Zpos p) e0 loc_Exact
                = S754_finite false q' E)
        \/ (q = 2 ^ 53
            /\ binary_round_aux prec emax false (Zpos p) e0 loc_Exact
               = S754_finite false 4503599627370496 (E + 1))).
Proof.
  intros E Hlt Hneg.
  destruct (shr_fexp_shift (Zpos p) e0 ltac:(lia) Hlt) as (mrs & Hshr & Hinv).
  cbn [Zdigits2] in Hshr, Hinv. fold E in Hshr, Hinv.
  pose proof (shr_inv_rne _ _ _ Hinv) as Hrne.
  set (q := round_nearest_even (shr_m mrs) (loc_of_shr_record mrs)) in *.
  exists q. split; [exact Hrne|].
  unfold binary_round_aux. rewrite Hshr. fold q.
  assert (Hq0 : 0 <= q) by (eapply is_rne_nonneg; eauto).
  assert (Hq : q <= 2 ^ 53).
  { destruct Hrne as (m & rem & HP & Hrem & Hm & Hqm).
    pose proof (digits2_pos_bounds p) as [_ Hhi].
    set (d := Zpos (digits2_pos p)) in *.
    assert (Hpow : 2 ^ d <= 2 ^ 53 * 2 ^ (E - e0)).
    { rewrite <- Z.pow_add_r by lia. apply Z.pow_le_mono_r; lia. }
    assert (0 < 2 ^ (E - e0)) by (apply Z.pow_pos_nonneg; lia).
    assert (m < 2 ^ 53).
    { apply (Z.mul_lt_mono_pos_r (2 ^ (E - e0))); lia. }
    destruct Hqm as [[_ ->]|[[_ ->]|[_ ->]]]; try destruct (Z.even m); lia. }
  destruct (Z.eq_dec q (2 ^ 53)) as [Hcarry|Hnocarry].
  - right; right. split; [exact Hcarry|].
    rewrite Hcarry, shr_fexp_carry by lia. cbn [shr_m shr_record_of_loc].
    change (2 ^ 52) with (Zpos 4503599627370496).
    replace (E + 1 <=? emax - prec) with true; [reflexivity|].
    symmetry. apply Z.leb_le. change (emax - prec) with 971. lia.
  - destruct q as [|q'|q'] eqn:Hqeq; [| |lia].
    + left. split; [reflexivity|].
      rewrite shr_fexp_fits by (cbn; lia). reflexivity.
    + right; left. exists q'. split; [reflexivity|]. split; [lia|].
      rewrite shr_fexp_fits; [| lia |].
      * cbn [shr_m shr_record_of_loc].
        replace (E <=? emax - prec) with true; [reflexivity|].
        symmetry. apply Z.leb_le. change (emax - prec) with 971. lia.
      * cbn [Zdigits2]. apply digits2_pos_le. lia.
Qed.

End Rounding.

(** * Multiplication by 255 *)

Section Mul255.

(** [F] is the floor of the binary64 product by 255 of the number whose
    value is [s] units of [2^-1074]; the product is [W] units of [2^-1119],
    lies in the binade of [L], and is rounded at the unit [2^E]. *)
Definition rounds255 (s F : Z) : Prop :=
  exists L E q,
    let W := 255 * 2 ^ 45 * s in
    2 ^ (L - 1 + 1119) <= W < 2 ^ (L + 1119)
    /\ E = Z.max (L - 53) (-1074)
    /\ E <= -45
    /\ is_rne W (2 ^ (E + 1119)) q
    /\ F = q * 2 ^ (E + 1119) / 2 ^ 1119.

Lemma pow2_pos z : 0 <= z -> 0 < 2 ^ z.
Proof. intros. apply Z.pow_pos_nonneg; lia. Qed.

Lemma pow2_lt_inv a b : 0 <= b -> 2 ^ a < 2 ^ b -> a < b.
Proof.
  intros Hb H. destruct (Z.le_gt_cases b a) as [Hle|]; [|assumption].
  pose proof (Z.pow_le_mono_r 2 b a ltac:(lia) Hle). lia.
Qed.

Lemma rounds255_range s F : rounds255 s F -> s <= 2 ^ 1074 -> 0 <= F <= 255.
Proof.
  intros (L & E & q & HW & HE & HE45 & Hrne & ->) Hs. cbv zeta in *.
  pose proof (is_rne_nonneg _ _ _ Hrne) as Hq.
  assert (HU : 0 < 2 ^ (E + 1119)) by (apply pow2_pos; lia).
  assert (HT : 0 < 2 ^ 1119) by (apply pow2_pos; lia).
  split; [apply Z.div_pos; nia|].
  assert (Hmul : 2 ^ 1119 = 2 ^ (- E) * 2 ^ (E + 1119)).
  { rewrite <- Z.pow_add_r by lia. f_equal. lia. }
  assert (HT' : 2 ^ 1119 = 2 ^ 45 * 2 ^ 1074) by (rewrite <- Z.pow_add_r by lia; reflexivity).
  assert (H45 : 0 < 2 ^ 45) by (apply pow2_pos; lia).
  assert (Hle : q * 2 ^ (E + 1119) <= (255 * 2 ^ (- E)) * 2 ^ (E + 1119)).
  { apply (is_rne_le _ _ _ _ Hrne). nia. }
  apply Z.div_le_upper_bound; [lia|]. nia.
Qed.

Lemma rounds255_mono s1 s2 F1 F2 :
  rounds255 s1 F1 -> rounds255 s2 F2 -> s1 <= s2 -> F1 <= F2.
Proof.
  intros (L1 & E1 & q1 & HW1 & HE1 & HE451 & Hrne1 & ->)
         (L2 & E2 & q2 & HW2 & HE2 & HE452 & Hrne2 & ->) Hs.
  cbv zeta in *.
  assert (H45 : 0 < 2 ^ 45) by (apply pow2_pos; lia).
  assert (HW : 255 * 2 ^ 45 * s1 <= 255 * 2 ^ 45 * s2) by nia.
  apply Z.div_le_mono; [apply pow2_pos; lia|].
  assert (HL : L1 <= L2).
  { assert (2 ^ (L1 - 1 + 1119) < 2 ^ (L2 + 1119)) by lia.
    assert (0 <= L2 + 1119).
    { destruct (Z.le_gt_cases 0 (L2 + 1119)); [assumption|].
      rewrite (Z.pow_neg_r 2 (L2 + 1119)) in HW2 by lia.
      pose proof (Z.pow_nonneg 2 (L1 - 1 + 1119) ltac:(lia)). lia. }
    apply pow2_lt_inv in H; lia. }
  destruct (Z.eq_dec E1 E2) as [Heq|Hne].
  - rewrite Heq in *.
    assert (q1 <= q2) by (eapply is_rne_mono; eauto).
    assert (0 < 2 ^ (E2 + 1119)) by (apply pow2_pos; lia).
    nia.
  - assert (HE : E1 < E2) by lia.
    assert (HE2' : E2 = L2 - 53) by lia.
    assert (HL' : L1 <= L2 - 1) by lia.
    set (B := 2 ^ (L2 - 1 + 1119)).
    assert (HB1 : B = 2 ^ (L2 - 1 - E1) * 2 ^ (E1 + 1119)).
    { unfold B. rewrite <- Z.pow_add_r by lia. f_equal. lia. }
    assert (HB2 : B = 2 ^ 52 * 2 ^ (E2 + 1119)).
    { unfold B. rewrite <- Z.pow_add_r by lia. f_equal. lia. }
    assert (Hlow : 255 * 2 ^ 45 * s1 <= B).
    { assert (2 ^ (L1 + 1119) <= B); [|lia].
      unfold B. apply Z.pow_le_mono_r; lia. }
    rewrite HB1 in Hlow. apply (is_rne_le _ _ _ _ Hrne1) in Hlow.
    assert (Hhigh : B <= 255 * 2 ^ 45 * s2) by (unfold B; lia).
    rewrite HB2 in Hhigh. apply (is_rne_ge _ _ _ _ Hrne2) in Hhigh.
    lia.
Qed.

(** The product by 255 of a positive number that is at most 1, and its
    floor. *)
Lemma mul255_floor (x : float) (m : positive) (e : Z) :
  Prim2SF x = S754_finite false m e ->
  bounded prec emax m e = true ->
  scaled m e <= 2 ^ 1074 ->
  exists F,
    rounds255 (scaled m e) F
    /\ Js.Math_floor (x * 255) = Js.of_Z F
    /\ PrimFloat.is_nan (x * 255) = false.
Proof.
  intros Hx Hb Hs.
  pose proof (bounded_inv m e Hb) as (He & Hm53 & Hm52).
  assert (Hmul : Prim2SF (x * 255)
                 = binary_round_aux prec emax false
                     (Zpos (m * 8972014882652160)) (e + -45) loc_Exact).
  { rewrite mul_spec, Hx, Prim2SF_255. reflexivity. }
  set (p := (m * 8972014882652160)%positive) in *.
  set (e0 := e + -45) in *.
  assert (Hp : Zpos p = 255 * 2 ^ 45 * Zpos m)
    by (unfold p; rewrite Pos2Z.inj_mul; change (2 ^ 45) with 35184372088832; lia).
  pose proof (digits2_pos_bounds p) as [Hlo Hhi].
  set (d := Zpos (digits2_pos p)) in *.
  assert (H45 : 0 < 2 ^ 45) by (apply pow2_pos; lia).
  assert (Hc : 0 < 2 ^ (e + 1074)) by (apply pow2_pos; lia).
  assert (Hd1 : 1 <= d) by (unfold d; lia).
  (* the product, in units of 2^-1119 *)
  assert (HW : 2 ^ (d + e0 - 1 + 1119) <= 255 * 2 ^ 45 * scaled m e
               < 2 ^ (d + e0 + 1119)).
  { unfold scaled, e0.
    replace (d + (e + -45) - 1 + 1119) with ((d - 1) + (e + 1074)) by lia.
    replace (d + (e + -45) + 1119) with (d + (e + 1074)) by lia.
    rewrite (Z.pow_add_r 2 (d - 1)), (Z.pow_add_r 2 d) by lia.
    replace (255 * 2 ^ 45 * (Zpos m * 2 ^ (e + 1074)))
      with (Zpos p * 2 ^ (e + 1074)) by (rewrite Hp; ring).
    split; [apply Z.mul_le_mono_nonneg_r | apply Z.mul_lt_mono_pos_r]; lia. }
  assert (HL : d + e0 <= 8).
  { assert (2 ^ (d + e0 - 1 + 1119) < 2 ^ (8 + 1119)).
    { eapply Z.le_lt_trans; [apply HW|].
      replace (8 + 1119) with (8 + 45 + 1074) by lia.
      rewrite !Z.pow_add_r by lia. change (2 ^ 8) with 256. nia. }
    apply pow2_lt_inv in H; lia. }
  set (E := Z.max (d + e0 - 53) (-1074)).
  assert (HE45 : E <= -45) by lia.
  assert (HeE : e0 < E).
  { destruct (Z.eq_dec e (-1074)) as [->|Hne]; [unfold e0; lia|].
    specialize (Hm52 ltac:(lia)).
    assert (2 ^ 104 < 2 ^ d).
    { eapply Z.le_lt_trans; [|exact Hhi]. rewrite Hp.
      change (2 ^ 104) with (128 * 2 ^ 45 * 2 ^ 52). nia. }
    apply pow2_lt_inv in H; lia. }
  destruct (binary_round_aux_shift p e0 HeE ltac:(lia)) as (q & Hrne & Hres).
  fold d E in Hrne, Hres.
  assert (Hrne' : is_rne (255 * 2 ^ 45 * scaled m e) (2 ^ (E + 1119)) q).
  { apply (is_rne_scale _ _ _ (2 ^ (e0 + 1119))) in Hrne; [|apply pow2_pos; unfold e0; lia].
    rewrite <- Z.pow_add_r in Hrne by lia.
    replace (E - e0 + (e0 + 1119)) with (E + 1119) in Hrne by lia.
    replace (Zpos p * 2 ^ (e0 + 1119)) with (255 * 2 ^ 45 * scaled m e) in Hrne;
      [exact Hrne|].
    unfold scaled, e0. replace (e + -45 + 1119) with (e + 1074) by lia.
    rewrite Hp. ring. }
  assert (Hfloor : q * 2 ^ (E + 1119) / 2 ^ 1119 = q / 2 ^ (- E)).
  { replace (2 ^ 1119) with (2 ^ (- E) * 2 ^ (E + 1119)).
    - apply Z.div_mul_cancel_r; apply Z.pow_nonzero; lia.
    - rewrite <- Z.pow_add_r by lia. f_equal. lia. }
  exists (q * 2 ^ (E + 1119) / 2 ^ 1119). split.
  { exists (d + e0), E, q. cbv zeta. repeat split; try lia; exact Hrne'. }
  rewrite Hfloor.
  unfold Js.Math_floor, Js.floorZ, PrimFloat.is_nan.
  rewrite FloatAxioms.eqb_spec, Hmul.
  destruct Hres as [[-> Hr]|[(q' & -> & Hq' & Hr)|[-> Hr]]]; rewrite Hr.
  - split; [|reflexivity].
    rewrite <- (SF2Prim_Prim2SF (x * 255)), Hmul, Hr. reflexivity.
  - split.
    + destruct (Z.leb_spec 0 E); [lia|].
      rewrite Z.shiftl_div_pow2 by lia. reflexivity.
    + cbn. now rewrite Z.compare_refl, Pos.compare_cont_refl.
  - split.
    + destruct (Z.leb_spec 0 (E + 1)); [lia|].
      rewrite Z.shiftl_div_pow2 by lia. f_equal.
      change (2 ^ 53) with (4503599627370496 * 2).
      replace (2 ^ (- E)) with (2 ^ (- (E + 1)) * 2).
      * symmetry. apply Z.div_mul_cancel_r; [apply Z.pow_nonzero|]; lia.
      * rewrite <- (Z.pow_1_r 2) at 2. rewrite <- Z.pow_add_r by lia.
        f_equal. lia.
    + cbn. now rewrite Z.compare_refl.
Qed.

End Mul255.

(** * The two roughness scale factors *)

Section ScaleFactors.

Lemma Prim2SF_1 : Prim2SF 1 = S754_finite false 4503599627370496 (-52).
Proof. reflexivity. Qed.

(** A number of [0, 1] is a zero or a positive finite number of value at
    most 1. *)
Lemma unit_interval (x : float) :
  (0 <=? x)%float = true -> (x <=? 1)%float = true ->
  (x = 0%float \/ x = (-0)%float)
  \/ exists m e,
       Prim2SF x = S754_finite false m e
       /\ bounded prec emax m e = true
       /\ scaled m e <= 2 ^ 1074.
Proof.
  intros H0 H1.
  rewrite FloatAxioms.leb_spec, Prim2SF_0 in H0.
  rewrite FloatAxioms.leb_spec, Prim2SF_1 in H1.
  pose proof (Prim2SF_valid x) as Hvalid.
  pose proof (SF2Prim_Prim2SF x) as Hx.
  destruct (Prim2SF x) as [[|]|[|]| |[|] m e]; try discriminate.
  - left; right. now rewrite <- Hx.
  - left; left. now rewrite <- Hx.
  - right. exists m, e. split; [reflexivity|]. split; [exact Hvalid|].
    unfold SFleb in H1.
    rewrite (SFcompare_scaled m 4503599627370496 e (-52) Hvalid eq_refl) in H1.
    change (scaled 4503599627370496 (-52)) with (2 ^ 1074) in H1.
    destruct (Z.compare_spec (scaled m e) (2 ^ 1074)); try discriminate; lia.
Qed.

Lemma Math_max_0 (x : float) :
  PrimFloat.is_nan x = false ->
  Js.Math_max 0 x = if (0 <? x)%float then x else 0%float.
Proof.
  intros Hn. unfold Js.Math_max. rewrite Hn.
  change (PrimFloat.is_nan 0) with false. cbn [orb].
  destruct (0 <? x)%float; [reflexivity|].
  destruct (x <? 0)%float; reflexivity.
Qed.

Lemma Math_min_1 (x : float) :
  PrimFloat.is_nan x = false ->
  Js.Math_min 1 x = if (1 <? x)%float then 1%float else x.
Proof.
  intros Hn. unfold Js.Math_min. rewrite Hn.
  change (PrimFloat.is_nan 1) with false. cbn [orb].
  destruct (1 <? x)%float; [reflexivity|].
  destruct (x <? 1)%float; reflexivity.
Qed.

Lemma Math_min_255 (x : float) :
  PrimFloat.is_nan x = false ->
  Js.Math_min 255 x = if (255 <? x)%float then 255%float else x.
Proof.
  intros Hn. unfold Js.Math_min. rewrite Hn.
  change (PrimFloat.is_nan 255) with false. cbn [orb].
  destruct (255 <? x)%float; [reflexivity|].
  destruct (x <? 255)%float; reflexivity.
Qed.

(** [metalRoughVal] of a positive number that is at most 1. *)
Lemma metalRoughVal_finite (x : float) (m : positive) (e : Z) :
  Prim2SF x = S754_finite false m e ->
  (x <=? 1)%float = true ->
  textureUtils.metalRoughVal x = Js.Math_floor (x * 255).
Proof.
  intros Hx H1. unfold textureUtils.metalRoughVal.
  pose proof (leb_not_nan_l x 1 H1) as Hn.
  rewrite (Math_max_0 x Hn).
  assert (Hpos : (0 <? x)%float = true).
  { rewrite FloatAxioms.ltb_spec, Prim2SF_0, Hx. reflexivity. }
  rewrite Hpos, (Math_min_1 x Hn).
  assert (Hle : (1 <? x)%float = false).
  { rewrite FloatAxioms.ltb_spec. apply SFleb_not_ltb.
    now rewrite <- FloatAxioms.leb_spec. }
  now rewrite Hle.
Qed.

(** [paperRoughVal] of a positive number that is at most 1 is the floor of
    its product by 255, or 255. *)
Lemma paperRoughVal_finite (x : float) (F : Z) :
  Js.Math_floor (x * 255) = Js.of_Z F ->
  PrimFloat.is_nan (x * 255) = false ->
  textureUtils.paperRoughVal x = Js.of_Z F
  \/ textureUtils.paperRoughVal x = Js.of_Z 255.
Proof.
  intros HF Hn. unfold textureUtils.paperRoughVal.
  rewrite (Math_min_255 _ Hn).
  destruct (255 <? x * 255)%float; [right; reflexivity | left; exact HF].
Qed.

(** The scale factors of two roughness scalars of [0, 1] in order are two
    integers of [0, 255] in order; a paper roughness of [-0] gives the scale
    factor [-0]. *)
Lemma scale_factors (mr pr : float) :
  (0 <=? mr)%float = true ->
  (mr <=? pr)%float = true ->
  (pr <=? 1)%float = true ->
  exists M P,
    0 <= M <= P /\ P <= 255
    /\ textureUtils.metalRoughVal mr = Js.of_Z M
    /\ (textureUtils.paperRoughVal pr = Js.of_Z P
        \/ (M = 0 /\ textureUtils.paperRoughVal pr = (-0)%float)).
Proof.
  intros H0 Hle H1.
  pose proof (leb_trans _ _ _ Hle H1) as Hm1.
  pose proof (leb_trans _ _ _ H0 Hle) as Hp0.
  destruct (unit_interval mr H0 Hm1)
    as [Hmz|(mm & me & Hm & Hmb & Hms)];
    destruct (unit_interval pr Hp0 H1)
      as [Hpz|(pm & pe & Hp & Hpb & Hps)].
  - exists 0.
    assert (HM : textureUtils.metalRoughVal mr = Js.of_Z 0)
      by (destruct Hmz as [-> | ->]; reflexivity).
    destruct Hpz as [-> | ->].
    + exists 0. repeat split; try lia; [exact HM | left; reflexivity].
    + exists 0. repeat split; try lia; [exact HM | right; split; reflexivity].
  - assert (HM : textureUtils.metalRoughVal mr = Js.of_Z 0)
      by (destruct Hmz as [-> | ->]; reflexivity).
    destruct (mul255_floor pr pm pe Hp Hpb Hps) as (F & HF & Hfl & Hnan).
    pose proof (rounds255_range _ _ HF Hps) as HFr.
    destruct (paperRoughVal_finite pr F Hfl Hnan) as [HP | HP].
    + exists 0, F. repeat split; try lia; [exact HM | left; exact HP].
    + exists 0, 255. repeat split; try lia; [exact HM | left; exact HP].
  - exfalso. rewrite FloatAxioms.leb_spec, Hm in Hle.
    destruct Hpz as [-> | ->]; discriminate.
  - destruct (mul255_floor mr mm me Hm Hmb Hms) as (FM & HFM & HflM & _).
    destruct (mul255_floor pr pm pe Hp Hpb Hps) as (FP & HFP & HflP & Hnan).
    pose proof (rounds255_range _ _ HFM Hms) as HFMr.
    pose proof (rounds255_range _ _ HFP Hps) as HFPr.
    assert (Hs : scaled mm me <= scaled pm pe).
    { rewrite FloatAxioms.leb_spec, Hm, Hp in Hle. unfold SFleb in Hle.
      rewrite (SFcompare_scaled _ _ _ _ Hmb Hpb) in Hle.
      destruct (Z.compare_spec (scaled mm me) (scaled pm pe)); try discriminate; lia. }
    pose proof (rounds255_mono _ _ _ _ HFM HFP Hs) as Hmono.
    assert (HM : textureUtils.metalRoughVal mr = Js.of_Z FM).
    { rewrite (metalRoughVal_finite mr mm me Hm Hm1). exact HflM. }
    destruct (paperRoughVal_finite pr FP HflP Hnan) as [HP | HP].
    + exists FM, FP. repeat split; try lia; [exact HM | left; exact HP].
    + exists FM, 255. repeat split; try lia; [exact HM | left; exact HP].
Qed.

End ScaleFactors.

(** * The interpolation, for every pair of scale factors *)

Section Interpolation.

(** The integers [a, a + 1, ..., a + n - 1]. *)
Definition zrange (a : Z) (n : nat) : list Z :=
  (fun k => a + Z.of_nat k) <$> seq 0 n.

(** [r / 255] for the samples 0 to 255. *)
Definition normalizedMasks : list float :=
  (fun r => (Js.of_Z r / 255)%float) <$> zrange 0 256.

(** The interpolated values of a row of samples 0 to 255, for the floor [m]
    and the span [d]. *)
Definition interpolated (ns : list float) (m d : float) : list float :=
  (fun n => (m + n * d)%float) <$> ns.

Fixpoint ascending (l : list float) : bool :=
  match l with
  | x :: (y :: _) as t => (x <=? y)%float && ascending t
  | _ => true
  end.

(** The rows of every pair of integer scale factors in order are
    ascending. *)
Lemma rows_ascending :
  forallb
    (fun M =>
       forallb
         (fun P =>
            ascending
              (interpolated normalizedMasks (Js.of_Z M) (Js.of_Z P - Js.of_Z M)))
         (zrange M (Z.to_nat (256 - M))))
    (zrange 0 256)
  = true.
Proof. vm_compute. reflexivity. Qed.

(** So is the row of the scale factors [0] and [-0]. *)
Lemma row_negative_zero_ascending :
  ascending (interpolated normalizedMasks (Js.of_Z 0) (-0 - Js.of_Z 0)) = true.
Proof. vm_compute. reflexivity. Qed.

Lemma elem_of_zrange a n z :
  a <= z < a + Z.of_nat n -> In z (zrange a n).
Proof.
  intros Hz. unfold zrange. apply in_map_iff.
  exists (Z.to_nat (z - a)). split; [lia|]. apply in_seq. lia.
Qed.

Lemma zrange_lookup a n (k : nat) :
  (k < n)%nat -> zrange a n !! k = Some (a + Z.of_nat k).
Proof.
  intros Hk. unfold zrange. rewrite list_lookup_fmap, lookup_seq_lt by lia.
  reflexivity.
Qed.

Lemma interpolated_lookup m d r :
  0 <= r <= 255 ->
  interpolated normalizedMasks m d !! Z.to_nat r
  = Some (m + (Js.of_Z r / 255) * d)%float.
Proof.
  intros Hr. unfold interpolated, normalizedMasks.
  rewrite !list_lookup_fmap, zrange_lookup by lia.
  cbn. repeat f_equal. lia.
Qed.

Lemma ascending_lookup (l : list float) : forall i j x y,
  ascending l = true -> (i < j)%nat ->
  l !! i = Some x -> l !! j = Some y -> (x <=? y)%float = true.
Proof.
  induction l as [|x0 t IH]; intros i j x y Hasc Hij Hx Hy; [discriminate|].
  destruct t as [|y0 t']; [destruct j as [|[|j]]; [lia | discriminate..]|].
  cbn [ascending] in Hasc. apply andb_true_iff in Hasc. destruct Hasc as [H01 Ht].
  destruct i as [|i].
  - injection Hx as <-. destruct j as [|[|j]]; [lia| |].
    + injection Hy as <-. exact H01.
    + apply (leb_trans _ y0); [exact H01|].
      apply (IH 0%nat (S j) y0 y Ht); [lia | reflexivity | exact Hy].
  - destruct j as [|j]; [lia|].
    apply (IH i j x y Ht); [lia | exact Hx | exact Hy].
Qed.

(** The interpolation is monotone in the sample for every pair of scale
    factors that [scale_factors] gives. *)
Lemma interpolated_mono (m p : float) (M P : Z) (r1 r2 : Z) :
  0 <= M <= P -> P <= 255 ->
  m = Js.of_Z M ->
  p = Js.of_Z P \/ (M = 0 /\ p = (-0)%float) ->
  0 <= r1 -> r1 < r2 -> r2 <= 255 ->
  (m + (Js.of_Z r1 / 255) * (p - m) <=? m + (Js.of_Z r2 / 255) * (p - m))%float
  = true.
Proof.
  intros HM HP -> Hp H1 H12 H2.
  pose proof rows_ascending as Hall.
  assert (Hrow : ascending (interpolated normalizedMasks (Js.of_Z M) (p - Js.of_Z M))
                 = true).
  { destruct Hp as [-> | [-> ->]]; [|exact row_negative_zero_ascending].
    rewrite forallb_forall in Hall.
    specialize (Hall M (elem_of_zrange 0 256 M ltac:(lia))).
    rewrite forallb_forall in Hall.
    apply (Hall P). apply elem_of_zrange. lia. }
  apply (ascending_lookup _ (Z.to_nat r1) (Z.to_nat r2) _ _ Hrow); [lia| |];
    apply interpolated_lookup; lia.
Qed.

End Interpolation.

(** * Roughness as a function of the white-ink sample *)

Lemma roughness_sample_mono (mr pr : float) (r1 r2 : Z) :
  (0 <=? mr)%float = true ->
  (mr <=? pr)%float = true ->
  (pr <=? 1)%float = true ->
  0 <= r1 <= r2 -> r2 <= 255 ->
  roughness_sample mr pr (Some r1) false <= roughness_sample mr pr (Some r2) false.
Proof.
  intros H0 Hle H1 Hr1 Hr2.
  destruct (Z.eq_dec r1 r2) as [->|Hne]; [lia|].
  destruct (scale_factors mr pr H0 Hle H1) as (M & P & HM & HP & Hm & Hp).
  unfold roughness_sample, textureUtils.roughVal.
  apply ToUint8Clamp_mono.
  apply (interpolated_mono _ _ M P); try assumption; lia.
Qed.

(** C8.  For roughness scalars with [0 <= metalRoughness <= paperRoughness
    <= 1], the roughness sample of a pixel that is not varnished is a
    non-decreasing function of the inverted white-ink sample over
    [0, 255]; so in a resolved run, of two pixels that are not varnished the
    one with the larger white-ink sample has the larger or equal roughness
    sample. *)
Theorem C8_roughness_monotone (mr pr : float) :
  (0 <=? mr)%float = true ->
  (mr <=? pr)%float = true ->
  (pr <=? 1)%float = true ->
  (forall r1 r2, 0 <= r1 <= r2 -> r2 <= 255 ->
     roughness_sample mr pr (Some r1) false
     <= roughness_sample mr pr (Some r2) false)
  /\ forall (load : string -> option textureUtils.HTMLImageElement) (ctx : bool)
       (tw th : nat) (img varnish : option string)
       (maps : textureUtils.TextureMaps),
       textureUtils.processTextureMaps load ctx mr pr tw th img varnish
       = textureUtils.Resolved maps ->
       let w := textureUtils.canvas_width tw (loaded load img) (loaded load varnish) in
       let h := textureUtils.canvas_height th (loaded load img) (loaded load varnish) in
       let whiteInkData := textureUtils.whiteInkData_of (loaded load img) w h in
       let varnishData := textureUtils.varnishData_of (loaded load varnish) w h in
       forall (k1 k2 : nat) (r1 r2 : Z),
         (k1 < w * h)%nat -> (k2 < w * h)%nat ->
         whiteInkData !! (4 * k1)%nat = Some r1 ->
         whiteInkData !! (4 * k2)%nat = Some r2 ->
         varnished varnishData (4 * k1) = false ->
         varnished varnishData (4 * k2) = false ->
         r1 <= r2 ->
         exists s1 s2,
           textureUtils.data (textureUtils.roughnessMap maps) !! (4 * k1)%nat = Some s1
           /\ textureUtils.data (textureUtils.roughnessMap maps) !! (4 * k2)%nat = Some s2
           /\ s1 <= s2.
Proof.
  intros H0 Hle H1. split.
  - intros r1 r2 Hr1 Hr2. now apply roughness_sample_mono.
  - intros load ctx tw th img varnish maps Hres w h ink vd k1 k2 r1 r2
      Hk1 Hk2 Hi1 Hi2 Hv1 Hv2 Hr.
    apply processTextureMaps_Resolved, runProcessing_inv in Hres.
    destruct Hres as (_ & Hrough & _). rewrite Hrough.
    destruct (final_roughnessData mr pr tw th (loaded load img) (loaded load varnish))
      as [_ Hat].
    fold w h in Hat. fold ink vd in Hat.
    pose proof (Hat k1 0%nat Hk1 ltac:(lia)) as Hs1.
    pose proof (Hat k2 0%nat Hk2 ltac:(lia)) as Hs2.
    rewrite Nat.add_0_r in Hs1, Hs2.
    rewrite Hi1, Hv1 in Hs1. rewrite Hi2, Hv2 in Hs2.
    cbn [Nat.ltb Nat.leb] in Hs1, Hs2.
    eexists _, _. split; [exact Hs1|]. split; [exact Hs2|].
    destruct (whiteInkData_red tw th (loaded load img) (loaded load varnish) k1 Hk1)
      as (r1' & Hr1' & Hrange1).
    destruct (whiteInkData_red tw th (loaded load img) (loaded load varnish) k2 Hk2)
      as (r2' & Hr2' & Hrange2).
    fold w h ink in Hr1', Hr2'.
    assert (r1' = r1) by congruence. assert (r2' = r2) by congruence. subst.
    apply roughness_sample_mono; try assumption; lia.
Qed.

Lemma C8_roughness_monotone_witness :
  roughness_sample 0.2 1.0 (Some 0) false = 51
  /\ roughness_sample 0.2 1.0 (Some 255) false = 255
  /\ roughness_sample 0.2 1.0 (Some 0) false
     <= roughness_sample 0.2 1.0 (Some 255) false.
Proof.
  split; [reflexivity|]. split; [reflexivity|].
  apply (proj1 (C8_roughness_monotone 0.2 1.0 eq_refl eq_refl eq_refl)); lia.
Defined.

(** * The three ways a call can end *)

Section Outcome.
Import textureUtils.
Local Open Scope nat_scope.

(** The image that gives the canvas its size: the white-ink image when a
    white-ink source is supplied, else the varnish image. *)
Definition primary (load : string -> option HTMLImageElement)
    (img varnish : option string) : option HTMLImageElement :=
  if supplied img then load (default EmptyString img)
  else if supplied varnish then load (default EmptyString varnish)
  else None.

Lemma processTextureMaps_primary load ctx mr pr tw th img varnish im :
  primary load img varnish = Some im ->
  processTextureMaps load ctx mr pr tw th img varnish
  = runProcessing ctx mr pr tw th (loaded load img) (loaded load varnish)
  /\ canvas_width tw (loaded load img) (loaded load varnish) = width im
  /\ canvas_height th (loaded load img) (loaded load varnish) = height im.
Proof.
  unfold primary, processTextureMaps, loaded, supplied.
  destruct (Js.truthy_string img).
  - intros ->.
    destruct (Js.truthy_string varnish);
      [destruct (load (default EmptyString varnish))|]; repeat split.
  - destruct (Js.truthy_string varnish); [|discriminate].
    intros ->. repeat split.
Qed.

Lemma processTextureMaps_no_primary load ctx mr pr tw th img varnish :
  primary load img varnish = None ->
  rejected (processTextureMaps load ctx mr pr tw th img varnish).
Proof.
  unfold primary, processTextureMaps, supplied.
  destruct (Js.truthy_string img).
  - intros ->. eexists; reflexivity.
  - destruct (Js.truthy_string varnish).
    + intros ->. eexists; reflexivity.
    + intros _. eexists; reflexivity.
Qed.

Lemma runProcessing_cases ctx mr pr tw th wi vi :
  let w := canvas_width tw wi vi in
  let h := canvas_height th wi vi in
  (ctx = false /\ rejected (runProcessing ctx mr pr tw th wi vi))
  \/ (ctx = true /\ (w = 0 \/ h = 0)
      /\ runProcessing ctx mr pr tw th wi vi = Unsettled)
  \/ (ctx = true /\ w <> 0 /\ h <> 0
      /\ exists maps, runProcessing ctx mr pr tw th wi vi = Resolved maps).
Proof.
  intros w h. destruct ctx.
  - right. destruct (Nat.eq_dec w 0) as [Hw|Hw]; [|destruct (Nat.eq_dec h 0) as [Hh|Hh]].
    + left. split; [reflexivity|]. split; [now left|].
      unfold runProcessing. cbn [negb]. fold w h. rewrite Hw. reflexivity.
    + left. split; [reflexivity|]. split; [now right|].
      unfold runProcessing. cbn [negb]. fold w h. rewrite Hh.
      now rewrite orb_true_r.
    + right. split; [reflexivity|]. split; [exact Hw|]. split; [exact Hh|].
      eexists. apply runProcessing_Resolved; assumption.
  - left. split; [reflexivity|]. now apply runProcessing_rejected.
Qed.

End Outcome.

(** X1.  A call of [processTextureMaps] resolves exactly when there is a
    canvas context and the image that gives the canvas its size (the
    white-ink image when a white-ink source is supplied, else the varnish
    image) loads with a width and a height other than zero; its promise is
    never settled exactly when there is a canvas context and that image
    loads with a width or a height of zero. *)
Theorem processTextureMaps_outcome
    (load : string -> option textureUtils.HTMLImageElement) (ctx : bool)
    (mr pr : float) (tw th : nat) (img varnish : option string) :
  let out := textureUtils.processTextureMaps load ctx mr pr tw th img varnish in
  ((exists maps, out = textureUtils.Resolved maps)
   <-> ctx = true
       /\ exists im, primary load img varnish = Some im
                     /\ textureUtils.width im <> 0%nat
                     /\ textureUtils.height im <> 0%nat)
  /\ (out = textureUtils.Unsettled
      <-> ctx = true
          /\ exists im, primary load img varnish = Some im
                        /\ (textureUtils.width im = 0%nat
                            \/ textureUtils.height im = 0%nat)).
Proof.
  intros out. subst out.
  destruct (primary load img varnish) as [im|] eqn:Hprim.
  - destruct (processTextureMaps_primary load ctx mr pr tw th img varnish im Hprim)
      as (-> & Hw & Hh).
    destruct (runProcessing_cases ctx mr pr tw th (loaded load img) (loaded load varnish))
      as [(-> & [e He])|[(-> & Hz & Hrun)|(-> & Hnw & Hnh & [maps Hrun])]];
      rewrite ?Hw, ?Hh in *.
    + rewrite He. split; split;
        try (intros [? _]; discriminate); try (intros [? ?]; discriminate);
        discriminate.
    + rewrite Hrun. split; split.
      * intros [? ?]; discriminate.
      * intros (_ & im' & [= <-] & ? & ?). lia.
      * intros _. split; [reflexivity|]. eauto.
      * reflexivity.
    + rewrite Hrun. split; split.
      * intros _. split; [reflexivity|]. eauto.
      * eauto.
      * discriminate.
      * intros (_ & im' & [= <-] & ?). lia.
  - destruct (processTextureMaps_no_primary load ctx mr pr tw th img varnish Hprim)
      as [e ->].
    split; split;
      try (intros [? ?]; discriminate); try discriminate;
      intros (_ & ? & ? & _); discriminate.
Qed.

(** X2.  The default size ([targetWidth], [targetHeight]) never reaches the
    result: two calls that differ in nothing else end in the same way. *)
Theorem processTextureMaps_target_size_unused
    (load : string -> option textureUtils.HTMLImageElement) (ctx : bool)
    (mr pr : float) (tw th tw' th' : nat) (img varnish : option string) :
  textureUtils.processTextureMaps load ctx mr pr tw th img varnish
  = textureUtils.processTextureMaps load ctx mr pr tw' th' img varnish.
Proof.
  unfold textureUtils.processTextureMaps.
  destruct (Js.truthy_string img);
    [destruct (load (default EmptyString img))|];
    (destruct (Js.truthy_string varnish);
     [destruct (load (default EmptyString varnish))|]);
    reflexivity.
Qed.

(** * The format of the maps *)

Section MapFormat.
Import textureUtils.
Local Open Scope nat_scope.

(** An opaque grayscale picture of [w] by [h] pixels: four samples per
    pixel, the three colour samples equal and the alpha sample 255. *)
Definition opaque_gray (d : ImageData) (w h : nat) : Prop :=
  data_width d = w /\ data_height d = h
  /\ length (data d) = 4 * (w * h)
  /\ forall k, k < w * h ->
       exists v, (0 <= v <= 255)%Z
         /\ data d !! (4 * k) = Some v
         /\ data d !! (4 * k + 1) = Some v
         /\ data d !! (4 * k + 2) = Some v
         /\ data d !! (4 * k + 3) = Some 255%Z.

Lemma opaque_gray_intro (a : Uint8ClampedArray) (w h : nat) (f : nat -> Z) :
  length a = 4 * (w * h) ->
  (forall k c, k < w * h -> c < 4 ->
     a !! (4 * k + c) = Some (if c <? 3 then f (4 * k) else 255%Z)) ->
  (forall k, k < w * h -> (0 <= f (4 * k)%nat <= 255)%Z) ->
  opaque_gray {| data := a; data_width := w; data_height := h |} w h.
Proof.
  intros Hlen Hat Hf. repeat split; try assumption.
  intros k Hk. exists (f (4 * k)). split; [now apply Hf|].
  pose proof (Hat k 0 Hk ltac:(lia)) as H0. rewrite Nat.add_0_r in H0.
  repeat split; [exact H0 | apply (Hat k 1) | apply (Hat k 2) | apply (Hat k 3)];
    lia.
Qed.

(** A run that resolves, in full. *)
Lemma runProcessing_Resolved_inv ctx mr pr tw th wi vi maps :
  runProcessing ctx mr pr tw th wi vi = Resolved maps ->
  let w := canvas_width tw wi vi in
  let h := canvas_height th wi vi in
  let b := final_buffers mr pr tw th wi vi in
  ctx = true /\ w <> 0 /\ h <> 0
  /\ maps = {|
       metalnessMap :=
         {| data := metalnessData b; data_width := w; data_height := h |};
       roughnessMap :=
         {| data := roughnessData b; data_width := w; data_height := h |};
       clearcoatMap :=
         (fun d => {| data := d; data_width := w; data_height := h |})
           <$> clearcoatData b
     |}.
Proof.
  intros Hrun w h b.
  destruct (runProcessing_cases ctx mr pr tw th wi vi)
    as [(_ & [e He])|[(_ & _ & Hu)|(-> & Hw & Hh & _)]]; try congruence.
  fold w h in Hw, Hh. repeat split; try assumption.
  rewrite (runProcessing_Resolved mr pr tw th wi vi Hw Hh) in Hrun.
  now injection Hrun as <-.
Qed.

Lemma metalVal_range r : (0 <= metalVal r <= 255)%Z.
Proof. destruct r; simpl; [unfold clamp8|]; lia. Qed.

Lemma roughness_sample_range mr pr r v :
  (0 <= roughness_sample mr pr r v <= 255)%Z.
Proof.
  unfold roughness_sample, varnishRoughVal.
  destruct v; [lia | apply ToUint8Clamp_range].
Qed.

Lemma clearcoat_sample_range v : (0 <= clearcoat_sample v <= 255)%Z.
Proof. destruct v; simpl; lia. Qed.

End MapFormat.

(** X3.  Every map of a resolved call is an opaque grayscale picture of the
    size of the image that gives the canvas its size: four samples per
    pixel, the three colour samples equal and within [0, 255], the alpha
    sample 255; so is the clearcoat map when there is one. *)
Theorem maps_opaque_gray
    (load : string -> option textureUtils.HTMLImageElement) (ctx : bool)
    (mr pr : float) (tw th : nat) (img varnish : option string)
    (maps : textureUtils.TextureMaps) (im : textureUtils.HTMLImageElement) :
  textureUtils.processTextureMaps load ctx mr pr tw th img varnish
  = textureUtils.Resolved maps ->
  primary load img varnish = Some im ->
  let w := textureUtils.width im in
  let h := textureUtils.height im in
  opaque_gray (textureUtils.metalnessMap maps) w h
  /\ opaque_gray (textureUtils.roughnessMap maps) w h
  /\ forall coat, textureUtils.clearcoatMap maps = Some coat ->
                  opaque_gray coat w h.
Proof.
  intros Hres Hprim w h.
  destruct (processTextureMaps_primary load ctx mr pr tw th img varnish im Hprim)
    as (Hrun & Hw & Hh).
  rewrite Hrun in Hres. apply runProcessing_Resolved_inv in Hres.
  destruct Hres as (_ & _ & _ & ->). rewrite Hw, Hh. fold w h.
  cbn [textureUtils.metalnessMap textureUtils.roughnessMap textureUtils.clearcoatMap].
  destruct (final_metalnessData mr pr tw th (loaded load img) (loaded load varnish))
    as [Hml Hmat].
  destruct (final_roughnessData mr pr tw th (loaded load img) (loaded load varnish))
    as [Hrl Hrat].
  rewrite Hw, Hh in Hml, Hmat, Hrl, Hrat. fold w h in Hml, Hmat, Hrl, Hrat.
  split; [|split].
  - apply (opaque_gray_intro _ w h
             (fun i => textureUtils.metalVal
                         (textureUtils.whiteInkData_of (loaded load img) w h !! i)));
      [exact Hml | exact Hmat | intros; apply metalVal_range].
  - apply (opaque_gray_intro _ w h
             (fun i => roughness_sample mr pr
                         (textureUtils.whiteInkData_of (loaded load img) w h !! i)
                         (varnished
                            (textureUtils.varnishData_of (loaded load varnish) w h) i)));
      [exact Hrl | exact Hrat | intros; apply roughness_sample_range].
  - intros coat Hcoat.
    destruct (loaded load varnish) as [vImg|] eqn:Hv.
    + destruct (final_clearcoatData_Some mr pr tw th (loaded load img) (Some vImg)
                  vImg eq_refl) as (cd & Hcd & Hcl & Hcat).
      rewrite Hcd in Hcoat. injection Hcoat as <-.
      rewrite Hw, Hh in Hcl, Hcat. fold w h in Hcl, Hcat.
      apply (opaque_gray_intro _ w h
               (fun i => clearcoat_sample
                           (varnished
                              (textureUtils.varnishData_of (Some vImg) w h) i)));
        [exact Hcl | exact Hcat | intros; apply clearcoat_sample_range].
    + rewrite (final_clearcoatData_None mr pr tw th (loaded load img) None eq_refl)
        in Hcoat. discriminate.
Qed.

Lemma maps_opaque_gray_witness :
  exists maps,
    textureUtils.processTextureMaps example_load true 0.2 1.0 1024 1024
      (Some "white"%string) (Some "varnish3"%string)
    = textureUtils.Resolved maps
    /\ opaque_gray (textureUtils.roughnessMap maps) 2 2.
Proof.
  eexists. split; [reflexivity|].
  exact (proj1 (proj2
    (maps_opaque_gray example_load true 0.2 1.0 1024 1024
       (Some "white"%string) (Some "varnish3"%string) _
       (Grayscale.image 2 2 [0; 0; 255; 255]) eq_refl eq_refl))).
Defined.

(** * Roughness scalars outside the unit interval, and [NaN] *)

Section ScalarEdges.

Ltac sf_order :=
  repeat match goal with
         | x : spec_float |- _ => destruct x as [[|]|[|]| |[|] ? ?]
         end;
  cbn [SFleb SFltb SFeqb SFcompare]; try reflexivity; try discriminate;
  change (Pos.compare_cont Eq) with Pos.compare;
  repeat match goal with
         | |- context [Z.compare ?a ?b] => destruct (Z.compare_spec a b)
         | |- context [Pos.compare ?a ?b] => destruct (Pos.compare_spec a b)
         end;
  cbn [CompOpp]; try reflexivity; try discriminate; try lia.

(** The order of the numbers is total away from [NaN]. *)
Lemma SFltb_false_leb (a b : spec_float) :
  SFeqb a a = true -> SFeqb b b = true ->
  SFltb a b = false -> SFleb b a = true.
Proof. sf_order. Qed.

Lemma SFltb_leb (a b : spec_float) : SFltb a b = true -> SFleb a b = true.
Proof. sf_order. Qed.

Lemma ltb_false_leb (a b : float) :
  PrimFloat.is_nan a = false -> PrimFloat.is_nan b = false ->
  (a <? b)%float = false -> (b <=? a)%float = true.
Proof.
  unfold PrimFloat.is_nan.
  rewrite !FloatAxioms.eqb_spec, FloatAxioms.ltb_spec, FloatAxioms.leb_spec.
  rewrite !negb_false_iff. apply SFltb_false_leb.
Qed.

Lemma SFleb_refl (a : spec_float) : SFeqb a a = true -> SFleb a a = true.
Proof. sf_order. Qed.

Lemma leb_refl (a : float) :
  PrimFloat.is_nan a = false -> (a <=? a)%float = true.
Proof.
  unfold PrimFloat.is_nan.
  rewrite FloatAxioms.eqb_spec, FloatAxioms.leb_spec, negb_false_iff.
  apply SFleb_refl.
Qed.

Lemma ltb_leb (a b : float) : (a <? b)%float = true -> (a <=? b)%float = true.
Proof. rewrite FloatAxioms.ltb_spec, FloatAxioms.leb_spec. apply SFltb_leb. Qed.

(** There is one [NaN]. *)
Lemma is_nan_eq (x : float) : PrimFloat.is_nan x = true -> x = PrimFloat.nan.
Proof.
  unfold PrimFloat.is_nan. rewrite FloatAxioms.eqb_spec. intros H.
  rewrite <- (SF2Prim_Prim2SF x).
  destruct (Prim2SF x) as [[|]|[|]| |[|] m e]; cbn in H; try discriminate;
    try reflexivity;
    rewrite Z.compare_refl, Pos.compare_cont_refl in H; discriminate.
Qed.

(** [NaN] goes through the arithmetic of the interpolation. *)
Lemma add_nan_l (y : float) : (PrimFloat.nan + y)%float = PrimFloat.nan.
Proof.
  apply Prim2SF_inj. rewrite add_spec. change (Prim2SF PrimFloat.nan) with S754_nan.
  reflexivity.
Qed.

Lemma add_nan_r (x : float) : (x + PrimFloat.nan)%float = PrimFloat.nan.
Proof.
  apply Prim2SF_inj. rewrite add_spec. change (Prim2SF PrimFloat.nan) with S754_nan.
  now destruct (Prim2SF x).
Qed.

Lemma sub_nan_l (y : float) : (PrimFloat.nan - y)%float = PrimFloat.nan.
Proof.
  apply Prim2SF_inj. rewrite sub_spec. change (Prim2SF PrimFloat.nan) with S754_nan.
  reflexivity.
Qed.

Lemma sub_nan_r (x : float) : (x - PrimFloat.nan)%float = PrimFloat.nan.
Proof.
  apply Prim2SF_inj. rewrite sub_spec. change (Prim2SF PrimFloat.nan) with S754_nan.
  now destruct (Prim2SF x).
Qed.

Lemma mul_nan_r (x : float) : (x * PrimFloat.nan)%float = PrimFloat.nan.
Proof.
  apply Prim2SF_inj. rewrite mul_spec. change (Prim2SF PrimFloat.nan) with S754_nan.
  now destruct (Prim2SF x).
Qed.

(** A roughness scalar that is [NaN] makes every interpolated value [NaN],
    which is stored as 0. *)
Lemma roughness_sample_nan (mr pr : float) (r : option Z) :
  PrimFloat.is_nan mr = true \/ PrimFloat.is_nan pr = true ->
  roughness_sample mr pr r false = 0.
Proof.
  intros H. unfold roughness_sample, textureUtils.roughVal.
  assert (Hnan : forall n,
             (textureUtils.metalRoughVal mr
              + n * (textureUtils.paperRoughVal pr - textureUtils.metalRoughVal mr))%float
             = PrimFloat.nan).
  { intros n. destruct H as [H | H]; apply is_nan_eq in H; subst.
    - change (textureUtils.metalRoughVal PrimFloat.nan) with PrimFloat.nan.
      apply add_nan_l.
    - change (textureUtils.paperRoughVal PrimFloat.nan) with PrimFloat.nan.
      now rewrite sub_nan_l, mul_nan_r, add_nan_r. }
  rewrite Hnan. reflexivity.
Qed.

(** Two valid positive finite numbers of one value are one number. *)
Lemma scaled_inj (m1 m2 : positive) (e1 e2 : Z) :
  bounded prec emax m1 e1 = true ->
  bounded prec emax m2 e2 = true ->
  scaled m1 e1 = scaled m2 e2 -> m1 = m2 /\ e1 = e2.
Proof.
  intros H1 H2 Heq.
  assert (He : e1 = e2).
  { destruct (Z.lt_trichotomy e1 e2) as [Hlt|[?|Hgt]]; [|assumption|].
    - pose proof (scaled_lt _ _ _ _ H1 H2 Hlt). lia.
    - pose proof (scaled_lt _ _ _ _ H2 H1 Hgt). lia. }
  subst e2. split; [|reflexivity].
  unfold scaled in Heq. apply bounded_inv in H1. destruct H1 as (He & _).
  apply Z.mul_cancel_r in Heq; [congruence|].
  apply Z.pow_nonzero; lia.
Qed.

(** The metal scale factor of every number other than [NaN]. *)
Lemma metalRoughVal_integer (mr : float) :
  PrimFloat.is_nan mr = false ->
  exists M, 0 <= M <= 255 /\ textureUtils.metalRoughVal mr = Js.of_Z M.
Proof.
  intros Hn.
  destruct (0 <? mr)%float eqn:Hpos.
  - destruct (1 <? mr)%float eqn:H1.
    + exists 255. split; [lia|]. unfold textureUtils.metalRoughVal.
      rewrite (Math_max_0 mr Hn), Hpos, (Math_min_1 mr Hn), H1. reflexivity.
    + pose proof (ltb_leb _ _ Hpos) as H0.
      pose proof (ltb_false_leb 1 mr eq_refl Hn H1) as Hle.
      destruct (scale_factors mr mr H0 (leb_refl mr Hn) Hle)
        as (M & P & HM & HP & Hm & _).
      exists M. split; [lia | exact Hm].
  - exists 0. split; [lia|]. unfold textureUtils.metalRoughVal.
    rewrite (Math_max_0 mr Hn), Hpos. reflexivity.
Qed.

(** The paper scale factor of a number of [0, 1]. *)
Lemma paperRoughVal_integer (pr : float) :
  (0 <=? pr)%float = true -> (pr <=? 1)%float = true ->
  exists P, 0 <= P <= 255
    /\ (textureUtils.paperRoughVal pr = Js.of_Z P
        \/ (P = 0 /\ textureUtils.paperRoughVal pr = (-0)%float)).
Proof.
  intros H0 H1.
  destruct (scale_factors 0 pr eq_refl H0 H1) as (M & P & HM & HP & _ & Hp).
  destruct Hp as [Hp | [_ Hp]].
  - exists P. split; [lia | now left].
  - exists 0. split; [lia | now right].
Qed.

Lemma metalRoughVal_below (mr : float) :
  (mr <=? 0)%float = true -> textureUtils.metalRoughVal mr = 0%float.
Proof.
  intros H0. pose proof (leb_not_nan_l _ _ H0) as Hn.
  unfold textureUtils.metalRoughVal. rewrite (Math_max_0 mr Hn).
  assert (Hpos : (0 <? mr)%float = false).
  { rewrite FloatAxioms.ltb_spec. apply SFleb_not_ltb.
    now rewrite <- FloatAxioms.leb_spec. }
  rewrite Hpos. reflexivity.
Qed.

Lemma metalRoughVal_above (mr : float) :
  (1 <=? mr)%float = true -> textureUtils.metalRoughVal mr = 255%float.
Proof.
  intros H1. pose proof (leb_not_nan_r _ _ H1) as Hn.
  assert (Hpos : (0 <? mr)%float = true).
  { rewrite FloatAxioms.ltb_spec.
    apply (SFltb_leb_trans _ (Prim2SF 1)); [reflexivity|].
    now rewrite <- FloatAxioms.leb_spec. }
  unfold textureUtils.metalRoughVal.
  rewrite (Math_max_0 mr Hn), Hpos, (Math_min_1 mr Hn).
  destruct (1 <? mr)%float eqn:Hlt; [reflexivity|].
  pose proof (ltb_false_leb 1 mr eq_refl Hn Hlt) as Hle.
  destruct (unit_interval mr (ltb_leb _ _ Hpos) Hle)
    as [[-> | ->] | (m & e & Hm & Hb & Hs)]; [discriminate..|].
  assert (Hge : 2 ^ 1074 <= scaled m e).
  { rewrite FloatAxioms.leb_spec, Prim2SF_1, Hm in H1. unfold SFleb in H1.
    rewrite (SFcompare_scaled 4503599627370496 m (-52) e eq_refl Hb) in H1.
    change (scaled 4503599627370496 (-52)) with (2 ^ 1074) in H1.
    destruct (Z.compare_spec (2 ^ 1074) (scaled m e)); try discriminate; lia. }
  destruct (scaled_inj m 4503599627370496 e (-52) Hb eq_refl) as [-> ->].
  { change (scaled 4503599627370496 (-52)) with (2 ^ 1074). lia. }
  rewrite <- Prim2SF_1 in Hm. apply Prim2SF_inj in Hm. subst mr. reflexivity.
Qed.

End ScalarEdges.

(** * The interpolation at its ends, and downwards *)

Section InterpolationEnds.

Fixpoint descending (l : list float) : bool :=
  match l with
  | x :: (y :: _) as t => (y <=? x)%float && descending t
  | _ => true
  end.

(** The rows of every pair of integer scale factors in the other order are
    descending. *)
Lemma rows_descending :
  forallb
    (fun M =>
       forallb
         (fun P =>
            descending
              (interpolated normalizedMasks (Js.of_Z M) (Js.of_Z P - Js.of_Z M)))
         (zrange 0 (Z.to_nat (M + 1))))
    (zrange 0 256)
  = true.
Proof. vm_compute. reflexivity. Qed.

(** So are the rows of the paper scale factor [-0]. *)
Lemma rows_negative_zero_descending :
  forallb
    (fun M =>
       descending (interpolated normalizedMasks (Js.of_Z M) (-0 - Js.of_Z M)))
    (zrange 0 256)
  = true.
Proof. vm_compute. reflexivity. Qed.

(** The sample stored for the interpolated value of the sample [r]. *)
Definition stored (m p : float) (r : Z) : Z :=
  Js.ToUint8Clamp (m + (Js.of_Z r / 255) * (p - m))%float.

(** At the samples 0 and 255 the interpolation gives the two scale factors
    themselves, for every pair of integer scale factors. *)
Lemma rows_ends :
  forallb
    (fun M =>
       forallb
         (fun P =>
            (stored (Js.of_Z M) (Js.of_Z P) 0 =? M)
            && (stored (Js.of_Z M) (Js.of_Z P) 255 =? P)
            && (Js.ToUint8Clamp (Js.of_Z P) =? P))
         (zrange 0 256))
    (zrange 0 256)
  = true.
Proof. vm_compute. reflexivity. Qed.

Lemma rows_negative_zero_ends :
  forallb
    (fun M =>
       (stored (Js.of_Z M) (-0) 0 =? M) && (stored (Js.of_Z M) (-0) 255 =? 0))
    (zrange 0 256)
  = true.
Proof. vm_compute. reflexivity. Qed.

Lemma descending_lookup (l : list float) : forall i j x y,
  descending l = true -> (i < j)%nat ->
  l !! i = Some x -> l !! j = Some y -> (y <=? x)%float = true.
Proof.
  induction l as [|x0 t IH]; intros i j x y Hasc Hij Hx Hy; [discriminate|].
  destruct t as [|y0 t']; [destruct j as [|[|j]]; [lia | discriminate..]|].
  cbn [descending] in Hasc. apply andb_true_iff in Hasc. destruct Hasc as [H01 Ht].
  destruct i as [|i].
  - injection Hx as <-. destruct j as [|[|j]]; [lia| |].
    + injection Hy as <-. exact H01.
    + apply (leb_trans _ y0); [|exact H01].
      apply (IH 0%nat (S j) y0 y Ht); [lia | reflexivity | exact Hy].
  - destruct j as [|j]; [lia|].
    apply (IH i j x y Ht); [lia | exact Hx | exact Hy].
Qed.

Lemma interpolated_antitone (m p : float) (M P : Z) (r1 r2 : Z) :
  0 <= P <= M -> M <= 255 ->
  m = Js.of_Z M ->
  p = Js.of_Z P \/ p = (-0)%float ->
  0 <= r1 -> r1 < r2 -> r2 <= 255 ->
  (m + (Js.of_Z r2 / 255) * (p - m) <=? m + (Js.of_Z r1 / 255) * (p - m))%float
  = true.
Proof.
  intros HP HM -> Hp H1 H12 H2.
  assert (Hrow : descending (interpolated normalizedMasks (Js.of_Z M) (p - Js.of_Z M))
                 = true).
  { destruct Hp as [-> | ->].
    - pose proof rows_descending as Hall.
      rewrite forallb_forall in Hall.
      specialize (Hall M (elem_of_zrange 0 256 M ltac:(lia))).
      rewrite forallb_forall in Hall.
      apply (Hall P). apply elem_of_zrange. lia.
    - pose proof rows_negative_zero_descending as Hall.
      rewrite forallb_forall in Hall.
      exact (Hall M (elem_of_zrange 0 256 M ltac:(lia))). }
  apply (descending_lookup _ (Z.to_nat r1) (Z.to_nat r2) _ _ Hrow); [lia| |];
    apply interpolated_lookup; lia.
Qed.

Lemma stored_ends (m p : float) (M P : Z) :
  0 <= M <= 255 -> 0 <= P <= 255 ->
  m = Js.of_Z M ->
  p = Js.of_Z P \/ (P = 0 /\ p = (-0)%float) ->
  stored m p 0 = M /\ stored m p 255 = P
  /\ Js.ToUint8Clamp m = M /\ Js.ToUint8Clamp p = P.
Proof.
  intros HM HP -> Hp.
  pose proof rows_ends as Hall. rewrite forallb_forall in Hall.
  pose proof (Hall M (elem_of_zrange 0 256 M ltac:(lia))) as HallM.
  rewrite forallb_forall in HallM.
  pose proof (HallM P (elem_of_zrange 0 256 P ltac:(lia))) as HMP.
  pose proof (Hall P (elem_of_zrange 0 256 P ltac:(lia))) as HallP.
  rewrite forallb_forall in HallP.
  pose proof (HallP M (elem_of_zrange 0 256 M ltac:(lia))) as HPM.
  rewrite !andb_true_iff, !Z.eqb_eq in HMP, HPM.
  destruct Hp as [-> | [-> ->]].
  - intuition.
  - pose proof rows_negative_zero_ends as Hz. rewrite forallb_forall in Hz.
    specialize (Hz M (elem_of_zrange 0 256 M ltac:(lia))).
    rewrite andb_true_iff, !Z.eqb_eq in Hz.
    intuition.
Qed.

End InterpolationEnds.

(** * The paper scale factor is never above 255 *)

Section PaperScaleFactor.

(** The product by 255 of a positive number that is at most 1 is a zero or
    a positive number of value at most 255. *)
Lemma mul255_value (x : float) (m : positive) (e : Z) :
  Prim2SF x = S754_finite false m e ->
  bounded prec emax m e = true ->
  scaled m e <= 2 ^ 1074 ->
  Prim2SF (x * 255) = S754_zero false
  \/ exists m' e',
       Prim2SF (x * 255) = S754_finite false m' e'
       /\ scaled m' e' <= 255 * 2 ^ 1074.
Proof.
  intros Hx Hb Hs.
  pose proof (bounded_inv m e Hb) as (He & Hm53 & Hm52).
  assert (Hmul : Prim2SF (x * 255)
                 = binary_round_aux prec emax false
                     (Zpos (m * 8972014882652160)) (e + -45) loc_Exact).
  { rewrite mul_spec, Hx, Prim2SF_255. reflexivity. }
  set (p := (m * 8972014882652160)%positive) in *.
  set (e0 := e + -45) in *.
  assert (Hp : Zpos p = 255 * 2 ^ 45 * Zpos m)
    by (unfold p; rewrite Pos2Z.inj_mul; change (2 ^ 45) with 35184372088832; lia).
  pose proof (digits2_pos_bounds p) as [Hlo Hhi].
  set (d := Zpos (digits2_pos p)) in *.
  assert (H45 : 0 < 2 ^ 45) by (apply pow2_pos; lia).
  assert (Hc : 0 < 2 ^ (e + 1074)) by (apply pow2_pos; lia).
  assert (Hd1 : 1 <= d) by (unfold d; lia).
  assert (HW : 2 ^ (d + e0 - 1 + 1119) <= 255 * 2 ^ 45 * scaled m e
               < 2 ^ (d + e0 + 1119)).
  { unfold scaled, e0.
    replace (d + (e + -45) - 1 + 1119) with ((d - 1) + (e + 1074)) by lia.
    replace (d + (e + -45) + 1119) with (d + (e + 1074)) by lia.
    rewrite (Z.pow_add_r 2 (d - 1)), (Z.pow_add_r 2 d) by lia.
    replace (255 * 2 ^ 45 * (Zpos m * 2 ^ (e + 1074)))
      with (Zpos p * 2 ^ (e + 1074)) by (rewrite Hp; ring).
    split; [apply Z.mul_le_mono_nonneg_r | apply Z.mul_lt_mono_pos_r]; lia. }
  assert (HL : d + e0 <= 8).
  { assert (2 ^ (d + e0 - 1 + 1119) < 2 ^ (8 + 1119)).
    { eapply Z.le_lt_trans; [apply HW|].
      replace (8 + 1119) with (8 + 45 + 1074) by lia.
      rewrite !Z.pow_add_r by lia. change (2 ^ 8) with 256. nia. }
    apply pow2_lt_inv in H; lia. }
  set (E := Z.max (d + e0 - 53) (-1074)).
  assert (HE45 : E <= -45) by lia.
  assert (HeE : e0 < E).
  { destruct (Z.eq_dec e (-1074)) as [->|Hne]; [unfold e0; lia|].
    specialize (Hm52 ltac:(lia)).
    assert (2 ^ 104 < 2 ^ d).
    { eapply Z.le_lt_trans; [|exact Hhi]. rewrite Hp.
      change (2 ^ 104) with (128 * 2 ^ 45 * 2 ^ 52). nia. }
    apply pow2_lt_inv in H; lia. }
  destruct (binary_round_aux_shift p e0 HeE ltac:(lia)) as (q & Hrne & Hres).
  fold d E in Hrne, Hres.
  assert (Hrne' : is_rne (255 * 2 ^ 45 * scaled m e) (2 ^ (E + 1119)) q).
  { apply (is_rne_scale _ _ _ (2 ^ (e0 + 1119))) in Hrne; [|apply pow2_pos; unfold e0; lia].
    rewrite <- Z.pow_add_r in Hrne by lia.
    replace (E - e0 + (e0 + 1119)) with (E + 1119) in Hrne by lia.
    replace (Zpos p * 2 ^ (e0 + 1119)) with (255 * 2 ^ 45 * scaled m e) in Hrne;
      [exact Hrne|].
    unfold scaled, e0. replace (e + -45 + 1119) with (e + 1074) by lia.
    rewrite Hp. ring. }
  (* the rounded mantissa is at most 255 at its unit *)
  assert (HU : 0 < 2 ^ (E + 1119)) by (apply pow2_pos; lia).
  assert (HV : 0 < 2 ^ (E + 1074)) by (apply pow2_pos; lia).
  assert (Hq : q <= 255 * 2 ^ (- E)).
  { assert (Hle : q * 2 ^ (E + 1119) <= (255 * 2 ^ (- E)) * 2 ^ (E + 1119)).
    { apply (is_rne_le _ _ _ _ Hrne').
      assert (HT : 2 ^ (- E) * 2 ^ (E + 1119) = 2 ^ 45 * 2 ^ 1074)
        by (rewrite <- !Z.pow_add_r by lia; f_equal; lia).
      replace (255 * 2 ^ (- E) * 2 ^ (E + 1119)) with (255 * (2 ^ 45 * 2 ^ 1074))
        by (rewrite <- HT; ring).
      assert (0 < 255 * 2 ^ 45) by lia.
      replace (255 * (2 ^ 45 * 2 ^ 1074)) with (255 * 2 ^ 45 * 2 ^ 1074) by ring.
      apply Z.mul_le_mono_nonneg_l; lia. }
    apply (Z.mul_le_mono_pos_r _ _ (2 ^ (E + 1119))); assumption. }
  assert (Hbound : q * 2 ^ (E + 1074) <= 255 * 2 ^ 1074).
  { replace (2 ^ 1074) with (2 ^ (- E) * 2 ^ (E + 1074)).
    - rewrite Z.mul_assoc. apply Z.mul_le_mono_nonneg_r; lia.
    - rewrite <- Z.pow_add_r by lia. f_equal. lia. }
  rewrite Hmul.
  destruct Hres as [[_ Hr]|[(q' & Hq' & _ & Hr)|[Hq' Hr]]]; rewrite Hr.
  - now left.
  - right. exists q', E. split; [reflexivity|]. unfold scaled. now rewrite <- Hq'.
  - right. exists 4503599627370496%positive, (E + 1). split; [reflexivity|].
    unfold scaled. replace (E + 1 + 1074) with (1 + (E + 1074)) by lia.
    rewrite Z.pow_add_r by lia.
    change (Zpos 4503599627370496 * (2 ^ 1 * 2 ^ (E + 1074)))
      with (Zpos 4503599627370496 * (2 * 2 ^ (E + 1074))).
    rewrite Hq' in Hbound. change (2 ^ 53) with (4503599627370496 * 2) in Hbound.
    lia.
Qed.

Lemma mul255_not_above (x : float) (m : positive) (e : Z) :
  Prim2SF x = S754_finite false m e ->
  bounded prec emax m e = true ->
  scaled m e <= 2 ^ 1074 ->
  (255 <? x * 255)%float = false.
Proof.
  intros Hx Hb Hs. rewrite FloatAxioms.ltb_spec, Prim2SF_255.
  pose proof (Prim2SF_valid (x * 255)) as Hvalid.
  destruct (mul255_value x m e Hx Hb Hs) as [Hz | (m' & e' & Hv & Hle)].
  - now rewrite Hz.
  - rewrite Hv in *. unfold SFltb.
    rewrite (SFcompare_scaled _ _ _ _ bounded_255 Hvalid), scaled_255.
    destruct (Z.compare_spec (255 * 2 ^ 1074) (scaled m' e')); try reflexivity; lia.
Qed.

(** The scale factors of two roughness scalars of [0, 1] in the other
    order. *)
Lemma scale_factors_rev (mr pr : float) :
  (0 <=? pr)%float = true ->
  (pr <=? mr)%float = true ->
  (mr <=? 1)%float = true ->
  exists M P,
    0 <= P <= M /\ M <= 255
    /\ textureUtils.metalRoughVal mr = Js.of_Z M
    /\ (textureUtils.paperRoughVal pr = Js.of_Z P
        \/ textureUtils.paperRoughVal pr = (-0)%float).
Proof.
  intros H0 Hle H1.
  pose proof (leb_trans _ _ _ Hle H1) as Hp1.
  pose proof (leb_trans _ _ _ H0 Hle) as Hm0.
  destruct (unit_interval mr Hm0 H1)
    as [Hmz|(mm & me & Hm & Hmb & Hms)];
    destruct (unit_interval pr H0 Hp1)
      as [Hpz|(pm & pe & Hp & Hpb & Hps)].
  - exists 0, 0.
    assert (HM : textureUtils.metalRoughVal mr = Js.of_Z 0)
      by (destruct Hmz as [-> | ->]; reflexivity).
    repeat split; try lia; [exact HM|].
    destruct Hpz as [-> | ->]; [left | right]; reflexivity.
  - exfalso. rewrite FloatAxioms.leb_spec, Hp in Hle.
    destruct Hmz as [-> | ->]; discriminate.
  - destruct (mul255_floor mr mm me Hm Hmb Hms) as (FM & HFM & HflM & _).
    pose proof (rounds255_range _ _ HFM Hms) as HFMr.
    exists FM, 0. repeat split; try lia.
    + rewrite (metalRoughVal_finite mr mm me Hm H1). exact HflM.
    + destruct Hpz as [-> | ->]; [left | right]; reflexivity.
  - destruct (mul255_floor mr mm me Hm Hmb Hms) as (FM & HFM & HflM & _).
    destruct (mul255_floor pr pm pe Hp Hpb Hps) as (FP & HFP & HflP & Hnan).
    pose proof (rounds255_range _ _ HFM Hms) as HFMr.
    pose proof (rounds255_range _ _ HFP Hps) as HFPr.
    assert (Hs : scaled pm pe <= scaled mm me).
    { rewrite FloatAxioms.leb_spec, Hm, Hp in Hle. unfold SFleb in Hle.
      rewrite (SFcompare_scaled _ _ _ _ Hpb Hmb) in Hle.
      destruct (Z.compare_spec (scaled pm pe) (scaled mm me)); try discriminate; lia. }
    pose proof (rounds255_mono _ _ _ _ HFP HFM Hs) as Hmono.
    exists FM, FP. repeat split; try lia.
    + rewrite (metalRoughVal_finite mr mm me Hm H1). exact HflM.
    + left. unfold textureUtils.paperRoughVal.
      rewrite (Math_min_255 _ Hnan), (mul255_not_above pr pm pe Hp Hpb Hps).
      exact HflP.
Qed.

End PaperScaleFactor.

(** The samples stored at unvarnished pixels, as a function of the
    white-ink sample: descending when the paper is the smoother of the two,
    and equal to the two scale factors at the samples 0 and 255. *)
Lemma roughness_sample_antitone (mr pr : float) (r1 r2 : Z) :
  (0 <=? pr)%float = true ->
  (pr <=? mr)%float = true ->
  (mr <=? 1)%float = true ->
  0 <= r1 <= r2 -> r2 <= 255 ->
  roughness_sample mr pr (Some r2) false <= roughness_sample mr pr (Some r1) false.
Proof.
  intros H0 Hle H1 Hr1 Hr2.
  destruct (Z.eq_dec r1 r2) as [->|Hne]; [lia|].
  destruct (scale_factors_rev mr pr H0 Hle H1) as (M & P & HP & HM & Hm & Hp).
  unfold roughness_sample, textureUtils.roughVal.
  apply ToUint8Clamp_mono.
  apply (interpolated_antitone _ _ M P); try assumption; lia.
Qed.

Lemma roughness_sample_ends (mr pr : float) :
  PrimFloat.is_nan mr = false ->
  (0 <=? pr)%float = true -> (pr <=? 1)%float = true ->
  roughness_sample mr pr (Some 0) false
  = Js.ToUint8Clamp (textureUtils.metalRoughVal mr)
  /\ roughness_sample mr pr (Some 255) false
     = Js.ToUint8Clamp (textureUtils.paperRoughVal pr).
Proof.
  intros Hn H0 H1.
  destruct (metalRoughVal_integer mr Hn) as (M & HM & Hm).
  destruct (paperRoughVal_integer pr H0 H1) as (P & HP & Hp).
  destruct (stored_ends _ _ M P HM HP Hm Hp) as (E0 & E255 & EM & EP).
  unfold roughness_sample, textureUtils.roughVal. unfold stored in E0, E255.
  rewrite E0, E255, EM, EP. split; reflexivity.
Qed.

Lemma roughness_sample_between (mr pr : float) (r : Z) :
  (0 <=? mr)%float = true -> (mr <=? 1)%float = true ->
  (0 <=? pr)%float = true -> (pr <=? 1)%float = true ->
  0 <= r <= 255 ->
  let M := Js.ToUint8Clamp (textureUtils.metalRoughVal mr) in
  let P := Js.ToUint8Clamp (textureUtils.paperRoughVal pr) in
  Z.min M P <= roughness_sample mr pr (Some r) false <= Z.max M P.
Proof.
  intros Hm0 Hm1 Hp0 Hp1 Hr M P.
  pose proof (leb_not_nan_l _ _ Hm1) as Hnm.
  pose proof (leb_not_nan_l _ _ Hp1) as Hnp.
  destruct (roughness_sample_ends mr pr Hnm Hp0 Hp1) as [E0 E255].
  fold M in E0. fold P in E255.
  destruct (mr <? pr)%float eqn:Hlt.
  - pose proof (ltb_leb _ _ Hlt) as Hle.
    pose proof (roughness_sample_mono mr pr 0 r Hm0 Hle Hp1 ltac:(lia) ltac:(lia)).
    pose proof (roughness_sample_mono mr pr r 255 Hm0 Hle Hp1 ltac:(lia) ltac:(lia)).
    lia.
  - pose proof (ltb_false_leb _ _ Hnm Hnp Hlt) as Hle.
    pose proof (roughness_sample_antitone mr pr 0 r Hp0 Hle Hm1 ltac:(lia) ltac:(lia)).
    pose proof (roughness_sample_antitone mr pr r 255 Hp0 Hle Hm1 ltac:(lia) ltac:(lia)).
    lia.
Qed.

(** * The roughness map of a resolved call *)

Section RoughnessMap.
Import textureUtils.
Local Open Scope nat_scope.

(** Each colour sample of the roughness map is the roughness sample of its
    pixel, computed from a white-ink sample of [0, 255]. *)
Lemma resolved_roughness load ctx mr pr tw th img varnish maps :
  processTextureMaps load ctx mr pr tw th img varnish = Resolved maps ->
  let w := canvas_width tw (loaded load img) (loaded load varnish) in
  let h := canvas_height th (loaded load img) (loaded load varnish) in
  let whiteInkData := whiteInkData_of (loaded load img) w h in
  let varnishData := varnishData_of (loaded load varnish) w h in
  forall k c, k < w * h -> c < 3 ->
    exists r,
      whiteInkData !! (4 * k) = Some r /\ (0 <= r <= 255)%Z
      /\ data (roughnessMap maps) !! (4 * k + c)
         = Some (roughness_sample mr pr (Some r) (varnished varnishData (4 * k))).
Proof.
  intros Hres w h ink vd k c Hk Hc.
  apply processTextureMaps_Resolved, runProcessing_inv in Hres.
  destruct Hres as (_ & Hrough & _). rewrite Hrough.
  destruct (final_roughnessData mr pr tw th (loaded load img) (loaded load varnish))
    as [_ Hat].
  fold w h in Hat. fold ink vd in Hat.
  destruct (whiteInkData_red tw th (loaded load img) (loaded load varnish) k Hk)
    as (r & Hr & Hrange).
  fold w h ink in Hr.
  exists r. split; [exact Hr|]. split; [exact Hrange|].
  rewrite Hat by lia. rewrite Hr.
  destruct (Nat.ltb_spec c 3); [reflexivity | lia].
Qed.

Lemma whiteInkData_of_length wi w h :
  length (whiteInkData_of wi w h) = 4 * (w * h).
Proof.
  unfold whiteInkData_of. destruct wi as [img|].
  - apply (invert_spec (w * h)), rasterize_length.
  - rewrite length_replicate. lia.
Qed.

(** The clearcoat array is written from the varnish samples alone. *)
Lemma final_clearcoatData_independent mr pr tw th mr' pr' tw' th' wi wi' vi :
  canvas_width tw wi vi = canvas_width tw' wi' vi ->
  canvas_height th wi vi = canvas_height th' wi' vi ->
  clearcoatData (final_buffers mr pr tw th wi vi)
  = clearcoatData (final_buffers mr' pr' tw' th' wi' vi).
Proof.
  intros Hw Hh. destruct vi as [vImg|].
  - unfold final_buffers, pixel_loop, for_step4.
    rewrite <- Hw, <- Hh.
    set (w := canvas_width tw wi (Some vImg)).
    set (h := canvas_height th wi (Some vImg)).
    rewrite !whiteInkData_of_length.
    erewrite !fold_pixel_clearcoatData;
      try (unfold initial_buffers; cbn [clearcoatData];
           rewrite whiteInkData_of_length);
      reflexivity.
  - now rewrite !final_clearcoatData_None.
Qed.

(** The clearcoat map of a run, if it resolves. *)
Definition clearcoat_of (o : outcome) : option (option ImageData) :=
  match o with
  | Resolved maps => Some (clearcoatMap maps)
  | _ => None
  end.

End RoughnessMap.

(** X4.  A resolved call returns a clearcoat map exactly when a varnish
    source was supplied and has loaded. *)
Theorem clearcoat_map_iff_varnish_loaded
    (load : string -> option textureUtils.HTMLImageElement) (ctx : bool)
    (mr pr : float) (tw th : nat) (img varnish : option string)
    (maps : textureUtils.TextureMaps) :
  textureUtils.processTextureMaps load ctx mr pr tw th img varnish
  = textureUtils.Resolved maps ->
  (is_Some (textureUtils.clearcoatMap maps) <-> is_Some (loaded load varnish)).
Proof.
  intros Hres. apply processTextureMaps_Resolved, runProcessing_inv in Hres.
  destruct Hres as (_ & _ & Hcoat & _).
  destruct (loaded load varnish) as [vImg|] eqn:Hv.
  - destruct (final_clearcoatData_Some mr pr tw th (loaded load img) (Some vImg)
                vImg eq_refl) as (cd & Hcd & _).
    rewrite Hcd in Hcoat.
    destruct (textureUtils.clearcoatMap maps); [|discriminate].
    split; eauto.
  - rewrite (final_clearcoatData_None mr pr tw th (loaded load img) None eq_refl)
      in Hcoat.
    destruct (textureUtils.clearcoatMap maps); [discriminate|].
    split; intros [? [=]].
Qed.

Lemma clearcoat_map_iff_varnish_loaded_witness :
  exists maps,
    textureUtils.processTextureMaps example_load true 0.2 1.0 1024 1024
      (Some "white"%string) (Some "broken"%string)
    = textureUtils.Resolved maps
    /\ (is_Some (textureUtils.clearcoatMap maps)
        <-> is_Some (loaded example_load (Some "broken"%string))).
Proof.
  eexists. split; [reflexivity|].
  exact (clearcoat_map_iff_varnish_loaded example_load true 0.2 1.0 1024 1024
           (Some "white"%string) (Some "broken"%string) _ eq_refl).
Defined.

(** X5.  Without a white-ink source the whole sheet is paper: in a resolved
    call every colour sample of the metalness map is 0 and, for a metal
    roughness that is not [NaN] and a paper roughness of [0, 1], every
    colour sample of the roughness map is the paper scale factor, or 5
    where the pixel is varnished. *)
Theorem no_white_mask_is_paper
    (load : string -> option textureUtils.HTMLImageElement) (ctx : bool)
    (mr pr : float) (tw th : nat) (img varnish : option string)
    (maps : textureUtils.TextureMaps) :
  textureUtils.processTextureMaps load ctx mr pr tw th img varnish
  = textureUtils.Resolved maps ->
  supplied img = false ->
  let w := textureUtils.canvas_width tw None (loaded load varnish) in
  let h := textureUtils.canvas_height th None (loaded load varnish) in
  let varnishData := textureUtils.varnishData_of (loaded load varnish) w h in
  forall k c, (k < w * h)%nat -> (c < 3)%nat ->
    textureUtils.data (textureUtils.metalnessMap maps) !! (4 * k + c)%nat = Some 0
    /\ (PrimFloat.is_nan mr = false ->
        (0 <=? pr)%float = true -> (pr <=? 1)%float = true ->
        textureUtils.data (textureUtils.roughnessMap maps) !! (4 * k + c)%nat
        = Some (if varnished varnishData (4 * k)
                then 5
                else Js.ToUint8Clamp (textureUtils.paperRoughVal pr))).
Proof.
  intros Hres Himg w h vd k c Hk Hc.
  assert (Hl : loaded load img = None) by (unfold loaded; now rewrite Himg).
  split.
  - apply processTextureMaps_Resolved, runProcessing_inv in Hres.
    destruct Hres as (Hm & _). rewrite Hm, Hl.
    destruct (final_metalnessData mr pr tw th None (loaded load varnish))
      as [_ Hmat].
    fold w h in Hmat. rewrite Hmat by lia.
    assert (Hink : textureUtils.whiteInkData_of None w h !! (4 * k)%nat = Some 255).
    { simpl. apply lookup_replicate_2. lia. }
    rewrite Hink. destruct (Nat.ltb_spec c 3); [reflexivity | lia].
  - intros Hn H0 H1.
    pose proof (resolved_roughness load ctx mr pr tw th img varnish maps Hres) as Hat.
    cbv zeta in Hat. rewrite Hl in Hat. fold w h in Hat. fold vd in Hat.
    destruct (Hat k c Hk Hc) as (r & Hr & _ & Hs).
    assert (r = 255) as ->.
    { simpl in Hr. rewrite lookup_replicate_2 in Hr by lia. congruence. }
    rewrite Hs. f_equal. destruct (varnished vd (4 * k)); [reflexivity|].
    apply (proj2 (roughness_sample_ends mr pr Hn H0 H1)).
Qed.

Lemma no_white_mask_is_paper_witness :
  exists maps,
    textureUtils.processTextureMaps example_load true 0.2 1.0 1024 1024
      None (Some "varnish3"%string)
    = textureUtils.Resolved maps
    /\ textureUtils.data (textureUtils.metalnessMap maps) !! 4%nat = Some 0
    /\ textureUtils.data (textureUtils.roughnessMap maps) !! 4%nat = Some 255.
Proof.
  eexists. split; [reflexivity|].
  destruct (no_white_mask_is_paper example_load true 0.2 1.0 1024 1024
              None (Some "varnish3"%string) _ eq_refl eq_refl 1%nat 0%nat
              ltac:(vm_compute; lia) ltac:(lia)) as [Hm Hr].
  split; [exact Hm|]. exact (Hr eq_refl eq_refl eq_refl).
Defined.

(** X6.  When a resolved call returns a clearcoat map, at every pixel
    either the clearcoat sample is 255 and the roughness sample is 5, or the
    clearcoat sample is 0 and the roughness sample is the interpolated value
    of the white-ink sample. *)
Theorem varnished_pixels_are_glossy
    (load : string -> option textureUtils.HTMLImageElement) (ctx : bool)
    (mr pr : float) (tw th : nat) (img varnish : option string)
    (maps : textureUtils.TextureMaps) (coat : textureUtils.ImageData) :
  textureUtils.processTextureMaps load ctx mr pr tw th img varnish
  = textureUtils.Resolved maps ->
  textureUtils.clearcoatMap maps = Some coat ->
  let w := textureUtils.canvas_width tw (loaded load img) (loaded load varnish) in
  let h := textureUtils.canvas_height th (loaded load img) (loaded load varnish) in
  let whiteInkData := textureUtils.whiteInkData_of (loaded load img) w h in
  forall k, (k < w * h)%nat ->
    (textureUtils.data coat !! (4 * k)%nat = Some 255
     /\ textureUtils.data (textureUtils.roughnessMap maps) !! (4 * k)%nat = Some 5)
    \/ (textureUtils.data coat !! (4 * k)%nat = Some 0
        /\ textureUtils.data (textureUtils.roughnessMap maps) !! (4 * k)%nat
           = Some (Js.ToUint8Clamp
                     (textureUtils.roughVal mr pr (whiteInkData !! (4 * k)%nat)))).
Proof.
  intros Hres Hcoat w h ink k Hk.
  apply processTextureMaps_Resolved, runProcessing_inv in Hres.
  destruct Hres as (_ & Hr & Hc & _). rewrite Hr.
  destruct (loaded load varnish) as [vImg|] eqn:Hv.
  - destruct (final_clearcoatData_Some mr pr tw th (loaded load img) (Some vImg)
                vImg eq_refl) as (cd & Hcd & _ & Hcat).
    rewrite Hcd, Hcoat in Hc. injection Hc as ->.
    destruct (final_roughnessData mr pr tw th (loaded load img) (Some vImg))
      as [_ Hrat].
    fold w h in Hcat, Hrat. fold ink in Hrat.
    pose proof (Hcat k 0%nat Hk ltac:(lia)) as Hc0.
    pose proof (Hrat k 0%nat Hk ltac:(lia)) as Hr0.
    rewrite Nat.add_0_r in Hc0, Hr0. cbn [Nat.ltb Nat.leb] in Hc0, Hr0.
    rewrite Hc0, Hr0.
    destruct (varnished _ (4 * k)); [left | right]; split; reflexivity.
  - rewrite (final_clearcoatData_None mr pr tw th (loaded load img) None eq_refl),
      Hcoat in Hc. discriminate.
Qed.

Lemma varnished_pixels_are_glossy_witness :
  exists maps coat,
    textureUtils.processTextureMaps example_load true 0.2 1.0 1024 1024
      (Some "white"%string) (Some "varnish3"%string)
    = textureUtils.Resolved maps
    /\ textureUtils.clearcoatMap maps = Some coat
    /\ ((textureUtils.data coat !! 0%nat = Some 255
         /\ textureUtils.data (textureUtils.roughnessMap maps) !! 0%nat = Some 5)
        \/ (textureUtils.data coat !! 0%nat = Some 0
            /\ textureUtils.data (textureUtils.roughnessMap maps) !! 0%nat
               = Some 255)).
Proof.
  eexists _, _. split; [reflexivity|]. split; [reflexivity|].
  exact (varnished_pixels_are_glossy example_load true 0.2 1.0 1024 1024
           (Some "white"%string) (Some "varnish3"%string) _ _ eq_refl eq_refl
           0%nat ltac:(vm_compute; lia)).
Defined.

(** X7.  The inversion of the white-ink samples and the [255 - r] of the
    pixel loop cancel: in a resolved call with a white-ink mask every colour
    sample of the metalness map is the red sample of the white-ink image as
    it was drawn on the canvas. *)
Theorem metalness_is_white_mask
    (load : string -> option textureUtils.HTMLImageElement) (ctx : bool)
    (mr pr : float) (tw th : nat) (img varnish : option string)
    (maps : textureUtils.TextureMaps) (whiteImg : textureUtils.HTMLImageElement) :
  textureUtils.processTextureMaps load ctx mr pr tw th img varnish
  = textureUtils.Resolved maps ->
  loaded load img = Some whiteImg ->
  let w := textureUtils.width whiteImg in
  let h := textureUtils.height whiteImg in
  forall k c, (k < w * h)%nat -> (c < 3)%nat ->
    textureUtils.data (textureUtils.metalnessMap maps) !! (4 * k + c)%nat
    = textureUtils.rasterize whiteImg w h !! (4 * k)%nat.
Proof.
  intros Hres Hl w h k c Hk Hc.
  apply processTextureMaps_Resolved, runProcessing_inv in Hres.
  destruct Hres as (Hm & _). rewrite Hm, Hl.
  destruct (final_metalnessData mr pr tw th (Some whiteImg) (loaded load varnish))
    as [_ Hmat].
  cbn [textureUtils.canvas_width textureUtils.canvas_height] in Hmat.
  fold w h in Hmat. rewrite Hmat by lia.
  destruct (invert_rasterize whiteImg w h k 0 Hk ltac:(lia)) as (v & Hv & Hrange & Hinv).
  rewrite Nat.add_0_r in Hv, Hinv.
  cbn [textureUtils.whiteInkData_of]. rewrite Hinv, Hv.
  destruct (Nat.ltb_spec c 3); [|lia].
  cbn [textureUtils.metalVal]. rewrite clamp8_id by lia. f_equal. lia.
Qed.

Lemma metalness_is_white_mask_witness :
  exists maps,
    textureUtils.processTextureMaps example_load true 0.2 1.0 1024 1024
      (Some "white"%string) (Some "varnish3"%string)
    = textureUtils.Resolved maps
    /\ textureUtils.data (textureUtils.metalnessMap maps) !! 9%nat = Some 255.
Proof.
  eexists. split; [reflexivity|].
  exact (metalness_is_white_mask example_load true 0.2 1.0 1024 1024
           (Some "white"%string) (Some "varnish3"%string) _
           (Grayscale.image 2 2 [0; 0; 255; 255]) eq_refl eq_refl
           2%nat 1%nat ltac:(vm_compute; lia) ltac:(lia)).
Defined.

(** X8.  The clearcoat map of a run depends on the varnish image and on
    the size of the canvas alone: two runs with the same varnish image and
    canvases of one size, whatever their white-ink images, roughness
    scalars and default sizes, either both fail to resolve or resolve with
    the same clearcoat map (or both with none). *)
Theorem clearcoat_depends_on_varnish_only (ctx : bool)
    (mr pr : float) (tw th : nat) (mr' pr' : float) (tw' th' : nat)
    (wi wi' vi : option textureUtils.HTMLImageElement) :
  textureUtils.canvas_width tw wi vi = textureUtils.canvas_width tw' wi' vi ->
  textureUtils.canvas_height th wi vi = textureUtils.canvas_height th' wi' vi ->
  clearcoat_of (textureUtils.runProcessing ctx mr pr tw th wi vi)
  = clearcoat_of (textureUtils.runProcessing ctx mr' pr' tw' th' wi' vi).
Proof.
  intros Hw Hh.
  pose proof (final_clearcoatData_independent mr pr tw th mr' pr' tw' th' wi wi' vi
                Hw Hh) as Hcd.
  unfold final_buffers in Hcd.
  unfold textureUtils.runProcessing. destruct ctx; [|reflexivity].
  cbv zeta. cbn [negb]. rewrite <- Hcd, <- Hw, <- Hh.
  destruct (_ || _)%nat; reflexivity.
Qed.

Lemma clearcoat_depends_on_varnish_only_witness :
  let varnish := Some (Grayscale.image 1 3 [0; 200; 255]) in
  clearcoat_of
    (textureUtils.runProcessing true 0.2 1.0 1024 1024
       (Some (Grayscale.image 2 2 [0; 0; 255; 255])) varnish)
  = clearcoat_of
      (textureUtils.runProcessing true 0.9 0.1 16 16
         (Some (Grayscale.image 2 2 [9; 99; 199; 255])) varnish)
  /\ is_Some
       (clearcoat_of
          (textureUtils.runProcessing true 0.2 1.0 1024 1024
             (Some (Grayscale.image 2 2 [0; 0; 255; 255])) varnish)).
Proof.
  split.
  - apply clearcoat_depends_on_varnish_only; reflexivity.
  - eexists. reflexivity.
Defined.

(** X9.  On an array of whole pixels with samples of [0, 255] the inversion
    loop undoes itself, and it leaves every alpha sample as it is. *)
Theorem invert_involutive (n : nat) (d : list Z) :
  length d = (4 * n)%nat ->
  Forall (fun v => 0 <= v <= 255) d ->
  textureUtils.invert (textureUtils.invert d) = d
  /\ forall k, textureUtils.invert d !! (4 * k + 3)%nat = d !! (4 * k + 3)%nat.
Proof.
  intros Hlen Hrange.
  destruct (invert_spec n d Hlen) as [Hlen1 Hat1].
  destruct (invert_spec n (textureUtils.invert d) Hlen1) as [Hlen2 Hat2].
  rewrite Forall_lookup in Hrange.
  split.
  - apply list_eq. intros i.
    destruct (Nat.lt_ge_cases i (4 * n)) as [Hlt|Hge].
    + pose proof (Nat.div_mod_eq i 4) as Hdm.
      pose proof (Nat.mod_upper_bound i 4 ltac:(lia)) as Hc.
      remember (i / 4)%nat as k eqn:Hk. remember (i mod 4)%nat as c eqn:Hcc.
      rewrite Hdm. rewrite Hat2, Hat1 by lia.
      destruct (lookup_lt_is_Some_2 d (4 * k + c)%nat ltac:(lia)) as [v Hv].
      rewrite Hv. pose proof (Hrange _ _ Hv) as Hvr.
      unfold inverted_sample. destruct (c <? 3)%nat; [|reflexivity].
      f_equal. unfold textureUtils.clamp8. lia.
    + rewrite !lookup_ge_None_2 by lia. reflexivity.
  - intros k. destruct (Nat.lt_ge_cases k n) as [Hlt|Hge].
    + rewrite Hat1 by lia.
      destruct (lookup_lt_is_Some_2 d (4 * k + 3)%nat ltac:(lia)) as [v Hv].
      rewrite Hv. reflexivity.
    + rewrite !lookup_ge_None_2 by lia. reflexivity.
Qed.

Lemma invert_involutive_witness :
  textureUtils.invert (textureUtils.invert [0; 10; 255; 77; 200; 1; 2; 255])
  = [0; 10; 255; 77; 200; 1; 2; 255].
Proof.
  apply (invert_involutive 2); [reflexivity|].
  repeat constructor; lia.
Defined.

(** X10.  The metal scale factor is clamped whatever the scalar: for every
    [metalRoughness] other than [NaN], infinite ones included,
    [metalRoughVal] is an integer of [0, 255]; it is 0 for every scalar
    that is at most 0 and 255 for every scalar that is at least 1. *)
Theorem metalRoughVal_clamped (mr : float) :
  PrimFloat.is_nan mr = false ->
  (exists M, 0 <= M <= 255 /\ textureUtils.metalRoughVal mr = Js.of_Z M)
  /\ ((mr <=? 0)%float = true -> textureUtils.metalRoughVal mr = 0%float)
  /\ ((1 <=? mr)%float = true -> textureUtils.metalRoughVal mr = 255%float).
Proof.
  intros Hn. split; [now apply metalRoughVal_integer|].
  split; [apply metalRoughVal_below | apply metalRoughVal_above].
Qed.

Lemma metalRoughVal_clamped_witness :
  textureUtils.metalRoughVal 7.5 = 255%float
  /\ textureUtils.metalRoughVal PrimFloat.neg_infinity = 0%float.
Proof.
  split.
  - apply (proj2 (proj2 (metalRoughVal_clamped 7.5 eq_refl))). reflexivity.
  - apply (proj1 (proj2 (metalRoughVal_clamped PrimFloat.neg_infinity eq_refl))).
    reflexivity.
Defined.

(** X11.  When one of the two roughness scalars is [NaN], every colour
    sample of the roughness map of a resolved call is 0, or 5 where the
    pixel is varnished. *)
Theorem nan_scalar_zero_roughness
    (load : string -> option textureUtils.HTMLImageElement) (ctx : bool)
    (mr pr : float) (tw th : nat) (img varnish : option string)
    (maps : textureUtils.TextureMaps) :
  textureUtils.processTextureMaps load ctx mr pr tw th img varnish
  = textureUtils.Resolved maps ->
  PrimFloat.is_nan mr = true \/ PrimFloat.is_nan pr = true ->
  let w := textureUtils.canvas_width tw (loaded load img) (loaded load varnish) in
  let h := textureUtils.canvas_height th (loaded load img) (loaded load varnish) in
  let varnishData := textureUtils.varnishData_of (loaded load varnish) w h in
  forall k c, (k < w * h)%nat -> (c < 3)%nat ->
    textureUtils.data (textureUtils.roughnessMap maps) !! (4 * k + c)%nat
    = Some (if varnished varnishData (4 * k) then 5 else 0).
Proof.
  intros Hres Hnan w h vd k c Hk Hc.
  destruct (resolved_roughness load ctx mr pr tw th img varnish maps Hres k c Hk Hc)
    as (r & _ & _ & Hs).
  fold w h in Hs. fold vd in Hs. rewrite Hs. f_equal.
  destruct (varnished vd (4 * k)); [reflexivity|].
  now apply roughness_sample_nan.
Qed.

Lemma nan_scalar_zero_roughness_witness :
  exists maps,
    textureUtils.processTextureMaps example_load true PrimFloat.nan 1.0 1024 1024
      (Some "white"%string) (Some "varnish3"%string)
    = textureUtils.Resolved maps
    /\ textureUtils.data (textureUtils.roughnessMap maps) !! 0%nat = Some 5
    /\ textureUtils.data (textureUtils.roughnessMap maps) !! 8%nat = Some 0.
Proof.
  eexists. split; [reflexivity|].
  pose proof (nan_scalar_zero_roughness example_load true PrimFloat.nan 1.0
                1024 1024 (Some "white"%string) (Some "varnish3"%string) _
                eq_refl (or_introl eq_refl)) as H.
  split.
  - exact (H 0%nat 0%nat ltac:(vm_compute; lia) ltac:(lia)).
  - exact (H 2%nat 0%nat ltac:(vm_compute; lia) ltac:(lia)).
Defined.

(** X12.  The interpolation is exact at its two ends: for a metal roughness
    that is not [NaN] and a paper roughness of [0, 1], in a resolved call
    with a white-ink mask an unvarnished pixel whose white-ink red sample
    is 255 gets the metal scale factor as its roughness sample and one whose
    red sample is 0 gets the paper scale factor. *)
Theorem roughness_at_mask_extremes
    (load : string -> option textureUtils.HTMLImageElement) (ctx : bool)
    (mr pr : float) (tw th : nat) (img varnish : option string)
    (maps : textureUtils.TextureMaps) (whiteImg : textureUtils.HTMLImageElement) :
  textureUtils.processTextureMaps load ctx mr pr tw th img varnish
  = textureUtils.Resolved maps ->
  loaded load img = Some whiteImg ->
  PrimFloat.is_nan mr = false ->
  (0 <=? pr)%float = true -> (pr <=? 1)%float = true ->
  let w := textureUtils.width whiteImg in
  let h := textureUtils.height whiteImg in
  let varnishData := textureUtils.varnishData_of (loaded load varnish) w h in
  forall k c, (k < w * h)%nat -> (c < 3)%nat ->
    varnished varnishData (4 * k) = false ->
    (textureUtils.rasterize whiteImg w h !! (4 * k)%nat = Some 255 ->
     textureUtils.data (textureUtils.roughnessMap maps) !! (4 * k + c)%nat
     = Some (Js.ToUint8Clamp (textureUtils.metalRoughVal mr)))
    /\ (textureUtils.rasterize whiteImg w h !! (4 * k)%nat = Some 0 ->
        textureUtils.data (textureUtils.roughnessMap maps) !! (4 * k + c)%nat
        = Some (Js.ToUint8Clamp (textureUtils.paperRoughVal pr))).
Proof.
  intros Hres Hl Hn H0 H1 w h vd k c Hk Hc Hv.
  pose proof (resolved_roughness load ctx mr pr tw th img varnish maps Hres) as Hat.
  cbv zeta in Hat. rewrite Hl in Hat.
  cbn [textureUtils.canvas_width textureUtils.canvas_height] in Hat.
  fold w h in Hat. fold vd in Hat.
  destruct (Hat k c Hk Hc) as (r & Hr & _ & Hs). rewrite Hv in Hs.
  destruct (invert_rasterize whiteImg w h k 0 Hk ltac:(lia)) as (v & Hraw & _ & Hinv).
  rewrite Nat.add_0_r in Hraw, Hinv.
  cbn [textureUtils.whiteInkData_of] in Hr.
  assert (Hrv : r = 255 - v) by congruence.
  destruct (roughness_sample_ends mr pr Hn H0 H1) as [E0 E255].
  split; intros Hsample; rewrite Hs; f_equal;
    (assert (v = 255 \/ v = 0) as [-> | ->] by (rewrite Hraw in Hsample; injection Hsample; lia));
    subst r; try discriminate; try assumption;
    rewrite Hraw in Hsample; discriminate.
Qed.

Lemma roughness_at_mask_extremes_witness :
  exists maps,
    textureUtils.processTextureMaps example_load true 0.2 1.0 1024 1024
      (Some "white"%string) None
    = textureUtils.Resolved maps
    /\ textureUtils.data (textureUtils.roughnessMap maps) !! 8%nat = Some 51
    /\ textureUtils.data (textureUtils.roughnessMap maps) !! 0%nat = Some 255.
Proof.
  eexists. split; [reflexivity|].
  pose proof (roughness_at_mask_extremes example_load true 0.2 1.0 1024 1024
                (Some "white"%string) None _
                (Grayscale.image 2 2 [0; 0; 255; 255])
                eq_refl eq_refl eq_refl eq_refl eq_refl) as H.
  split.
  - exact (proj1 (H 2%nat 0%nat ltac:(vm_compute; lia) ltac:(lia) eq_refl) eq_refl).
  - exact (proj2 (H 0%nat 0%nat ltac:(vm_compute; lia) ltac:(lia) eq_refl) eq_refl).
Defined.

(** X13.  For roughness scalars with [0 <= paperRoughness <=
    metalRoughness <= 1], the roughness sample of a pixel that is not
    varnished is a non-increasing function of the inverted white-ink sample
    over [0, 255]; so in a resolved run, of two pixels that are not
    varnished the one with the larger white-ink sample has the smaller or
    equal roughness sample. *)
Theorem roughness_antitone (mr pr : float) :
  (0 <=? pr)%float = true ->
  (pr <=? mr)%float = true ->
  (mr <=? 1)%float = true ->
  (forall r1 r2, 0 <= r1 <= r2 -> r2 <= 255 ->
     Js.ToUint8Clamp (textureUtils.roughVal mr pr (Some r2))
     <= Js.ToUint8Clamp (textureUtils.roughVal mr pr (Some r1)))
  /\ forall (load : string -> option textureUtils.HTMLImageElement) (ctx : bool)
       (tw th : nat) (img varnish : option string)
       (maps : textureUtils.TextureMaps),
       textureUtils.processTextureMaps load ctx mr pr tw th img varnish
       = textureUtils.Resolved maps ->
       let w := textureUtils.canvas_width tw (loaded load img) (loaded load varnish) in
       let h := textureUtils.canvas_height th (loaded load img) (loaded load varnish) in
       let whiteInkData := textureUtils.whiteInkData_of (loaded load img) w h in
       let varnishData := textureUtils.varnishData_of (loaded load varnish) w h in
       forall (k1 k2 : nat) (r1 r2 : Z),
         (k1 < w * h)%nat -> (k2 < w * h)%nat ->
         whiteInkData !! (4 * k1)%nat = Some r1 ->
         whiteInkData !! (4 * k2)%nat = Some r2 ->
         varnished varnishData (4 * k1) = false ->
         varnished varnishData (4 * k2) = false ->
         r1 <= r2 ->
         exists s1 s2,
           textureUtils.data (textureUtils.roughnessMap maps) !! (4 * k1)%nat = Some s1
           /\ textureUtils.data (textureUtils.roughnessMap maps) !! (4 * k2)%nat = Some s2
           /\ s2 <= s1.
Proof.
  intros H0 Hle H1. split.
  - intros r1 r2 Hr1 Hr2.
    exact (roughness_sample_antitone mr pr r1 r2 H0 Hle H1 Hr1 Hr2).
  - intros load ctx tw th img varnish maps Hres w h ink vd k1 k2 r1 r2
      Hk1 Hk2 Hi1 Hi2 Hv1 Hv2 Hr.
    pose proof (resolved_roughness load ctx mr pr tw th img varnish maps Hres) as Hat.
    cbv zeta in Hat. fold w h in Hat. fold ink vd in Hat.
    destruct (Hat k1 0%nat Hk1 ltac:(lia)) as (r1' & Hr1' & Hrange1 & Hs1).
    destruct (Hat k2 0%nat Hk2 ltac:(lia)) as (r2' & Hr2' & Hrange2 & Hs2).
    rewrite Nat.add_0_r in Hs1, Hs2. rewrite Hv1 in Hs1. rewrite Hv2 in Hs2.
    assert (r1' = r1) by congruence. assert (r2' = r2) by congruence. subst.
    eexists _, _. split; [exact Hs1|]. split; [exact Hs2|].
    apply roughness_sample_antitone; try assumption; lia.
Qed.

Lemma roughness_antitone_witness :
  Js.ToUint8Clamp (textureUtils.roughVal 0.9 0.1 (Some 0)) = 229
  /\ Js.ToUint8Clamp (textureUtils.roughVal 0.9 0.1 (Some 255)) = 25
  /\ Js.ToUint8Clamp (textureUtils.roughVal 0.9 0.1 (Some 255))
     <= Js.ToUint8Clamp (textureUtils.roughVal 0.9 0.1 (Some 0)).
Proof.
  split; [reflexivity|]. split; [reflexivity|].
  apply (proj1 (roughness_antitone 0.9 0.1 eq_refl eq_refl eq_refl)); lia.
Defined.

(** X14.  For roughness scalars of [0, 1], every colour sample of the
    roughness map of a resolved call lies between the metal scale factor
    and the paper scale factor, in whichever order they are, or is 5 where
    the pixel is varnished. *)
Theorem roughness_between_scale_factors
    (load : string -> option textureUtils.HTMLImageElement) (ctx : bool)
    (mr pr : float) (tw th : nat) (img varnish : option string)
    (maps : textureUtils.TextureMaps) :
  textureUtils.processTextureMaps load ctx mr pr tw th img varnish
  = textureUtils.Resolved maps ->
  (0 <=? mr)%float = true -> (mr <=? 1)%float = true ->
  (0 <=? pr)%float = true -> (pr <=? 1)%float = true ->
  let w := textureUtils.canvas_width tw (loaded load img) (loaded load varnish) in
  let h := textureUtils.canvas_height th (loaded load img) (loaded load varnish) in
  let varnishData := textureUtils.varnishData_of (loaded load varnish) w h in
  let M := Js.ToUint8Clamp (textureUtils.metalRoughVal mr) in
  let P := Js.ToUint8Clamp (textureUtils.paperRoughVal pr) in
  forall k c, (k < w * h)%nat -> (c < 3)%nat ->
    exists s,
      textureUtils.data (textureUtils.roughnessMap maps) !! (4 * k + c)%nat = Some s
      /\ if varnished varnishData (4 * k) then s = 5
         else Z.min M P <= s <= Z.max M P.
Proof.
  intros Hres Hm0 Hm1 Hp0 Hp1 w h vd M P k c Hk Hc.
  destruct (resolved_roughness load ctx mr pr tw th img varnish maps Hres k c Hk Hc)
    as (r & _ & Hrange & Hs).
  fold w h in Hs. fold vd in Hs.
  eexists. split; [exact Hs|].
  destruct (varnished vd (4 * k)); [reflexivity|].
  now apply roughness_sample_between.
Qed.

Lemma roughness_between_scale_factors_witness :
  exists maps s,
    textureUtils.processTextureMaps example_load true 0.2 1.0 1024 1024
      (Some "white"%string) None
    = textureUtils.Resolved maps
    /\ textureUtils.data (textureUtils.roughnessMap maps) !! 9%nat = Some s
    /\ 51 <= s <= 255.
Proof.
  eexists.
  destruct (roughness_between_scale_factors example_load true 0.2 1.0 1024 1024
              (Some "white"%string) None _ eq_refl eq_refl eq_refl eq_refl eq_refl
              2%nat 1%nat ltac:(vm_compute; lia) ltac:(lia)) as (s & Hs & Hb).
  exists s. split; [reflexivity|]. split; [exact Hs | exact Hb].
Defined.

(** * Where the viewer and the export agree *)

Section Agreement.

Lemma float_neq_0_02 : 0.02%float <> 0%float.
Proof.
  intros H. apply (f_equal PrimFloat.is_zero) in H. vm_compute in H. discriminate.
Qed.

Lemma is_zero_false_neq (x : float) : PrimFloat.is_zero x = false -> x <> 0%float.
Proof. intros Hz ->. vm_compute in Hz. discriminate. Qed.

(** The material of the export has the bindings and the factors of the
    material of the viewer, a factor being read back from its text. *)
Definition same_material (viewer export : Material.t) : Prop :=
  Material.metalnessMap export = Material.metalnessMap viewer
  /\ Material.roughnessMap export = Material.roughnessMap viewer
  /\ Material.clearcoatMap export = Material.clearcoatMap viewer
  /\ Material.bumpMap export = Material.bumpMap viewer
  /\ Material.metalness export = Js.template_number (Material.metalness viewer)
  /\ Material.roughness export = Js.template_number (Material.roughness viewer)
  /\ Material.clearcoat export = Js.template_number (Material.clearcoat viewer)
  /\ Material.envMapIntensity export
     = Js.template_number (Material.envMapIntensity viewer).

(** The maps the viewer binds have been generated. *)
Definition maps_ready (metalnessMapUrl roughnessMapUrl clearcoatMapUrl : option string)
    (isPaperPreview : bool) : Prop :=
  PrintSimulator.useMaps clearcoatMapUrl isPaperPreview = true ->
  Js.truthy_string metalnessMapUrl = true /\ Js.truthy_string roughnessMapUrl = true.

Lemma same_material_iff
    (metalnessMapUrl roughnessMapUrl clearcoatMapUrl : option string)
    (cfg : PrintConfig) (isPaperPreview : bool) :
  same_material
    (PrintSimulator.PrintMesh clearcoatMapUrl cfg isPaperPreview)
    (exportUtils.generateStandaloneHtml metalnessMapUrl roughnessMapUrl
       clearcoatMapUrl cfg isPaperPreview)
  <-> maps_ready metalnessMapUrl roughnessMapUrl clearcoatMapUrl isPaperPreview.
Proof.
  unfold same_material, maps_ready. cbn.
  unfold exportUtils.metalBase64, exportUtils.roughBase64, exportUtils.coatBase64,
    exportUtils.shouldLoadMaps, exportUtils.clearcoatValStr,
    PrintSimulator.useMaps, PrintSimulator.clearcoatValue,
    exportUtils.hasVarnish, PrintSimulator.hasVarnish.
  destruct isPaperPreview, (Js.truthy_string clearcoatMapUrl),
    (Js.truthy_string metalnessMapUrl), (Js.truthy_string roughnessMapUrl);
    cbn; intuition (try discriminate; try reflexivity).
Qed.

End Agreement.

Ltac clash :=
  solve [ match goal with
          | H : _ = _ |- _ => discriminate H
          end
        | unfold PrimFloat.is_zero, PrimFloat.is_finite in *;
          match goal with
          | H1 : ?a = true, H2 : ?a = false |- _ =>
              rewrite H1 in H2; discriminate H2
          end ].

(** X15.  The viewer and the export give the material the same bump scale
    exactly when there is no clearcoat map or [config.varnishBump] is a
    finite number other than zero. *)
Theorem bumpScale_agree_iff
    (metalnessMapUrl roughnessMapUrl clearcoatMapUrl : option string)
    (cfg : PrintConfig) (isPaperPreview : bool) :
  Material.bumpScale (PrintSimulator.PrintMesh clearcoatMapUrl cfg isPaperPreview)
  = Material.bumpScale
      (exportUtils.generateStandaloneHtml metalnessMapUrl roughnessMapUrl
         clearcoatMapUrl cfg isPaperPreview)
  <-> Js.truthy_string clearcoatMapUrl = false
      \/ exists x, varnishBump cfg = Some x
           /\ PrimFloat.is_finite x = true /\ PrimFloat.is_zero x = false.
Proof.
  cbn. unfold exportUtils.script_bumpScale, exportUtils.script_varnishBump,
    exportUtils.coatBase64, PrintSimulator.varnishBump_or_default,
    exportUtils.hasVarnish, PrintSimulator.hasVarnish.
  destruct (Js.truthy_string clearcoatMapUrl); cbn [andb];
    [|split; [now left | reflexivity]].
  destruct (varnishBump cfg) as [x|];
    cbn [Js.of_optional Js.json_roundtrip Js.truthy].
  2:{ split; [intros H; now apply float_neq_0_02 in H|].
      intros [? | (x & ? & _)]; clash. }
  destruct (PrimFloat.is_finite x) eqn:Hf; cbn [Js.truthy].
  - unfold Js.template_number, Js.truthy_number.
    destruct (PrimFloat.is_zero x) eqn:Hz; cbn [orb negb].
    + change (PrimFloat.is_zero PrimFloat.zero) with true. cbn [orb negb].
      split; [intros H; now apply float_neq_0_02 in H|].
      intros [? | (y & [= <-] & _ & Hy)]; clash.
    + rewrite Hz.
      assert (Hn : PrimFloat.is_nan x = false).
      { unfold PrimFloat.is_finite in Hf. now destruct (PrimFloat.is_nan x). }
      rewrite Hn. cbn [orb negb]. split; [|reflexivity].
      intros _. right. exists x. auto.
  - destruct (Js.truthy_number x) eqn:Ht.
    + split.
      * intros H. unfold Js.truthy_number in Ht.
        destruct (PrimFloat.is_zero x) eqn:Hz; [discriminate|].
        now apply is_zero_false_neq in H.
      * intros [? | (y & [= <-] & Hy & _)]; clash.
    + split; [intros H; now apply float_neq_0_02 in H|].
      intros [? | (y & [= <-] & Hy & _)]; clash.
Qed.

(** X16.  The material of the export has the map bindings and the factors
    of the material of the viewer (a factor being read back from the text
    it was written as) exactly when the metalness and roughness maps exist
    whenever the viewer binds them; the clearcoat map, the bump map, the
    clearcoat factor and the environment intensity agree in every case. *)
Theorem viewer_export_agree
    (metalnessMapUrl roughnessMapUrl clearcoatMapUrl : option string)
    (cfg : PrintConfig) (isPaperPreview : bool) :
  let viewer := PrintSimulator.PrintMesh clearcoatMapUrl cfg isPaperPreview in
  let export :=
    exportUtils.generateStandaloneHtml metalnessMapUrl roughnessMapUrl
      clearcoatMapUrl cfg isPaperPreview in
  (same_material viewer export
   <-> (PrintSimulator.useMaps clearcoatMapUrl isPaperPreview = true ->
        Js.truthy_string metalnessMapUrl = true
        /\ Js.truthy_string roughnessMapUrl = true))
  /\ Material.clearcoatMap export = Material.clearcoatMap viewer
  /\ Material.bumpMap export = Material.bumpMap viewer
  /\ Material.clearcoat export = Js.template_number (Material.clearcoat viewer)
  /\ Material.envMapIntensity export
     = Js.template_number (Material.envMapIntensity viewer).
Proof.
  split; [apply same_material_iff|].
  cbn. unfold exportUtils.coatBase64, exportUtils.clearcoatValStr,
    PrintSimulator.clearcoatValue, exportUtils.hasVarnish, PrintSimulator.hasVarnish.
  destruct isPaperPreview, (Js.truthy_string clearcoatMapUrl); cbn; auto.
Qed.

(** * Invariants of the state of the component *)

Section AppInvariants.
Import App.

Variable load : string -> option textureUtils.HTMLImageElement.
Variable canvas_context : bool.
Variable createObjectURL : File -> string.
Variable toDataURL : textureUtils.ImageData -> string.

(** An object URL and a data URL are not empty. *)
Hypothesis createObjectURL_truthy :
  forall file, Js.truthy_string (Some (createObjectURL file)) = true.
Hypothesis toDataURL_truthy :
  forall d, Js.truthy_string (Some (toDataURL d)) = true.

Local Abbreviation processTextures := (App.processTextures load canvas_context toDataURL).
Local Abbreviation handle := (App.handle load canvas_context createObjectURL toDataURL).
Local Abbreviation run := (App.run load canvas_context createObjectURL toDataURL).

(** Metal mode needs a white-ink mask; the metalness and roughness maps
    come and go together; a clearcoat map comes with them and with a
    varnish mask; generated maps come with a mask. *)
Definition consistent (st : state) : Prop :=
  (isPaperPreview st = false -> Js.truthy_string (whiteUrl st) = true)
  /\ (hasWhiteInk st = true -> Js.truthy_string (whiteUrl st) = true)
  /\ Js.truthy_string (metalnessMapUrl st) = Js.truthy_string (roughnessMapUrl st)
  /\ (Js.truthy_string (clearcoatMapUrl st) = true ->
      Js.truthy_string (metalnessMapUrl st) = true
      /\ Js.truthy_string (varnishUrl st) = true)
  /\ (Js.truthy_string (metalnessMapUrl st) = true ->
      Js.truthy_string (whiteUrl st) = true
      \/ Js.truthy_string (varnishUrl st) = true).

(** A clearcoat map is made only from a varnish source. *)
Lemma clearcoat_needs_varnish ctx mr pr tw th img varnish maps :
  textureUtils.processTextureMaps load ctx mr pr tw th img varnish
  = textureUtils.Resolved maps ->
  is_Some (textureUtils.clearcoatMap maps) -> supplied varnish = true.
Proof.
  intros Hres Hcoat.
  apply processTextureMaps_Resolved, runProcessing_inv in Hres.
  destruct Hres as (_ & _ & Hc & _).
  destruct (loaded load varnish) as [vImg|] eqn:Hv.
  - unfold loaded in Hv. now destruct (supplied varnish).
  - rewrite (final_clearcoatData_None mr pr tw th (loaded load img) None eq_refl)
      in Hc.
    destruct Hcoat as [coat Hcoat]. rewrite Hcoat in Hc. discriminate.
Qed.

Ltac consistency :=
  unfold consistent, hasWhiteInk in *; cbn -[Js.truthy_string] in *;
  rewrite ?toDataURL_truthy, ?createObjectURL_truthy in *;
  intuition (try discriminate; try assumption).

Lemma processTextures_consistent (st : state) :
  consistent st ->
  consistent (processTextures (whiteUrl st) (varnishUrl st) st).
Proof.
  intros Hst. unfold App.processTextures.
  destruct (negb (Js.truthy_string (whiteUrl st))
            && negb (Js.truthy_string (varnishUrl st))) eqn:Hnone.
  - consistency.
  - cbn [config setIsProcessing].
    destruct (textureUtils.processTextureMaps _ _ _ _ _ _ _ _) as [maps| |] eqn:Hout.
    + assert (Hv : Js.truthy_string (toDataURL <$> textureUtils.clearcoatMap maps) = true ->
                   Js.truthy_string (varnishUrl st) = true).
      { intros Hc. apply (clearcoat_needs_varnish _ _ _ _ _ _ _ _ Hout).
        destruct (textureUtils.clearcoatMap maps); [eauto | discriminate]. }
      assert (Hs : Js.truthy_string (whiteUrl st) = true
                   \/ Js.truthy_string (varnishUrl st) = true).
      { destruct (Js.truthy_string (whiteUrl st)); [now left|].
        destruct (Js.truthy_string (varnishUrl st)); [now right | discriminate]. }
      clear Hout Hnone. consistency.
    + clear Hout Hnone. consistency.
    + clear Hout Hnone. consistency.
Qed.

Lemma enforcePaperMode_consistent (st : state) :
  (hasWhiteInk st = true -> Js.truthy_string (whiteUrl st) = true) ->
  Js.truthy_string (metalnessMapUrl st) = Js.truthy_string (roughnessMapUrl st) ->
  (Js.truthy_string (clearcoatMapUrl st) = true ->
   Js.truthy_string (metalnessMapUrl st) = true
   /\ Js.truthy_string (varnishUrl st) = true) ->
  (Js.truthy_string (metalnessMapUrl st) = true ->
   Js.truthy_string (whiteUrl st) = true
   \/ Js.truthy_string (varnishUrl st) = true) ->
  consistent (enforcePaperMode st).
Proof.
  intros Hink Hpair Hcoat Hsrc. unfold enforcePaperMode.
  destruct (Js.truthy_string (whiteUrl st)) eqn:Hw; consistency.
Qed.

Lemma handle_consistent (e : event) (st : state) :
  consistent st -> consistent (handle e st).
Proof.
  intros Hst.
  destruct e as [file|file|c| | |]; cbn [App.handle].
  - unfold handleUploadWhite.
    set (url := createObjectURL file).
    assert (Hurl : Js.truthy_string (Some url) = true)
      by apply createObjectURL_truthy.
    assert (Hc : consistent (setWhite file url st)) by (clearbody url; consistency).
    apply processTextures_consistent in Hc. cbn [whiteUrl varnishUrl setWhite] in Hc.
    destruct Hc as (_ & Hink' & Hpair' & Hcoat' & Hsrc').
    now apply enforcePaperMode_consistent.
  - unfold handleUploadVarnish.
    set (url := createObjectURL file).
    assert (Hurl : Js.truthy_string (Some url) = true)
      by apply createObjectURL_truthy.
    assert (Hc : consistent (setVarnishUrl url st)) by (clearbody url; consistency).
    apply processTextures_consistent in Hc. exact Hc.
  - exact Hst.
  - unfold regenerate. destruct (_ && _); [exact Hst|].
    now apply processTextures_consistent.
  - destruct (hasWhiteInk st) eqn:Hhas; [|exact Hst]. consistency.
  - consistency.
Qed.

Lemma fold_consistent (events : list event) (st : state) :
  consistent st -> consistent (fold_left (fun st e => handle e st) events st).
Proof.
  revert st. induction events as [|e events IH]; intros st Hst; [exact Hst|].
  cbn [fold_left]. apply IH. now apply handle_consistent.
Qed.

Lemma run_consistent (events : list event) : consistent (run events).
Proof.
  apply fold_consistent. apply enforcePaperMode_consistent; cbn; try discriminate.
  reflexivity.
Qed.

End AppInvariants.

(** X17.  After the first render and any sequence of uploads, configuration
    changes, regenerations and clicks on the two mode buttons: metal mode
    is on only with a white-ink mask; the metalness map and the roughness
    map exist together; a clearcoat map exists only together with them and
    with a varnish mask; and generated maps exist only with a mask. *)
Theorem App_state_invariant
    (load : string -> option textureUtils.HTMLImageElement) (canvas_context : bool)
    (createObjectURL : App.File -> string)
    (toDataURL : textureUtils.ImageData -> string)
    (events : list App.event) :
  (forall file, Js.truthy_string (Some (createObjectURL file)) = true) ->
  (forall d, Js.truthy_string (Some (toDataURL d)) = true) ->
  let st := App.run load canvas_context createObjectURL toDataURL events in
  (App.isPaperPreview st = false -> Js.truthy_string (App.whiteUrl st) = true)
  /\ (Js.truthy_string (App.metalnessMapUrl st) = true
      <-> Js.truthy_string (App.roughnessMapUrl st) = true)
  /\ (Js.truthy_string (App.clearcoatMapUrl st) = true ->
      Js.truthy_string (App.metalnessMapUrl st) = true
      /\ Js.truthy_string (App.varnishUrl st) = true)
  /\ (Js.truthy_string (App.metalnessMapUrl st) = true ->
      Js.truthy_string (App.whiteUrl st) = true
      \/ Js.truthy_string (App.varnishUrl st) = true).
Proof.
  intros Hurl Hdata st.
  destruct (run_consistent load canvas_context createObjectURL toDataURL
              Hurl Hdata events) as (Hpaper & _ & Hpair & Hcoat & Hsrc).
  fold st in Hpaper, Hpair, Hcoat, Hsrc.
  split; [exact Hpaper|]. split; [now rewrite Hpair|].
  split; [exact Hcoat | exact Hsrc].
Qed.

(** A browser for the examples: an object URL is ["blob:"] followed by the
    name of the file, every canvas encodes as the same data URL, and the
    file ["white"] loads as the 2 by 2 picture of [example_load]. *)
Definition example_createObjectURL (file : App.File) : string :=
  ("blob:" ++ App.name file)%string.

Definition example_toDataURL (_ : textureUtils.ImageData) : string :=
  "data:image/png;base64,AAAA"%string.

Definition example_blob_load (s : string) : option textureUtils.HTMLImageElement :=
  if String.eqb s "blob:white" then Some (Grayscale.image 2 2 [0; 0; 255; 255])
  else if String.eqb s "blob:empty" then Some (Grayscale.image 0 0 [])
  else None.

Definition example_events : list App.event :=
  [App.UploadWhite {| App.name := "white" |}; App.ClickMetal;
   App.UploadVarnish {| App.name := "broken" |}].

Lemma App_state_invariant_witness :
  let st :=
    App.run example_blob_load true example_createObjectURL example_toDataURL
      example_events in
  App.isPaperPreview st = false
  /\ Js.truthy_string (App.whiteUrl st) = true
  /\ Js.truthy_string (App.metalnessMapUrl st) = true.
Proof.
  split; [reflexivity|]. split; [|reflexivity].
  exact (proj1 (App_state_invariant example_blob_load true example_createObjectURL
                  example_toDataURL example_events
                  (fun _ => eq_refl) (fun _ => eq_refl)) eq_refl).
Defined.

(** X18.  In every state the component reaches, the exported scene has the
    map bindings and the factors of the viewer exactly when the preview is
    in paper mode or the generated maps exist. *)
Theorem export_matches_viewer_iff
    (load : string -> option textureUtils.HTMLImageElement) (canvas_context : bool)
    (createObjectURL : App.File -> string)
    (toDataURL : textureUtils.ImageData -> string)
    (events : list App.event) :
  (forall file, Js.truthy_string (Some (createObjectURL file)) = true) ->
  (forall d, Js.truthy_string (Some (toDataURL d)) = true) ->
  let st := App.run load canvas_context createObjectURL toDataURL events in
  same_material
    (PrintSimulator.PrintMesh (App.clearcoatMapUrl st) (App.config st)
       (App.isPaperPreview st))
    (exportUtils.generateStandaloneHtml (App.metalnessMapUrl st)
       (App.roughnessMapUrl st) (App.clearcoatMapUrl st) (App.config st)
       (App.isPaperPreview st))
  <-> App.isPaperPreview st = true
      \/ Js.truthy_string (App.metalnessMapUrl st) = true.
Proof.
  intros Hurl Hdata st.
  destruct (run_consistent load canvas_context createObjectURL toDataURL
              Hurl Hdata events) as (_ & _ & Hpair & Hcoat & _).
  fold st in Hpair, Hcoat.
  rewrite same_material_iff.
  unfold maps_ready, PrintSimulator.useMaps, PrintSimulator.hasVarnish.
  rewrite <- Hpair.
  destruct (App.isPaperPreview st), (Js.truthy_string (App.clearcoatMapUrl st)),
    (Js.truthy_string (App.metalnessMapUrl st));
    cbn; intuition discriminate.
Qed.

Lemma export_matches_viewer_iff_witness :
  let st :=
    App.run example_blob_load true example_createObjectURL example_toDataURL
      example_events in
  same_material
    (PrintSimulator.PrintMesh (App.clearcoatMapUrl st) (App.config st)
       (App.isPaperPreview st))
    (exportUtils.generateStandaloneHtml (App.metalnessMapUrl st)
       (App.roughnessMapUrl st) (App.clearcoatMapUrl st) (App.config st)
       (App.isPaperPreview st)).
Proof.
  apply (proj2 (export_matches_viewer_iff example_blob_load true
                  example_createObjectURL example_toDataURL example_events
                  (fun _ => eq_refl) (fun _ => eq_refl))).
  right. reflexivity.
Defined.

(** X19.  After the upload of a white-ink mask the busy flag stays raised
    exactly when there is a canvas context and the mask loads as an image
    with a width or a height of zero: the promise is then never settled and
    the [finally] block never runs. *)
Theorem upload_white_stays_busy
    (load : string -> option textureUtils.HTMLImageElement) (canvas_context : bool)
    (createObjectURL : App.File -> string)
    (toDataURL : textureUtils.ImageData -> string)
    (file : App.File) (st : App.state) :
  (forall file, Js.truthy_string (Some (createObjectURL file)) = true) ->
  App.isProcessing
    (App.handleUploadWhite load canvas_context createObjectURL toDataURL file st)
  = true
  <-> canvas_context = true
      /\ exists im, load (createObjectURL file) = Some im
           /\ (textureUtils.width im = 0%nat \/ textureUtils.height im = 0%nat).
Proof.
  intros Hurl. unfold App.handleUploadWhite.
  set (url := createObjectURL file). specialize (Hurl file). fold url in Hurl.
  set (st1 := App.setWhite file url st).
  assert (Henf : forall s, App.isProcessing (App.enforcePaperMode s) = App.isProcessing s).
  { intros s. unfold App.enforcePaperMode.
    destruct (Js.truthy_string (App.whiteUrl s)); reflexivity. }
  rewrite Henf. unfold App.processTextures. rewrite Hurl. cbn [negb andb].
  cbn [App.config App.setIsProcessing].
  set (mr := metalRoughness (App.config st1)).
  set (pr := paperRoughness (App.config st1)).
  set (v := App.varnishUrl st).
  assert (Hprim : primary load (Some url) v = load url).
  { unfold primary, supplied. now rewrite Hurl. }
  destruct (load url) as [im|] eqn:Hload.
  - destruct (processTextureMaps_primary load canvas_context mr pr 1024 1024
                (Some url) v im Hprim) as (-> & Hw & Hh).
    destruct (runProcessing_cases canvas_context mr pr 1024 1024
                (loaded load (Some url)) (loaded load v))
      as [(-> & [e He])|[(-> & Hz & Hrun)|(-> & Hnw & Hnh & [maps Hrun])]];
      rewrite ?Hw, ?Hh in *.
    + rewrite He. cbn. split; [discriminate | intros [? _]; discriminate].
    + rewrite Hrun. cbn. split; [|reflexivity].
      intros _. split; [reflexivity|]. eauto.
    + rewrite Hrun. cbn. split; [discriminate|].
      intros (_ & im' & [= <-] & ?). lia.
  - destruct (processTextureMaps_no_primary load canvas_context mr pr 1024 1024
                (Some url) v Hprim) as [e ->].
    cbn. split; [discriminate | intros (_ & ? & ? & _); discriminate].
Qed.

Lemma upload_white_stays_busy_witness :
  App.isProcessing
    (App.handleUploadWhite example_blob_load true example_createObjectURL
       example_toDataURL {| App.name := "empty" |} App.initial)
  = true.
Proof.
  apply (proj2 (upload_white_stays_busy example_blob_load true
                  example_createObjectURL example_toDataURL
                  {| App.name := "empty" |} App.initial (fun _ => eq_refl))).
  split; [reflexivity|]. eexists. split; [reflexivity|]. left. reflexivity.
Defined.

Section DataUrl.

Fixpoint has_comma (s : string) : bool :=
  match s with
  | EmptyString => false
  | String c t => Ascii.eqb c geminiService.comma || has_comma t
  end.

Lemma split_no_comma (s : string) :
  has_comma s = false -> geminiService.split s = [s].
Proof.
  induction s as [|c t IH]; [reflexivity|].
  cbn [has_comma geminiService.split].
  destruct (Ascii.eqb c geminiService.comma); [discriminate|].
  cbn [orb]. intros H. now rewrite (IH H).
Qed.

Lemma split_app (p q : string) :
  has_comma p = false ->
  geminiService.split (p ++ String geminiService.comma q) = p :: geminiService.split q.
Proof.
  induction p as [|c t IH]; [reflexivity|].
  cbn [has_comma append geminiService.split].
  destruct (Ascii.eqb c geminiService.comma); [discriminate|].
  cbn [orb]. intros H. now rewrite (IH H).
Qed.

End DataUrl.

(** X20.  For a data URL whose header has no comma, the image data sent to
    the model is the payload after the first comma when the payload has no
    comma, and the payload up to its first comma otherwise; a string with
    no comma gives no data ([undefined]). *)
Theorem inlineData_of_data_url (header payload : string) :
  has_comma header = false ->
  (has_comma payload = false ->
   geminiService.inlineData (header ++ String geminiService.comma payload) = Some payload)
  /\ (forall rest,
        has_comma payload = false ->
        geminiService.inlineData
          (header ++ String geminiService.comma (payload ++ String geminiService.comma rest))
        = Some payload)
  /\ geminiService.inlineData header = None.
Proof.
  intros Hh. unfold geminiService.inlineData. split; [|split].
  - intros Hp. now rewrite (split_app _ _ Hh), (split_no_comma _ Hp).
  - intros rest Hp. now rewrite (split_app _ _ Hh), (split_app _ _ Hp).
  - now rewrite (split_no_comma _ Hh).
Qed.

Lemma inlineData_of_data_url_witness :
  geminiService.inlineData "data:image/png;base64,iVBORw0KGgo="
  = Some "iVBORw0KGgo="%string.
Proof.
  apply (proj1 (inlineData_of_data_url "data:image/png;base64" "iVBORw0KGgo="
                  eq_refl)).
  reflexivity.
Defined.
